(** * SyncDB: one-way PostgreSQL table synchronisation

    A shallow embedding of [src/syncDB/queries.py], [src/syncDB/syncDB.py]
    and [src/__init__.py], together with a small executable model of the
    part of psycopg2 and PostgreSQL that these files talk to.

    Layout:
    - [Py]      : Python values, exceptions, the state-and-exception monad;
    - [Sql]     : [psycopg2.sql] composables ([SQL], [Identifier], [Composed]);
    - [Queries] : the query builders of [queries.py];
    - [Pg]      : tables, databases, connections and the server's reading
                  of the statements the program sends;
    - [Sync]    : [PostgresDatabaseSync] and [main];
    - then the properties. *)

From Stdlib Require Import List String Ascii ZArith Bool Arith Lia.
From Stdlib Require Import DecimalString.
Import ListNotations.
Open Scope string_scope.

(* ------------------------------------------------------------------ *)
(** ** Python values and exceptions *)

Module Py.

(** What a cursor hands back in a row, and what is passed as a query
    argument: SQL NULL / [None], booleans, integers and text. *)
Inductive value : Type :=
| VNull
| VBool (b : bool)
| VInt (z : Z)
| VStr (s : string).

Definition row := list value.

Definition value_eqb (a b : value) : bool :=
  match a, b with
  | VNull, VNull => true
  | VBool x, VBool y => Bool.eqb x y
  | VInt x, VInt y => Z.eqb x y
  | VStr x, VStr y => String.eqb x y
  | _, _ => false
  end.

(** Python truthiness, as used by [if not x]. *)
Definition truthy (v : value) : bool :=
  match v with
  | VNull => false
  | VBool b => b
  | VInt z => negb (Z.eqb z 0)
  | VStr s => negb (String.eqb s EmptyString)
  end.

Definition str_of_nat (n : nat) : string :=
  NilEmpty.string_of_uint (Nat.to_uint n).

Definition str_of_Z (z : Z) : string :=
  NilEmpty.string_of_int (Z.to_int z).

(** [str(v)], which is what an f-string inserts. *)
Definition str_of_value (v : value) : string :=
  match v with
  | VNull => "None"
  | VBool true => "True"
  | VBool false => "False"
  | VInt z => str_of_Z z
  | VStr s => s
  end.

(** The exception classes that can reach the handlers of [sync_table].
    [IntegrityError] is psycopg2's class for SQLSTATE class 23; every other
    database error of the model is a [ProgrammingError]. *)
Inductive exn : Type :=
| IntegrityError (msg : string)
| ProgrammingError (msg : string)
| OperationalError (msg : string)
| ValueError (msg : string)
| IndexError (msg : string)
| TypeError (msg : string).

Definition exn_message (e : exn) : string :=
  match e with
  | IntegrityError m | ProgrammingError m | OperationalError m
  | ValueError m | IndexError m | TypeError m => m
  end.

(** [isinstance(e, IntegrityError)]: what [except IntegrityError] catches. *)
Definition is_integrity_error (e : exn) : bool :=
  match e with IntegrityError _ => true | _ => false end.

Inductive outcome (A : Type) : Type :=
| Ok (a : A)
| Raise (e : exn).
Arguments Ok {A} a.
Arguments Raise {A} e.

(** Computations over a state [S] that may raise. *)
Definition M (S A : Type) : Type := S -> outcome A * S.

Definition ret {S A} (a : A) : M S A := fun s => (Ok a, s).
Definition raise {S A} (e : exn) : M S A := fun s => (Raise e, s).
Definition bind {S A B} (m : M S A) (k : A -> M S B) : M S B :=
  fun s => match m s with
           | (Ok a, s') => k a s'
           | (Raise e, s') => (Raise e, s')
           end.
Definition lift {S A} (o : outcome A) : M S A := fun s => (o, s).

(** [try: body except Exception as e: handler(e)] *)
Definition try_except {S A} (body : M S A) (handler : exn -> M S A) : M S A :=
  fun s => match body s with
           | (Ok a, s') => (Ok a, s')
           | (Raise e, s') => handler e s'
           end.

(** [for x in xs: body(x)] *)
Fixpoint for_each {S A} (xs : list A) (body : A -> M S unit) : M S unit :=
  match xs with
  | [] => ret tt
  | x :: rest => bind (body x) (fun _ => for_each rest body)
  end.

(** [[f(x) for x in xs]] where [f] may raise. *)
Fixpoint map_outcome {A B} (f : A -> outcome B) (xs : list A) : outcome (list B) :=
  match xs with
  | [] => Ok []
  | x :: rest =>
      match f x with
      | Raise e => Raise e
      | Ok y => match map_outcome f rest with
                | Raise e => Raise e
                | Ok ys => Ok (y :: ys)
                end
      end
  end.

(** [xs[i]] on a tuple or list with a non-negative index. *)
Definition getitem (xs : row) (i : nat) : outcome value :=
  match nth_error xs i with
  | Some v => Ok v
  | None => Raise (IndexError "tuple index out of range")
  end.

(** [xs.index(x)]: position of the first occurrence, [ValueError] if none. *)
Fixpoint index_opt (x : string) (xs : list string) : option nat :=
  match xs with
  | [] => None
  | y :: rest => if String.eqb y x then Some 0
                 else option_map S (index_opt x rest)
  end.

Definition list_index (xs : list string) (x : string) : outcome nat :=
  match index_opt x xs with
  | Some i => Ok i
  | None => Raise (ValueError (x ++ " is not in list"))
  end.

(** A [dict] with string keys: insertion-ordered, assignment to an existing
    key keeps its position and replaces the value. *)
Definition dict := list (string * value).

Fixpoint dict_set (d : dict) (k : string) (v : value) : dict :=
  match d with
  | [] => [(k, v)]
  | (k', v') :: rest =>
      if String.eqb k' k then (k', v) :: rest
      else (k', v') :: dict_set rest k v
  end.

Definition dict_values (d : dict) : list value := map snd d.

End Py.
Export Py.

Declare Scope py_scope.
Delimit Scope py_scope with py.
Notation "x <- m ;; k" := (bind m (fun x => k))
  (at level 61, m at next level, right associativity) : py_scope.
Notation "m ;;; k" := (bind m (fun _ => k))
  (at level 61, right associativity) : py_scope.

(* ------------------------------------------------------------------ *)
(** ** psycopg2.sql *)

Module Sql.

#[warnings="-register-all"]
Inductive composable : Type :=
| SQL (s : string)
| Identifier (name : string)
| Composed (parts : list composable).

Definition dquote : string := String (ascii_of_nat 34) EmptyString.

(** [Identifier] quoting: every double-quote character of the name is
    doubled (character 34). *)
Fixpoint escape_ident (s : string) : string :=
  match s with
  | EmptyString => EmptyString
  | String c rest =>
      if Ascii.eqb c (ascii_of_nat 34)
      then String c (String c (escape_ident rest))
      else String c (escape_ident rest)
  end.

Definition quote_ident (name : string) : string :=
  dquote ++ escape_ident name ++ dquote.

(** [Composable.as_string] *)
Fixpoint as_string (q : composable) : string :=
  match q with
  | SQL s => s
  | Identifier n => quote_ident n
  | Composed parts =>
      (fix go (ps : list composable) : string :=
         match ps with
         | [] => EmptyString
         | p :: rest => as_string p ++ go rest
         end) parts
  end.

(** [SQL.join]: the items separated by [sep], as a [Composed]. *)
Definition intersperse (sep : composable) (items : list composable)
  : list composable :=
  match items with
  | [] => []
  | x :: rest => x :: flat_map (fun i => [sep; i]) rest
  end.

Definition join (sep : string) (items : list composable) : composable :=
  Composed (intersperse (SQL sep) items).

(** [SQL.format] with automatic numbering only ([{}] fields).  The template
    is cut at every [{}]; a non-empty literal piece becomes an [SQL] part and
    each field takes the next argument. *)
Fixpoint split_fields (s : string) (acc : string) : list string :=
  match s with
  | EmptyString => [acc]
  | String c rest =>
      match rest with
      | String d rest' =>
          if Ascii.eqb c (ascii_of_nat 123) && Ascii.eqb d (ascii_of_nat 125)
          then acc :: split_fields rest' EmptyString
          else split_fields rest (acc ++ String c EmptyString)
      | EmptyString => [acc ++ String c EmptyString]
      end
  end.

Definition literal (s : string) : list composable :=
  match s with EmptyString => [] | _ => [SQL s] end.

Fixpoint fill (pieces : list string) (args : list composable)
  : list composable :=
  match pieces with
  | [] => []
  | [p] => literal p
  | p :: rest =>
      match args with
      | a :: args' => literal p ++ a :: fill rest args'
      | [] => literal p ++ fill rest []
      end
  end.

Definition format (template : string) (args : list composable) : composable :=
  Composed (fill (split_fields template EmptyString) args).

End Sql.
Export Sql.

(* ------------------------------------------------------------------ *)
(** ** queries.py *)

Module Queries.

(** Returns a query to check if a table exists. *)
Definition check_table_exists (table_name : string)
  : composable * list value :=
  (SQL "SELECT EXISTS (SELECT FROM information_schema.tables WHERE table_name = %s);",
   [VStr table_name]).

(** Returns a query to get the schema (column names and types) of a table. *)
Definition get_table_schema (table_name : string)
  : composable * list value :=
  (SQL "SELECT column_name, data_type FROM information_schema.columns WHERE table_name = %s;",
   [VStr table_name]).

(** Returns a query to fetch the primary key columns of a table. *)
Definition fetch_primary_keys (table_name : string)
  : composable * list value :=
  (SQL ("SELECT a.attname FROM pg_index i "
        ++ "JOIN pg_attribute a ON a.attrelid = i.indrelid AND a.attnum = ANY(i.indkey) "
        ++ "WHERE i.indrelid = %s::regclass AND i.indisprimary;"),
   [VStr table_name]).

(** Returns a query to select all rows from a table. *)
Definition select_all_rows (table_name : string)
  : outcome (composable * list value) :=
  if String.eqb table_name EmptyString
  then Raise (ValueError "Table name must be provided")
  else Ok (format "SELECT * FROM {}" [Identifier table_name], []).

(** Returns an INSERT query with ON CONFLICT DO NOTHING for bulk insertion. *)
Definition insert_missing_rows (table_name : string) (columns : list string)
  : composable :=
  format "INSERT INTO {} ({}) VALUES %s ON CONFLICT DO NOTHING"
         [Identifier table_name; join ", " (map Identifier columns)].

(** Constructs a WHERE clause for primary keys to check for row existence. *)
Definition construct_where_clause (primary_keys : list string) : composable :=
  match primary_keys with
  | [] => SQL "TRUE"
  | _ => join " AND "
              (map (fun k => Composed [Identifier k; SQL "= %s"]) primary_keys)
  end.

End Queries.
Export Queries.

(* ------------------------------------------------------------------ *)
(** ** The database server and psycopg2 connections

    A database is a catalog of tables, each in a schema.  A table has its
    columns (name and data type, in catalog order), its primary-key columns
    (empty when it has none) and its rows.  The primary key is the only
    constraint of the model: its columns reject NULL and their combined
    values are unique.

    What the model leaves out of PostgreSQL: identifiers are compared
    exactly (no case folding of unquoted names), an unqualified table name
    resolves to schema [public] (the default search path), values are not
    checked against column types, and nobody else writes to a database
    while a connection works on it.  After a failed statement the program
    always rolls back or stops, so the aborted-transaction state is not
    represented: a failed statement leaves the data as it was. *)

Module Pg.

Record table : Type := mkTable {
  t_columns : list (string * string);
  t_pkey : list string;
  t_rows : list row
}.

Definition database := list ((string * string) * table).

Definition column_names (t : table) : list string := map fst (t_columns t).

Fixpoint find_table (d : database) (schema name : string) : option table :=
  match d with
  | [] => None
  | ((s, n), t) :: rest =>
      if String.eqb s schema && String.eqb n name then Some t
      else find_table rest schema name
  end.

Fixpoint set_table (d : database) (schema name : string) (t : table)
  : database :=
  match d with
  | [] => [((schema, name), t)]
  | ((s, n), t') :: rest =>
      if String.eqb s schema && String.eqb n name
      then ((s, n), t) :: rest
      else ((s, n), t') :: set_table rest schema name t
  end.

(** All tables called [name], whatever their schema. *)
Definition tables_named (d : database) (name : string) : list table :=
  map snd (filter (fun e => String.eqb (snd (fst e)) name) d).

(** [information_schema.tables] has a row with this [table_name]. *)
Definition table_exists (d : database) (name : string) : bool :=
  existsb (fun e => String.eqb (snd (fst e)) name) d.

(** The rows of [information_schema.columns] with this [table_name]. *)
Definition catalog_columns (d : database) (name : string)
  : list (string * string) :=
  flat_map t_columns (tables_named d name).

Definition tables_in (d : database) (schema : string) : list string :=
  map (fun e => snd (fst e))
      (filter (fun e => String.eqb (fst (fst e)) schema) d).

(** The value of column [c] in a row laid out along [cols]. *)
Definition field (cols : list string) (r : row) (c : string) : value :=
  match index_opt c cols with
  | Some i => nth i r VNull
  | None => VNull
  end.

(** SQL [=] in a WHERE clause: a comparison with NULL is not true. *)
Definition sql_eq (a b : value) : bool :=
  match a, b with
  | VNull, _ => false
  | _, VNull => false
  | _, _ => value_eqb a b
  end.

Fixpoint nodupb (xs : list string) : bool :=
  match xs with
  | [] => true
  | x :: rest => negb (existsb (String.eqb x) rest) && nodupb rest
  end.

Definition memb (x : string) (xs : list string) : bool :=
  existsb (String.eqb x) xs.

(** What the server understood a statement to ask for. *)
Inductive request : Type :=
| RTableExists (name : string)
| RColumns (name : string)
| RPrimaryKeys (name : string)
| RPublicTables
| RSelectAll (tbl : string)
| RProbe (tbl : string) (keys : list string) (vals : list value)
| RCreate (tbl : string) (coldefs : string)
| RInsert (tbl : string) (cols : list string) (rows : list row).

Record resultset : Type := mkResult {
  rs_rows : list row;
  rs_description : list string
}.

Definition no_result : resultset := mkResult [] [].

(** *** Reading a statement *)

Definition list_tables_text : string :=
  "SELECT table_name FROM information_schema.tables WHERE table_schema = 'public';".

Definition read_equality (c : composable) : option string :=
  match c with
  | Composed [Identifier k; SQL e] =>
      if String.eqb e "= %s" then Some k else None
  | _ => None
  end.

Fixpoint read_conjuncts (parts : list composable) : option (list string) :=
  match parts with
  | [] => Some []
  | SQL a :: item :: rest =>
      if String.eqb a " AND " then
        match read_equality item, read_conjuncts rest with
        | Some k, Some ks => Some (k :: ks)
        | _, _ => None
        end
      else None
  | _ => None
  end.

Definition read_where (w : composable) : option (list string) :=
  match w with
  | SQL s => if String.eqb s "TRUE" then Some [] else None
  | Composed (first :: rest) =>
      match read_equality first, read_conjuncts rest with
      | Some k, Some ks => Some (k :: ks)
      | _, _ => None
      end
  | _ => None
  end.

Fixpoint read_identifiers (parts : list composable) : option (list string) :=
  match parts with
  | [] => Some []
  | SQL a :: Identifier c :: rest =>
      if String.eqb a ", " then option_map (cons c) (read_identifiers rest)
      else None
  | _ => None
  end.

Definition read_column_list (c : composable) : option (list string) :=
  match c with
  | Composed (Identifier c0 :: rest) =>
      option_map (cons c0) (read_identifiers rest)
  | _ => None
  end.

(** A statement run with [cursor.execute(query, args)]. *)
Definition read_statement (q : composable) (args : list value)
  : option request :=
  match q with
  | SQL s =>
      if String.eqb s (as_string (fst (check_table_exists EmptyString))) then
        match args with [VStr n] => Some (RTableExists n) | _ => None end
      else if String.eqb s (as_string (fst (get_table_schema EmptyString))) then
        match args with [VStr n] => Some (RColumns n) | _ => None end
      else if String.eqb s (as_string (fst (fetch_primary_keys EmptyString))) then
        match args with [VStr n] => Some (RPrimaryKeys n) | _ => None end
      else if String.eqb s list_tables_text then
        match args with [] => Some RPublicTables | _ => None end
      else None
  | Composed [SQL a; Identifier t] =>
      if String.eqb a "SELECT * FROM " then
        match args with [] => Some (RSelectAll t) | _ => None end
      else None
  | Composed [SQL a; Identifier t; SQL b; w] =>
      if String.eqb a "SELECT 1 FROM " && String.eqb b " WHERE " then
        option_map (fun ks => RProbe t ks args) (read_where w)
      else None
  | Composed [SQL a; Identifier t; SQL b; SQL defs; SQL c] =>
      if String.eqb a "CREATE TABLE " && String.eqb b " ("
         && String.eqb c ")" then
        match args with [] => Some (RCreate t defs) | _ => None end
      else None
  | _ => None
  end.

(** A statement run with [execute_values(cur, query, rows)]: the single
    [%s] after VALUES stands for the list of row tuples. *)
Definition read_values_statement (q : composable) (rows : list row)
  : option request :=
  match q with
  | Composed [SQL a; Identifier t; SQL b; cols; SQL c] =>
      if String.eqb a "INSERT INTO " && String.eqb b " ("
         && String.eqb c ") VALUES %s ON CONFLICT DO NOTHING" then
        option_map (fun cs => RInsert t cs rows) (read_column_list cols)
      else None
  | _ => None
  end.

(** *** Column definitions of CREATE TABLE

    The text between the parentheses is a comma-separated list of
    [name type] items; the name ends at the first space. *)

Fixpoint split_at_commas (s : string) : list string :=
  match s with
  | EmptyString => [EmptyString]
  | String c rest =>
      if Ascii.eqb c ","%char then EmptyString :: split_at_commas rest
      else match split_at_commas rest with
           | p :: ps => String c p :: ps
           | [] => [String c EmptyString]
           end
  end.

Fixpoint lstrip (s : string) : string :=
  match s with
  | String c rest => if Ascii.eqb c " "%char then lstrip rest else s
  | EmptyString => EmptyString
  end.

Fixpoint break_at_space (s : string) : string * option string :=
  match s with
  | EmptyString => (EmptyString, None)
  | String c rest =>
      if Ascii.eqb c " "%char then (EmptyString, Some rest)
      else let (a, b) := break_at_space rest in (String c a, b)
  end.

Definition read_column_def (piece : string) : option (string * string) :=
  match break_at_space (lstrip piece) with
  | (name, Some ty) =>
      if String.eqb name EmptyString || String.eqb ty EmptyString
      then None else Some (name, ty)
  | (_, None) => None
  end.

Fixpoint map_option {A B} (f : A -> option B) (xs : list A)
  : option (list B) :=
  match xs with
  | [] => Some []
  | x :: rest =>
      match f x, map_option f rest with
      | Some y, Some ys => Some (y :: ys)
      | _, _ => None
      end
  end.

Definition read_column_defs (text : string) : option (list (string * string)) :=
  if String.eqb text EmptyString then Some []
  else map_option read_column_def (split_at_commas text).

(** *** Names as the server reads them

    The program hands names to the server in three ways.  A name passed as
    a parameter and compared with a catalog column, or written through
    [Identifier], reaches the server as it is.  The column names of
    CREATE TABLE are written without quotes, and the table name of the
    primary-key lookup is text cast to [regclass]: both are read as SQL
    identifiers. *)

Definition is_lower (c : ascii) : bool :=
  Nat.leb 97 (nat_of_ascii c) && Nat.leb (nat_of_ascii c) 122.

Definition is_upper (c : ascii) : bool :=
  Nat.leb 65 (nat_of_ascii c) && Nat.leb (nat_of_ascii c) 90.

Definition is_digit (c : ascii) : bool :=
  Nat.leb 48 (nat_of_ascii c) && Nat.leb (nat_of_ascii c) 57.

Definition is_underscore (c : ascii) : bool := Ascii.eqb c "_"%char.

Fixpoint all_chars (p : ascii -> bool) (s : string) : bool :=
  match s with
  | EmptyString => true
  | String c rest => p c && all_chars p rest
  end.

(** An unquoted identifier is folded to lower case. *)
Definition fold_char (c : ascii) : ascii :=
  if is_upper c then ascii_of_nat (nat_of_ascii c + 32) else c.

Fixpoint fold_case (s : string) : string :=
  match s with
  | EmptyString => EmptyString
  | String c rest => String (fold_char c) (fold_case rest)
  end.

(** The longest name a catalog holds, in bytes. *)
Definition max_name_length : nat := 63.

(** Text that can be written without quotes as an identifier: a letter or
    an underscore, then letters, digits and underscores, no longer than a
    name can be. *)
Definition unquoted_identifier (s : string) : bool :=
  match s with
  | EmptyString => false
  | String c rest =>
      (is_lower c || is_upper c || is_underscore c)
      && all_chars (fun x => is_lower x || is_upper x || is_digit x
                             || is_underscore x) rest
      && Nat.leb (String.length s) max_name_length
  end.

(** A name that [regclass] reads as itself and finds where the program's
    other statements find it: lower-case letters, digits and underscores
    after a first lower-case letter or underscore, not too long, and not
    in the system's own name space [pg_], which is searched before schema
    public.  Any other text is read as another name: folded to lower case,
    taken out of its quotes, split at a dot, or taken as a number. *)
Definition plain_name (s : string) : bool :=
  match s with
  | EmptyString => false
  | String c rest =>
      (is_lower c || is_underscore c)
      && all_chars (fun x => is_lower x || is_digit x || is_underscore x) rest
      && Nat.leb (String.length s) max_name_length
      && negb (String.prefix "pg_" s)
  end.

(** The key words that cannot be a column name without quotes. *)
Definition reserved_words : list string :=
  ["all"; "analyse"; "analyze"; "and"; "any"; "array"; "as"; "asc";
   "asymmetric"; "authorization"; "binary"; "both"; "case"; "cast";
   "check"; "collate"; "collation"; "column"; "concurrently";
   "constraint"; "create"; "cross"; "current_catalog"; "current_date";
   "current_role"; "current_schema"; "current_time"; "current_timestamp";
   "current_user"; "default"; "deferrable"; "desc"; "distinct"; "do";
   "else"; "end"; "except"; "false"; "fetch"; "for"; "foreign"; "freeze";
   "from"; "full"; "grant"; "group"; "having"; "ilike"; "in"; "initially";
   "inner"; "intersect"; "into"; "is"; "isnull"; "join"; "lateral";
   "leading"; "left"; "like"; "limit"; "localtime"; "localtimestamp";
   "natural"; "not"; "notnull"; "null"; "offset"; "on"; "only"; "or";
   "order"; "outer"; "overlaps"; "placing"; "primary"; "references";
   "returning"; "right"; "select"; "session_user"; "similar"; "some";
   "symmetric"; "system_user"; "table"; "tablesample"; "then"; "to";
   "trailing"; "true"; "union"; "unique"; "user"; "using"; "variadic";
   "verbose"; "when"; "where"; "window"; "with"].

(** The names of the columns every table has of itself. *)
Definition system_columns : list string :=
  ["tableoid"; "xmin"; "cmin"; "xmax"; "cmax"; "ctid"].

(** What [information_schema.columns.data_type] reports for a column whose
    type can be written as reported in a column definition.  For an array
    it reports ARRAY and for a type that is not built in USER-DEFINED,
    neither of which names a type. *)
Definition known_types : list string :=
  ["smallint"; "integer"; "bigint"; "boolean"; "text";
   "character varying"; "character"; "numeric"; "real";
   "double precision"; "date"; "time without time zone";
   "time with time zone"; "timestamp without time zone";
   "timestamp with time zone"; "interval"; "bytea"; "uuid"; "json";
   "jsonb"; "xml"; "inet"; "cidr"; "macaddr"; "money"; "bit";
   "bit varying"; "oid"; "name"].

(** The column a definition [name type] declares: the name is read as an
    unquoted identifier, so it is folded to lower case. *)
Definition declared_column (col : string * string)
  : option (string * string) :=
  if unquoted_identifier (fst col)
     && negb (memb (fold_case (fst col)) reserved_words)
     && negb (memb (fold_case (fst col)) system_columns)
     && memb (snd col) known_types
  then Some (fold_case (fst col), snd col)
  else None.

(** *** Running a request *)

Definition undefined_table (t : string) : exn :=
  ProgrammingError ("relation " ++ t ++ " does not exist").

Definition undefined_column : exn :=
  ProgrammingError "column does not exist".

Definition syntax_error : exn :=
  ProgrammingError "syntax error".

Definition duplicate_column : exn :=
  ProgrammingError "column specified more than once".

Definition zero_length_identifier : exn :=
  ProgrammingError "zero-length delimited identifier".

Definition not_null_violation : exn :=
  IntegrityError "null value in column violates not-null constraint".

Definition is_null (v : value) : bool :=
  match v with VNull => true | _ => false end.

(** The WHERE clause [k1 = v1 AND k2 = v2 ...] on a row of a table whose
    column names are [cols]; with no keys it is TRUE. *)
Definition matches (cols keys : list string) (vals : list value) (r : row)
  : bool :=
  forallb (fun kv => sql_eq (field cols r (fst kv)) (snd kv))
          (combine keys vals).

(** Two rows of a table agree on its primary key. *)
Definition same_key (cols keys : list string) (r1 r2 : row) : bool :=
  forallb (fun k => value_eqb (field cols r1 k) (field cols r2 k)) keys.

Definition conflicts (t : table) (new_row : row) : bool :=
  match t_pkey t with
  | [] => false
  | keys => existsb (same_key (column_names t) keys new_row) (t_rows t)
  end.

(** INSERT of one row given along [cols], ON CONFLICT DO NOTHING: columns
    that are not listed get NULL; a NULL in a primary-key column is an
    integrity violation; a row whose key is already there is dropped. *)
Definition insert_row (cols : list string) (t : table) (r : row)
  : outcome table :=
  let new_row := map (field cols r) (column_names t) in
  if existsb (fun k => is_null (field (column_names t) new_row k)) (t_pkey t)
  then Raise not_null_violation
  else if conflicts t new_row then Ok t
  else Ok (mkTable (t_columns t) (t_pkey t) (t_rows t ++ [new_row])).

Fixpoint insert_rows (cols : list string) (t : table) (rows : list row)
  : outcome table :=
  match rows with
  | [] => Ok t
  | r :: rest =>
      match insert_row cols t r with
      | Raise e => Raise e
      | Ok t' => insert_rows cols t' rest
      end
  end.

Definition public : string := "public".

(** What the server does with a request.  A failed statement leaves the
    database as it was.

    The catalog queries compare the name they are given with the catalog
    as text, in every schema.  Statements that name a table through
    [Identifier] reach table of that very name in schema public, the one
    schema of the search path that has tables of the program.  The
    primary-key lookup is answered for a name that [regclass] reads as
    itself; for any other text the cast looks for a relation of another
    name, and the model covers the case that it finds none.  CREATE TABLE
    declares the columns as the server reads them ([declared_column]),
    refuses a column list it cannot read and an empty table name, and
    creates the table without key or row.

    An error stands for its class: the texts are not the server's, and
    where a statement is wrong in more than one way the model does not
    say which of the errors the server reports. *)
Definition run (rq : request) (d : database) : outcome resultset * database :=
  match rq with
  | RTableExists n =>
      (Ok (mkResult [[VBool (table_exists d n)]] ["exists"]), d)
  | RColumns n =>
      (Ok (mkResult (map (fun c => [VStr (fst c); VStr (snd c)])
                         (catalog_columns d n))
                    ["column_name"; "data_type"]), d)
  | RPrimaryKeys n =>
      if plain_name n then
        match find_table d public n with
        | None => (Raise (undefined_table n), d)
        | Some t => (Ok (mkResult (map (fun k => [VStr k]) (t_pkey t))
                                  ["attname"]), d)
        end
      else (Raise (undefined_table n), d)
  | RPublicTables =>
      (Ok (mkResult (map (fun n => [VStr n]) (tables_in d public))
                    ["table_name"]), d)
  | RSelectAll n =>
      match find_table d public n with
      | None => (Raise (undefined_table n), d)
      | Some t => (Ok (mkResult (t_rows t) (column_names t)), d)
      end
  | RProbe n keys vals =>
      if Nat.ltb (List.length vals) (List.length keys)
      then (Raise (IndexError "list index out of range"), d)
      else if Nat.ltb (List.length keys) (List.length vals)
      then (Raise (TypeError "not all arguments converted during string formatting"), d)
      else
        match find_table d public n with
        | None => (Raise (undefined_table n), d)
        | Some t =>
            if forallb (fun k => memb k (column_names t)) keys
            then (Ok (mkResult
                        (map (fun _ => [VInt 1])
                             (filter (matches (column_names t) keys vals)
                                     (t_rows t)))
                        ["?column?"]), d)
            else (Raise undefined_column, d)
        end
  | RCreate n defs =>
      match read_column_defs defs with
      | None => (Raise syntax_error, d)
      | Some cols =>
          match find_table d public n with
          | Some _ =>
              (Raise (ProgrammingError ("relation " ++ n ++ " already exists")), d)
          | None =>
              if negb (nodupb (map fst cols))
              then (Raise duplicate_column, d)
              else if String.eqb n EmptyString
              then (Raise zero_length_identifier, d)
              else
                match map_option declared_column cols with
                | None => (Raise syntax_error, d)
                | Some declared =>
                    if nodupb (map fst declared)
                    then (Ok no_result,
                          set_table d public n (mkTable declared [] []))
                    else (Raise duplicate_column, d)
                end
          end
      end
  | RInsert n cols rows =>
      match find_table d public n with
      | None => (Raise (undefined_table n), d)
      | Some t =>
          if negb (nodupb cols)
          then (Raise (ProgrammingError "column specified more than once"), d)
          else if negb (forallb (fun c => memb c (column_names t)) cols)
          then (Raise undefined_column, d)
          else if negb (forallb (fun r => Nat.eqb (List.length r) (List.length cols)) rows)
          then (Raise (ProgrammingError "VALUES lists must all be the same length"), d)
          else match insert_rows cols t rows with
               | Raise e => (Raise e, d)
               | Ok t' => (Ok no_result, set_table d public n t')
               end
      end
  end.

(** *** Connections

    A connection works in a transaction: statements act on [conn_current],
    [commit] makes it the committed state, [rollback] goes back to the
    committed state.  [conn_trace] records every statement sent, with its
    arguments.  [conn_closed] records that the program called [close()] on
    the connection.  It is not the state of the session on the server: a
    connection that the program never closes is closed by the driver when
    the connection object is destroyed, which the model does not follow. *)

Record executed : Type := mkExecuted {
  ex_query : composable;
  ex_args : list row
}.

Record connection : Type := mkConn {
  conn_committed : database;
  conn_current : database;
  conn_closed : bool;
  conn_trace : list executed
}.

Definition with_current (c : connection) (d : database) (x : executed)
  : connection :=
  mkConn (conn_committed c) d (conn_closed c) (conn_trace c ++ [x]).

Definition submit (rq : option request) (x : executed) (c : connection)
  : outcome resultset * connection :=
  match rq with
  | None => (Raise syntax_error, with_current c (conn_current c) x)
  | Some r => let (res, d) := run r (conn_current c) in
              (res, with_current c d x)
  end.

(** [cursor.execute(q, args)] *)
Definition conn_execute (q : composable) (args : list value) (c : connection)
  : outcome resultset * connection :=
  submit (read_statement q args) (mkExecuted q [args]) c.

(** [execute_values(cursor, q, rows)]; nothing is sent for no rows.  The
    pages psycopg2 cuts the rows into run one after the other in the same
    transaction; they are taken here as one multi-row statement. *)
Definition conn_execute_values (q : composable) (rows : list row)
  (c : connection) : outcome resultset * connection :=
  match rows with
  | [] => (Ok no_result, c)
  | _ => submit (read_values_statement q rows) (mkExecuted q rows) c
  end.

Definition conn_commit (c : connection) : connection :=
  mkConn (conn_current c) (conn_current c) (conn_closed c) (conn_trace c).

Definition conn_rollback (c : connection) : connection :=
  mkConn (conn_committed c) (conn_committed c) (conn_closed c) (conn_trace c).

(** [connection.close()]: uncommitted work is discarded. *)
Definition conn_close (c : connection) : connection :=
  mkConn (conn_committed c) (conn_committed c) true (conn_trace c).

(** [cursor.fetchone()] and [cursor.fetchall()] right after an execute. *)
Definition fetchone (rs : resultset) : option row := hd_error (rs_rows rs).
Definition fetchall (rs : resultset) : list row := rs_rows rs.

End Pg.
Export Pg.

(* ------------------------------------------------------------------ *)
(** ** syncDB.py: PostgresDatabaseSync *)

Module Sync.

Open Scope py_scope.

Inductive level : Type := DEBUG | INFO | WARNING | ERROR.

Definition log_record : Type := level * string.

(** The fields of a [PostgresDatabaseSync] object; the logger is the list
    of records written so far. *)
Record state : Type := mkState {
  source_conn : connection;
  target_conn : connection;
  logger : list log_record
}.

Definition emit (lg : list log_record) (lv : level) (msg : string)
  : list log_record := (lg ++ [(lv, msg)])%list.

Definition log (lv : level) (msg : string) : M state unit :=
  fun s => (Ok tt, mkState (source_conn s) (target_conn s)
                           (emit (logger s) lv msg)).

Definition source_execute (q : composable) (args : list value)
  : M state resultset :=
  fun s => let (r, c) := conn_execute q args (source_conn s) in
           (r, mkState c (target_conn s) (logger s)).

Definition target_execute (q : composable) (args : list value)
  : M state resultset :=
  fun s => let (r, c) := conn_execute q args (target_conn s) in
           (r, mkState (source_conn s) c (logger s)).

Definition target_execute_values (q : composable) (rows : list row)
  : M state resultset :=
  fun s => let (r, c) := conn_execute_values q rows (target_conn s) in
           (r, mkState (source_conn s) c (logger s)).

Definition target_commit : M state unit :=
  fun s => (Ok tt, mkState (source_conn s) (conn_commit (target_conn s))
                           (logger s)).

Definition target_rollback : M state unit :=
  fun s => (Ok tt, mkState (source_conn s) (conn_rollback (target_conn s))
                           (logger s)).

(** [fetchone()[0]]: subscripting [None] is a [TypeError]. *)
Definition fetchone_0 (rs : resultset) : outcome value :=
  match fetchone rs with
  | None => Raise (TypeError "'NoneType' object is not subscriptable")
  | Some r => getitem r 0
  end.

(** A catalog name column read as [str]. *)
Definition as_str (v : value) : outcome string :=
  match v with
  | VStr s => Ok s
  | _ => Raise (TypeError "SQL identifier parts must be strings")
  end.

Definition first_as_str (r : row) : outcome string :=
  match getitem r 0 with
  | Raise e => Raise e
  | Ok v => as_str v
  end.

(** [f"{col[0]} {col[1]}"] *)
Definition column_definition (col : row) : outcome string :=
  match getitem col 0 with
  | Raise e => Raise e
  | Ok c0 => match getitem col 1 with
             | Raise e => Raise e
             | Ok c1 => Ok (str_of_value c0 ++ " " ++ str_of_value c1)
             end
  end.

(** Check if table exists in the target, and create it if missing based on
    source schema. *)
Definition check_and_create_table (table_name : string) : M state unit :=
  rs <- target_execute (fst (check_table_exists table_name))
                       (snd (check_table_exists table_name)) ;;
  found <- lift (fetchone_0 rs) ;;
  if negb (truthy found) then
    rs2 <- source_execute (fst (get_table_schema table_name))
                          (snd (get_table_schema table_name)) ;;
    let columns := fetchall rs2 in
    defs <- lift (map_outcome column_definition columns) ;;
    let columns_sql := String.concat ", " defs in
    let create_stmt := format "CREATE TABLE {} ({})"
                              [Identifier table_name; SQL columns_sql] in
    target_execute create_stmt [] ;;;
    target_commit ;;;
    log INFO ("Copied schema for " ++ table_name ++ " to target database.")
  else
    log INFO (table_name ++ " already exists in target database.").

(** Get primary keys for a table. *)
Definition get_primary_keys (table_name : string) : M state (list string) :=
  rs <- source_execute (fst (fetch_primary_keys table_name))
                       (snd (fetch_primary_keys table_name)) ;;
  lift (map_outcome first_as_str (fetchall rs)).

(** [{pk: row[source_columns.index(pk)] for pk in primary_keys}] *)
Fixpoint pk_values_of (source_columns : list string) (r : row)
  (primary_keys : list string) (d : dict) : outcome dict :=
  match primary_keys with
  | [] => Ok d
  | pk :: rest =>
      match list_index source_columns pk with
      | Raise e => Raise e
      | Ok i => match getitem r i with
                | Raise e => Raise e
                | Ok v => pk_values_of source_columns r rest (dict_set d pk v)
                end
      end
  end.

(** [if not cursor.fetchone()]: no row, or an empty tuple. *)
Definition no_row (o : option row) : bool :=
  match o with
  | None => true
  | Some [] => true
  | Some (_ :: _) => false
  end.

(** One turn of the loop over the source rows: the rows found missing so
    far come in, and go out with [r] appended when the probe finds nothing. *)
Definition probe_row (table_name : string) (primary_keys : list string)
  (source_columns : list string) (where_clause : composable)
  (missing_rows : list row) (r : row) : M state (list row) :=
  pk_values <- lift (pk_values_of source_columns r primary_keys []) ;;
  rs <- target_execute
          (format "SELECT 1 FROM {} WHERE {}"
                  [Identifier table_name; where_clause])
          (dict_values pk_values) ;;
  if no_row (fetchone rs) then ret (missing_rows ++ [r])%list
  else ret missing_rows.

Fixpoint probe_rows (table_name : string) (primary_keys : list string)
  (source_columns : list string) (where_clause : composable)
  (source_rows : list row) (missing_rows : list row) : M state (list row) :=
  match source_rows with
  | [] => ret missing_rows
  | r :: rest =>
      missing_rows' <- probe_row table_name primary_keys source_columns
                                 where_clause missing_rows r ;;
      probe_rows table_name primary_keys source_columns where_clause
                 rest missing_rows'
  end.

(** Retrieve rows present in the source but not in the target database. *)
Definition get_missing_rows (table_name : string)
  : M state (list row * list string) :=
  primary_keys <- get_primary_keys table_name ;;
  match primary_keys with
  | [] =>
      log ERROR ("No primary keys found for table " ++ table_name ++ ".") ;;;
      ret ([], [])
  | _ =>
      qp <- lift (select_all_rows table_name) ;;
      rs <- source_execute (fst qp) (snd qp) ;;
      let source_rows := fetchall rs in
      let source_columns := rs_description rs in
      let where_clause := construct_where_clause primary_keys in
      missing_rows <- probe_rows table_name primary_keys source_columns
                                 where_clause source_rows [] ;;
      ret (missing_rows, source_columns)
  end.

(** The body of the [try] in [sync_table]. *)
Definition sync_table_body (table_name : string) : M state unit :=
  check_and_create_table table_name ;;;
  diff <- get_missing_rows table_name ;;
  let missing_rows := fst diff in
  let source_columns := snd diff in
  match missing_rows with
  | [] => log INFO ("No missing rows to sync for " ++ table_name)
  | _ =>
      let insert_stmt := insert_missing_rows table_name source_columns in
      target_execute_values insert_stmt missing_rows ;;;
      target_commit ;;;
      log INFO ("Synced table " ++ table_name ++ " successfully with "
                ++ str_of_nat (List.length missing_rows) ++ " rows.")
  end.

(** Insert missing rows from source to target for a specific table. *)
Definition sync_table (table_name : string) : M state unit :=
  try_except (sync_table_body table_name)
    (fun e =>
       if is_integrity_error e then
         target_rollback ;;;
         log WARNING ("Integrity error syncing " ++ table_name
                      ++ ": Duplicate rows detected.")
       else
         target_rollback ;;;
         log ERROR ("Unexpected error syncing " ++ table_name ++ ": "
                    ++ exn_message e) ;;;
         raise e).

(** Sync all tables in source database with target database. *)
Definition sync_all_tables : M state unit :=
  try_except
    (rs <- source_execute (SQL list_tables_text) [] ;;
     tables <- lift (map_outcome first_as_str (fetchall rs)) ;;
     for_each tables sync_table ;;;
     log INFO "All tables synced successfully.")
    (fun e =>
       log ERROR ("Failed to sync all tables: " ++ exn_message e) ;;;
       raise e).

(** Close all database connections gracefully. *)
Definition close_connections : M state unit :=
  fun s => (Ok tt, mkState (conn_close (source_conn s))
                           (conn_close (target_conn s)) (logger s)).

(** *** Connecting, and the entry point of [src/__init__.py]

    What a [DatabaseConfig] points at: the database name of its
    connection parameters, whether the server answers, and its data.  The
    two configurations are taken as loaded; reading the environment files
    and the loader's own log lines are outside the model. *)
Record server : Type := mkServer {
  db_name_var : string;
  srv_up : bool;
  srv_data : database
}.

(** The run as seen from outside: the log, and the connections that were
    opened, with what the program did to them up to the moment [main] is
    left.  What becomes of the connection objects after that is not part
    of it. *)
Record process : Type := mkProcess {
  p_log : list log_record;
  p_target : option connection;
  p_source : option connection
}.

(** [PostgresDatabaseSync.connect] *)
Definition connect (config : server) (lg : list log_record)
  : outcome connection * list log_record :=
  if srv_up config then
    (Ok (mkConn (srv_data config) (srv_data config) false []),
     emit lg DEBUG ("Connected to database " ++ db_name_var config))
  else
    (Raise (OperationalError "could not connect to server"),
     emit lg ERROR "Failed to connect: could not connect to server").

Definition main (prod_db_config dev_db_config : server)
  : outcome unit * process :=
  let lg0 := [(INFO, "Syncing databases");
              (DEBUG, "PostgresDatabaseSync Connecting to target db: "
                      ++ db_name_var dev_db_config)] in
  match connect dev_db_config lg0 with
  | (Raise e, lg1) => (Raise e, mkProcess lg1 None None)
  | (Ok tconn, lg1) =>
      let lg2 := emit lg1 DEBUG ("PostgresDatabaseSync Connecting to source db: "
                                 ++ db_name_var prod_db_config) in
      match connect prod_db_config lg2 with
      | (Raise e, lg3) => (Raise e, mkProcess lg3 (Some tconn) None)
      | (Ok sconn, lg3) =>
          let db_sync := mkState sconn tconn
                           (emit lg3 DEBUG "PostgresDatabaseSync connected successfully.") in
          let (r, s) := sync_all_tables db_sync in
          (r, mkProcess (logger s) (Some (target_conn s))
                        (Some (source_conn s)))
      end
  end.

End Sync.
Export Sync.

(* ------------------------------------------------------------------ *)
(** ** Vocabulary of the properties *)

Definition source_db (s : state) : database := conn_current (source_conn s).
Definition target_db (s : state) : database := conn_current (target_conn s).

(** A statement that only reads: the connection gains a trace entry. *)
Definition sent (c : connection) (x : executed) : connection :=
  with_current c (conn_current c) x.

Definition exists_stmt (t : string) : executed :=
  mkExecuted (fst (check_table_exists t)) [snd (check_table_exists t)].

Definition schema_stmt (t : string) : executed :=
  mkExecuted (fst (get_table_schema t)) [snd (get_table_schema t)].

Definition pkey_stmt (t : string) : executed :=
  mkExecuted (fst (fetch_primary_keys t)) [snd (fetch_primary_keys t)].

Definition select_stmt (t : string) : executed :=
  mkExecuted (Composed [SQL "SELECT * FROM "; Identifier t]) [[]].

(** [col1 type1, col2 type2, ...] *)
Definition columns_sql (columns : list (string * string)) : string :=
  String.concat ", " (map (fun col => fst col ++ " " ++ snd col) columns).

Definition create_query (t : string) (columns : list (string * string))
  : composable :=
  Composed [SQL "CREATE TABLE "; Identifier t; SQL " (";
            SQL (columns_sql columns); SQL ")"].

Definition probe_query (t : string) (keys : list string) : composable :=
  Composed [SQL "SELECT 1 FROM "; Identifier t; SQL " WHERE ";
            construct_where_clause keys].

(** Some row of table [t] satisfies the probe's WHERE clause. *)
Definition probe_hit (d : database) (t : string) (keys : list string)
  (vals : list value) : bool :=
  match find_table d public t with
  | Some tb => existsb (matches (column_names tb) keys vals) (t_rows tb)
  | None => false
  end.

(** The key of a row: its values at the key columns. *)
Definition key_of (cols : list string) (keys : list string) (r : row)
  : list value :=
  map (field cols r) keys.

(** No write is pending on the target connection. *)
Definition clean (s : state) : Prop :=
  conn_current (target_conn s) = conn_committed (target_conn s).

(** *** States, messages and relations used in the statements *)

Definition same_name (s n s' n' : string) : bool :=
  String.eqb s s' && String.eqb n n'.

Fixpoint has_char (c : ascii) (s : string) : bool :=
  match s with
  | EmptyString => false
  | String d rest => Ascii.eqb d c || has_char c rest
  end.

(** A column whose name is non-empty and has no space or comma, and whose
    type is non-empty and has no comma. *)
Definition plain_column (col : string * string) : bool :=
  negb (String.eqb (fst col) EmptyString)
  && negb (has_char " "%char (fst col))
  && negb (has_char ","%char (fst col))
  && negb (String.eqb (snd col) EmptyString)
  && negb (has_char ","%char (snd col)).

(** Connections that hold the same data and are in the same state; their
    traces may differ. *)
Definition same_data (c c' : connection) : Prop :=
  conn_current c' = conn_current c
  /\ conn_committed c' = conn_committed c
  /\ conn_closed c' = conn_closed c.

(** The state after a probe for the key [vals] was sent. *)
Definition probed (t : string) (keys : list string) (vals : list value)
  (s : state) : state :=
  mkState (source_conn s)
          (sent (target_conn s) (mkExecuted (probe_query t keys) [vals]))
          (logger s).

(** What a row needs for its probe to go through. *)
Definition probe_ready (d : database) (t : string) (keys cols : list string)
  (r : row) : Prop :=
  exists dct tb,
    pk_values_of cols r keys [] = Ok dct
    /\ dict_values dct = key_of cols keys r
    /\ find_table d public t = Some tb
    /\ forallb (fun k => memb k (column_names tb)) keys = true.

(** The state after the source was asked for the primary key of [t]. *)
Definition asked_pkey (t : string) (s : state) : state :=
  mkState (sent (source_conn s) (pkey_stmt t)) (target_conn s) (logger s).

(** The state after the source table was then scanned. *)
Definition scanned (t : string) (s : state) : state :=
  mkState (sent (sent (source_conn s) (pkey_stmt t)) (select_stmt t))
          (target_conn s) (logger s).

Definition insert_stmt (t : string) (cols : list string) (rows : list row)
  : executed :=
  mkExecuted (insert_missing_rows t cols) rows.

(** The row as laid out along the columns of the target table. *)
Definition laid_out (cols : list string) (tb : table) (r : row) : row :=
  map (field cols r) (column_names tb).

(** The body of the [try] after the table was ensured: the diff, then the
    bulk insert and the commit. *)
Definition sync_rows (t : string) : M state unit :=
  bind (get_missing_rows t)
       (fun diff =>
          match fst diff with
          | [] => log INFO ("No missing rows to sync for " ++ t)
          | _ =>
              bind (target_execute_values
                      (insert_missing_rows t (snd diff)) (fst diff))
                   (fun _ =>
                      bind target_commit
                           (fun _ =>
                              log INFO ("Synced table " ++ t
                                        ++ " successfully with "
                                        ++ str_of_nat (List.length (fst diff))
                                        ++ " rows.")))
          end).

Definition synced_message (t : string) (m : list row) : string :=
  "Synced table " ++ t ++ " successfully with "
  ++ str_of_nat (List.length m) ++ " rows.".

Definition integrity_message (t : string) : string :=
  "Integrity error syncing " ++ t ++ ": Duplicate rows detected.".

Definition unexpected_message (t : string) (e : exn) : string :=
  "Unexpected error syncing " ++ t ++ ": " ++ exn_message e.

(** The state a handler of [sync_table] leaves: rolled back, one more log
    record. *)
Definition handled (lv : level) (msg : string) (s : state) : state :=
  mkState (source_conn s) (conn_rollback (target_conn s))
          (emit (logger s) lv msg).

(** The target's data after the schema step: as before, or with table [t]
    newly created, empty. *)
Definition ensured (d d1 : database) (t : string) : Prop :=
  d1 = d
  \/ table_exists d t = false
     /\ exists cols, d1 = set_table d public t (mkTable cols [] []).

(** The target's data after the whole body: the data after the schema
    step, or that data with the missing rows inserted into [t]. *)
Definition inserted (t : string) (s : state) (d1 d' : database) : Prop :=
  exists m cols s1 s2 tb tb',
    check_and_create_table t s = (Ok tt, s1)
    /\ target_db s1 = d1
    /\ get_missing_rows t s1 = (Ok (m, cols), s2)
    /\ m <> []
    /\ find_table d1 public t = Some tb
    /\ forallb (fun c => memb c (column_names tb)) cols = true
    /\ insert_rows cols tb m = Ok tb'
    /\ d' = set_table d1 public t tb'.



(** The state after the source was asked for its public tables. *)
Definition listed (s : state) : state :=
  mkState (sent (source_conn s) (mkExecuted (SQL list_tables_text) [[]]))
          (target_conn s) (logger s).

(** How [sync_all_tables] ends, given how its loop ended. *)
Definition concluded (x : outcome unit * state) : outcome unit * state :=
  match x with
  | (Ok _, s) =>
      (Ok tt, mkState (source_conn s) (target_conn s)
                      (emit (logger s) INFO "All tables synced successfully."))
  | (Raise e, s) =>
      (Raise e, mkState (source_conn s) (target_conn s)
                        (emit (logger s) ERROR
                              ("Failed to sync all tables: " ++ exn_message e)))
  end.

(** The program has called [close()] on both connections that [main]
    opened. *)
Definition closed_by_the_program (p : process) : Prop :=
  (forall c, p_target p = Some c -> conn_closed c = true)
  /\ (forall c, p_source p = Some c -> conn_closed c = true).







(** *** Example databases *)

Definition archived_users : table :=
  mkTable [("id", "integer")] ["id"] [[VInt 7]].

Definition users : table :=
  mkTable [("id", "integer"); ("name", "text")] ["id"]
          [[VInt 1; VStr "a"]; [VInt 2; VStr "b"]].

Definition open_on (d : database) : connection := mkConn d d false [].

Definition state_with_archived_users : state :=
  mkState (open_on [(("public", "users"), users)])
          (open_on [(("archive", "users"), archived_users)]) [].




(** A source row whose [tag] is NULL, and a target table keyed on [tag]. *)
Definition items_source : table :=
  mkTable [("id", "integer"); ("tag", "text")] ["id"] [[VInt 1; VNull]].

Definition items_target : table :=
  mkTable [("id", "integer"); ("tag", "text")] ["tag"] [].

Definition state_with_items : state :=
  mkState (open_on [(("public", "items"), items_source)])
          (open_on [(("public", "items"), items_target)]) [].

(** The source has a table [users] in schema [archive] only. *)
Definition state_with_archived_source : state :=
  mkState (open_on [(("archive", "users"), archived_users)]) (open_on []) [].

Definition prod_server : server :=
  mkServer "prod" true [(("public", "users"), users)].

Definition dev_server : server := mkServer "dev" true [].

Definition state_with_old_user : state :=
  mkState (open_on [(("public", "users"), users)])
          (open_on [(("public", "users"),
                     mkTable [("id", "integer"); ("name", "text")] ["id"]
                             [[VInt 1; VStr "old"]])])
          [].

(** Two source rows that differ on the source's key [a] and agree on [b],
    the column the target table is keyed on. *)
Definition pairs_source : table :=
  mkTable [("a", "integer"); ("b", "integer")] ["a"]
          [[VInt 1; VInt 5]; [VInt 2; VInt 5]].

Definition pairs_target : table :=
  mkTable [("a", "integer"); ("b", "integer")] ["b"] [].

Definition state_with_pairs : state :=
  mkState (open_on [(("public", "pairs"), pairs_source)])
          (open_on [(("public", "pairs"), pairs_target)]) [].

(** A table with a primary key, one of whose columns is an array. *)
Definition tags : table :=
  mkTable [("id", "integer"); ("labels", "ARRAY")] ["id"]
          [[VInt 1; VStr "{a,b}"]].

Definition state_with_tags : state :=
  mkState (open_on [(("public", "tags"), tags)]) (open_on []) [].





Definition state_with_new_users : state :=
  mkState (open_on [(("public", "users"), users)]) (open_on []) [].

(** *** Relations between the data before and after a run *)

(** [d'] has every table of [d], with the same columns and key and with
    every row of it, in order, possibly followed by more rows. *)
Definition grows (d d' : database) : Prop :=
  forall schema n tb,
    find_table d schema n = Some tb ->
    exists tb' added,
      find_table d' schema n = Some tb'
      /\ t_columns tb' = t_columns tb
      /\ t_pkey tb' = t_pkey tb
      /\ t_rows tb' = (t_rows tb ++ added)%list.

(** [d] and [d'] hold the same thing under every name except table [t] of
    schema public. *)
Definition same_elsewhere (t : string) (d d' : database) : Prop :=
  forall schema n, (schema, n) <> (public, t) ->
    find_table d' schema n = find_table d schema n.

(** A table as PostgreSQL keeps it and as [check_and_create_table] can
    copy it: distinct, plain column names, rows as long as the column
    list, and a key of distinct columns of the table. *)
Definition well_formed (tb : table) : bool :=
  nodupb (column_names tb)
  && forallb plain_column (t_columns tb)
  && forallb (fun r => Nat.eqb (List.length r) (List.length (column_names tb)))
             (t_rows tb)
  && nodupb (t_pkey tb)
  && forallb (fun k => memb k (column_names tb)) (t_pkey tb).

(** The column types whose values the driver hands over as the values of
    the model (integers, booleans, strings), which a column of the same
    type takes back as they are. *)
Definition value_types : list string :=
  ["smallint"; "integer"; "bigint"; "boolean"; "text"; "character varying"].

(** A column that CREATE TABLE declares as the source has it, and that
    takes the source's values: the server reads its name as it is written
    (a lower-case identifier that is no key word) and its type is one of
    [value_types]. *)
Definition copied_column (col : string * string) : bool :=
  match declared_column col with
  | Some c => String.eqb (fst c) (fst col)
  | None => false
  end
  && memb (snd col) value_types.

Definition empty_state : state := mkState (open_on []) (open_on []) [].


(* ------------------------------------------------------------------ *)
(** ** config.py: DatabaseConfig

    Text is a sequence of code points below 256, one per character. *)

Module Config.

(** [str.isspace] on one character: tab, line feed, vertical tab, form
    feed, carriage return, the four separators 28 to 31, space, next line
    (133) and no-break space (160). *)
Definition isspace (c : ascii) : bool :=
  let n := nat_of_ascii c in
  (Nat.leb 9 n && Nat.leb n 13) || (Nat.leb 28 n && Nat.leb n 32)
  || Nat.eqb n 133 || Nat.eqb n 160.

Fixpoint str_lstrip (s : string) : string :=
  match s with
  | EmptyString => EmptyString
  | String c rest => if isspace c then str_lstrip rest else s
  end.

Fixpoint str_rstrip (s : string) : string :=
  match s with
  | EmptyString => EmptyString
  | String c rest =>
      match str_rstrip rest with
      | EmptyString => if isspace c then EmptyString else String c EmptyString
      | kept => String c kept
      end
  end.

(** [line.strip()] *)
Definition str_strip (s : string) : string := str_rstrip (str_lstrip s).

(** [line.startswith("#")] *)
Definition startswith_hash (s : string) : bool :=
  match s with
  | String c _ => Ascii.eqb c "#"%char
  | EmptyString => false
  end.

(** ['=' in line] *)
Fixpoint contains_eq (s : string) : bool :=
  match s with
  | EmptyString => false
  | String c rest => Ascii.eqb c "="%char || contains_eq rest
  end.

(** [line.split("=", 1)] on a line that has an equals sign: the text
    before the first one and the text after it. *)
Fixpoint split_eq (s : string) : string * string :=
  match s with
  | EmptyString => (EmptyString, EmptyString)
  | String c rest =>
      if Ascii.eqb c "="%char then (EmptyString, rest)
      else let (k, v) := split_eq rest in (String c k, v)
  end.

(** The local dict [connection_params] of the loader. *)
Definition env := list (string * string).

Fixpoint env_set (d : env) (k v : string) : env :=
  match d with
  | [] => [(k, v)]
  | (k', v') :: rest =>
      if String.eqb k' k then (k', v) :: rest
      else (k', v') :: env_set rest k v
  end.

(** [d.get(k, default)] *)
Fixpoint env_get (d : env) (k default : string) : string :=
  match d with
  | [] => default
  | (k', v) :: rest => if String.eqb k' k then v else env_get rest k default
  end.

Definition DEFAULT_USER : string := "default_user".
Definition DEFAULT_PASSWORD : string := "default_password".
Definition DEFAULT_HOST : string := "localhost".
Definition DEFAULT_PORT : string := "5432".
Definition DEFAULT_DB_NAME : string := "default_db".
Definition DB_SSL_MODE : string := "prefer".

(** The dict the loader returns, one field per key. *)
Record connection_params : Type := mkParams {
  db_user_var : string;
  db_password_var : string;
  db_host_var : string;
  db_port_var : string;
  db_SSL_mode : string;
  db_name_var : string
}.

(** What opening and reading the environment file gives: the file is not
    there, opening it fails otherwise, or it yields lines and then ends or
    fails. *)
Record reading : Type := mkReading {
  rd_lines : list string;
  rd_error : option string
}.

Inductive opened : Type :=
| NotFound
| OpenFailed (msg : string)
| Opened (r : reading).

(** The exceptions that leave the loader: the [FileNotFoundError] it
    builds, or whatever else was raised while opening or reading, raised
    again as it is. *)
Inductive config_exn : Type :=
| FileNotFoundError (msg : string)
| ReadError (msg : string).

(** One turn of the loop over the lines of the file. *)
Definition read_line (line : string) (acc : env * list log_record)
  : env * list log_record :=
  let line := str_strip line in
  if negb (String.eqb line EmptyString) && negb (startswith_hash line) then
    if negb (contains_eq line) then
      (fst acc, emit (snd acc) WARNING ("Skipping malformed line: " ++ line))
    else
      let (key, value) := split_eq line in
      (env_set (fst acc) key value, snd acc)
  else acc.

Fixpoint read_lines (lines : list string) (acc : env * list log_record)
  : env * list log_record :=
  match lines with
  | [] => acc
  | line :: rest => read_lines rest (read_line line acc)
  end.

(** Load database connection parameters directly from the environment
    file.  Skips lines that are comments or do not contain [=]. *)
Definition _load_connection_params (env_file : string) (f : opened)
  (lg : list log_record)
  : (connection_params + config_exn) * list log_record :=
  match f with
  | NotFound =>
      (inr (FileNotFoundError ("Environment file " ++ env_file ++ " not found.")),
       emit lg ERROR ("Environment file " ++ env_file ++ " not found."))
  | OpenFailed msg =>
      (inr (ReadError msg),
       emit lg ERROR ("Unexpected error reading " ++ env_file ++ ": " ++ msg))
  | Opened r =>
      let (params, lg1) := read_lines (rd_lines r) ([], lg) in
      match rd_error r with
      | Some msg =>
          (inr (ReadError msg),
           emit lg1 ERROR
                ("Unexpected error reading " ++ env_file ++ ": " ++ msg))
      | None =>
          (inl (mkParams
                  (env_get params "DB_USER" DEFAULT_USER)
                  (env_get params "DB_PASSWORD" DEFAULT_PASSWORD)
                  (env_get params "DB_HOST" DEFAULT_HOST)
                  (env_get params "DB_PORT" DEFAULT_PORT)
                  (env_get params "DB_SSL_MODE" DB_SSL_MODE)
                  (env_get params "DB_NAME" DEFAULT_DB_NAME)),
           emit lg1 DEBUG ("Environment variables loaded from " ++ env_file))
      end
  end.

(** The object built by [DatabaseConfig(env_file, logger)]. *)
Record database_config : Type := mkConfig {
  env_file : string;
  connection_params_of : connection_params
}.

(** [DatabaseConfig.__init__] *)
Definition DatabaseConfig (path : string) (f : opened) (lg : list log_record)
  : (database_config + config_exn) * list log_record :=
  match _load_connection_params path f lg with
  | (inr e, lg1) => (inr e, lg1)
  | (inl params, lg1) =>
      (inl (mkConfig path params),
       emit lg1 DEBUG ("DatabaseConfig initialized with " ++ path))
  end.

(** The assignment a line of the file makes, if it makes one. *)
Definition entry_of (line : string) : option (string * string) :=
  let l := str_strip line in
  if String.eqb l EmptyString || startswith_hash l || negb (contains_eq l)
  then None else Some (split_eq l).

(** The line assigns to key [k]. *)
Definition assigns (k : string) (line : string) : bool :=
  match entry_of line with
  | Some (k', _) => String.eqb k' k
  | None => false
  end.

(** The line is neither blank nor a comment and has no equals sign. *)
Definition malformed (line : string) : bool :=
  let l := str_strip line in
  negb (String.eqb l EmptyString) && negb (startswith_hash l)
  && negb (contains_eq l).

(** The keys of the environment file, with the field each one fills and
    the default it falls back to. *)
Definition settings : list (string * (connection_params -> string) * string) :=
  [("DB_USER", db_user_var, DEFAULT_USER);
   ("DB_PASSWORD", db_password_var, DEFAULT_PASSWORD);
   ("DB_HOST", db_host_var, DEFAULT_HOST);
   ("DB_PORT", db_port_var, DEFAULT_PORT);
   ("DB_SSL_MODE", db_SSL_mode, DB_SSL_MODE);
   ("DB_NAME", db_name_var, DEFAULT_DB_NAME)].

End Config.

(** *** Lines of an environment file *)

(** Every character of the text is white space. *)
Fixpoint all_space (s : string) : bool :=
  match s with
  | EmptyString => true
  | String c rest => Config.isspace c && all_space rest
  end.

(** The text does not end in white space. *)
Fixpoint no_trailing_space (s : string) : bool :=
  match s with
  | EmptyString => true
  | String c EmptyString => negb (Config.isspace c)
  | String _ rest => no_trailing_space rest
  end.

(** A key as the loader can read it back: no equals sign in it, and no
    white space or hash sign at its start. *)
Definition readable_key (k : string) : bool :=
  negb (Config.contains_eq k)
  && match k with
     | EmptyString => true
     | String c _ => negb (Config.isspace c) && negb (Ascii.eqb c "#"%char)
     end.

(** The warnings the loader logs for the lines of a file. *)
Definition warnings_for (lines : list string) : list log_record :=
  map (fun l => (WARNING, "Skipping malformed line: " ++ Config.str_strip l))
      (filter Config.malformed lines).

Definition makes_entry (line : string) : bool :=
  match Config.entry_of line with Some _ => true | None => false end.

(** The record that tells how reading the file ended. *)
Definition ending_record (path : string) (err : option string) : log_record :=
  match err with
  | None => (DEBUG, "Environment variables loaded from " ++ path)
  | Some msg => (ERROR, "Unexpected error reading " ++ path ++ ": " ++ msg)
  end.

(* ------------------------------------------------------------------ *)
(** ** src/__init__.py with the configuration files

    The run as the script does it: the two [DatabaseConfig] objects are
    loaded from their files, then the sync object is built and run.  [fs]
    is what opening a path gives, [net] the database that answers for a
    set of connection parameters, if one does. *)

Module Entry.

Definition prod_env_path : string := ".environments/.env.production".
Definition dev_env_path : string := ".environments/.env.development".

(** How the script is left. *)
Inductive exit : Type :=
| Returned
| ConfigRaised (e : Config.config_exn)
| Raised (e : exn).

Definition exit_of (r : outcome unit) : exit :=
  match r with
  | Ok _ => Returned
  | Raise e => Raised e
  end.

(** The server that [psycopg2.connect] reaches with the parameters of a
    configuration. *)
Definition server_at (net : Config.connection_params -> option database)
  (config : Config.database_config) : server :=
  let p := Config.connection_params_of config in
  mkServer (Config.db_name_var p)
           (match net p with Some _ => true | None => false end)
           (match net p with Some d => d | None => [] end).

Definition main (fs : string -> Config.opened)
  (net : Config.connection_params -> option database) : exit * process :=
  let lg0 := emit [] INFO "Syncing databases" in
  match Config.DatabaseConfig prod_env_path (fs prod_env_path) lg0 with
  | (inr e, lg1) => (ConfigRaised e, mkProcess lg1 None None)
  | (inl prod_db_config, lg1) =>
      match Config.DatabaseConfig dev_env_path (fs dev_env_path) lg1 with
      | (inr e, lg2) => (ConfigRaised e, mkProcess lg2 None None)
      | (inl dev_db_config, lg2) =>
          let lg3 := emit lg2 DEBUG
                          ("PostgresDatabaseSync Connecting to target db: "
                           ++ db_name_var (server_at net dev_db_config)) in
          match connect (server_at net dev_db_config) lg3 with
          | (Raise e, lg4) => (Raised e, mkProcess lg4 None None)
          | (Ok tconn, lg4) =>
              let lg5 := emit lg4 DEBUG
                              ("PostgresDatabaseSync Connecting to source db: "
                               ++ db_name_var (server_at net prod_db_config)) in
              match connect (server_at net prod_db_config) lg5 with
              | (Raise e, lg6) =>
                  (Raised e, mkProcess lg6 (Some tconn) None)
              | (Ok sconn, lg6) =>
                  let db_sync :=
                    mkState sconn tconn
                            (emit lg6 DEBUG
                                  "PostgresDatabaseSync connected successfully.") in
                  let (r, s) := sync_all_tables db_sync in
                  (exit_of r,
                   mkProcess (logger s) (Some (target_conn s))
                             (Some (source_conn s)))
              end
          end
      end
  end.

End Entry.

(** *** The log as a bystander *)

(** The state with [l] logged before everything it has logged. *)
Definition relog (l : list log_record) (s : state) : state :=
  mkState (source_conn s) (target_conn s) (l ++ logger s).

(** A computation that does the same whatever was logged before, and only
    adds to the log. *)
Definition log_blind {A : Type} (m : M state A) : Prop :=
  forall l s, m (relog l s) = (fst (m s), relog l (snd (m s))).

(** A file system with no file, one with both environment files, each with
    a database name, and a network on which only [dev_db] answers. *)
Definition no_files (path : string) : Config.opened := Config.NotFound.

Definition both_files (path : string) : Config.opened :=
  if String.eqb path Entry.prod_env_path
  then Config.Opened (Config.mkReading ["DB_NAME=prod_db"] None)
  else Config.Opened (Config.mkReading ["# dev"; "DB_NAME=dev_db"] None).

Definition only_dev_answers (p : Config.connection_params)
  : option database :=
  if String.eqb (Config.db_name_var p) "dev_db" then Some [] else None.

Definition both_answer (p : Config.connection_params) : option database :=
  if String.eqb (Config.db_name_var p) "dev_db" then Some []
  else Some [(("public", "users"), users)].

(** Table [n] of schema public can be copied as it is: no other schema of
    the database has a table of that name, the primary-key lookup reads
    the name as it is written, and the table is well formed, has columns
    that are copied as they are, and has a primary key. *)
Definition copyable (d : database) (n : string) : Prop :=
  exists tb,
    find_table d public n = Some tb
    /\ tables_named d n = [tb]
    /\ well_formed tb = true
    /\ forallb copied_column (t_columns tb) = true
    /\ t_pkey tb <> []
    /\ plain_name n = true.

(** The target has a table [users] that lost the key column [id]. *)
Definition state_with_drifted_users : state :=
  mkState (open_on [(("public", "users"), users)])
          (open_on [(("public", "users"),
                     mkTable [("name", "text")] [] [[VStr "a"]])])
          [].

(** The number of rows of table [t] of schema public; none if there is no
    such table. *)
Definition row_count (d : database) (t : string) : nat :=
  match find_table d public t with
  | Some tb => List.length (t_rows tb)
  | None => 0
  end.

(* ------------------------------------------------------------------ *)
(** ** The model at work *)

Example where_clause_of_two_keys :
  as_string (construct_where_clause ["a"; "b"])
  = quote_ident "a" ++ "= %s AND " ++ quote_ident "b" ++ "= %s".
Proof. reflexivity. Qed.

Example create_statement_of_users :
  as_string (create_query "users" (t_columns users))
  = "CREATE TABLE " ++ quote_ident "users" ++ " (id integer, name text)".
Proof. reflexivity. Qed.

(** The source has [users] with two rows and the target has no such table:
    after one run the target has the table with exactly these rows, both
    connections have seen the statements below, and the log tells it. *)
Example first_sync_of_users :
  fst (sync_all_tables state_with_new_users) = Ok tt
  /\ conn_committed (target_conn (snd (sync_all_tables state_with_new_users)))
     = [(("public", "users"),
         mkTable [("id", "integer"); ("name", "text")] []
                 [[VInt 1; VStr "a"]; [VInt 2; VStr "b"]])]
  /\ map (fun x => as_string (ex_query x))
         (conn_trace (target_conn (snd (sync_all_tables state_with_new_users))))
     = [as_string (fst (check_table_exists "users"));
        as_string (create_query "users" (t_columns users));
        as_string (probe_query "users" ["id"]);
        as_string (probe_query "users" ["id"]);
        as_string (insert_missing_rows "users" ["id"; "name"])]
  /\ logger (snd (sync_all_tables state_with_new_users))
     = [(INFO, "Copied schema for users to target database.");
        (INFO, "Synced table users successfully with 2 rows.");
        (INFO, "All tables synced successfully.")].
Proof. vm_compute. auto. Qed.

(* ------------------------------------------------------------------ *)
(** ** How the server reads the program's statements *)

Lemma read_check_table_exists (t : string) :
  read_statement (fst (check_table_exists t)) (snd (check_table_exists t))
  = Some (RTableExists t).
Proof. reflexivity. Qed.

Lemma read_get_table_schema (t : string) :
  read_statement (fst (get_table_schema t)) (snd (get_table_schema t))
  = Some (RColumns t).
Proof. reflexivity. Qed.

Lemma read_fetch_primary_keys (t : string) :
  read_statement (fst (fetch_primary_keys t)) (snd (fetch_primary_keys t))
  = Some (RPrimaryKeys t).
Proof. reflexivity. Qed.

Lemma read_list_tables :
  read_statement (SQL list_tables_text) [] = Some RPublicTables.
Proof. reflexivity. Qed.

Lemma format_select_all (t : string) :
  format "SELECT * FROM {}" [Identifier t]
  = Composed [SQL "SELECT * FROM "; Identifier t].
Proof. reflexivity. Qed.

Lemma format_create (t : string) (defs : string) :
  format "CREATE TABLE {} ({})" [Identifier t; SQL defs]
  = Composed [SQL "CREATE TABLE "; Identifier t; SQL " ("; SQL defs; SQL ")"].
Proof. reflexivity. Qed.

Lemma format_probe (t : string) (w : composable) :
  format "SELECT 1 FROM {} WHERE {}" [Identifier t; w]
  = Composed [SQL "SELECT 1 FROM "; Identifier t; SQL " WHERE "; w].
Proof. reflexivity. Qed.

Lemma format_insert (t : string) (cols : composable) :
  format "INSERT INTO {} ({}) VALUES %s ON CONFLICT DO NOTHING"
         [Identifier t; cols]
  = Composed [SQL "INSERT INTO "; Identifier t; SQL " ("; cols;
              SQL ") VALUES %s ON CONFLICT DO NOTHING"].
Proof. reflexivity. Qed.

Lemma read_conjuncts_equalities (keys : list string) :
  read_conjuncts
    (flat_map (fun i => [SQL " AND "; i])
              (map (fun k => Composed [Identifier k; SQL "= %s"]) keys))
  = Some keys.
Proof.
  induction keys as [|k keys IH]; [reflexivity|].
  cbn [map flat_map app read_conjuncts].
  change (String.eqb " AND " " AND ") with true. cbv iota.
  rewrite IH. reflexivity.
Qed.

Lemma read_where_clause (keys : list string) :
  read_where (construct_where_clause keys) = Some keys.
Proof.
  destruct keys as [|k keys]; [reflexivity|].
  unfold construct_where_clause, join, intersperse.
  cbn [map read_where].
  rewrite read_conjuncts_equalities. reflexivity.
Qed.

Lemma read_probe (t : string) (keys : list string) (vals : list value) :
  read_statement (probe_query t keys) vals = Some (RProbe t keys vals).
Proof.
  unfold probe_query. cbn [read_statement].
  change (String.eqb "SELECT 1 FROM " "SELECT 1 FROM ") with true.
  change (String.eqb " WHERE " " WHERE ") with true.
  cbn [andb]. rewrite read_where_clause.
  destruct (construct_where_clause keys); reflexivity.
Qed.

Lemma read_create (t : string) (defs : string) :
  read_statement
    (Composed [SQL "CREATE TABLE "; Identifier t; SQL " ("; SQL defs; SQL ")"])
    []
  = Some (RCreate t defs).
Proof. reflexivity. Qed.

Lemma read_select_all (t : string) :
  read_statement (Composed [SQL "SELECT * FROM "; Identifier t]) []
  = Some (RSelectAll t).
Proof. reflexivity. Qed.

Lemma read_identifiers_columns (cols : list string) :
  read_identifiers (flat_map (fun i => [SQL ", "; i]) (map Identifier cols))
  = Some cols.
Proof.
  induction cols as [|c cols IH]; [reflexivity|].
  cbn [map flat_map app read_identifiers].
  change (String.eqb ", " ", ") with true. cbv iota.
  rewrite IH. reflexivity.
Qed.

Lemma read_insert (t : string) (cols : list string) (rows : list row) :
  read_values_statement (insert_missing_rows t cols) rows
  = match cols with
    | [] => None
    | _ => Some (RInsert t cols rows)
    end.
Proof.
  unfold insert_missing_rows. rewrite format_insert.
  destruct cols as [|c cols]; [reflexivity|].
  unfold join, intersperse. cbn [map read_values_statement].
  change (String.eqb "INSERT INTO " "INSERT INTO ") with true.
  change (String.eqb " (" " (") with true.
  change (String.eqb ") VALUES %s ON CONFLICT DO NOTHING"
                     ") VALUES %s ON CONFLICT DO NOTHING") with true.
  cbn [andb read_column_list]. rewrite read_identifiers_columns. reflexivity.
Qed.

(* ------------------------------------------------------------------ *)
(** ** Single statements on a connection *)

Lemma execute_check_table_exists (t : string) (c : connection) :
  conn_execute (fst (check_table_exists t)) (snd (check_table_exists t)) c
  = (Ok (mkResult [[VBool (table_exists (conn_current c) t)]] ["exists"]),
     sent c (exists_stmt t)).
Proof.
  unfold conn_execute. rewrite read_check_table_exists. reflexivity.
Qed.

Lemma execute_get_table_schema (t : string) (c : connection) :
  conn_execute (fst (get_table_schema t)) (snd (get_table_schema t)) c
  = (Ok (mkResult (map (fun col => [VStr (fst col); VStr (snd col)])
                       (catalog_columns (conn_current c) t))
                  ["column_name"; "data_type"]),
     sent c (schema_stmt t)).
Proof.
  unfold conn_execute. rewrite read_get_table_schema. reflexivity.
Qed.

Lemma execute_fetch_primary_keys (t : string) (c : connection) :
  conn_execute (fst (fetch_primary_keys t)) (snd (fetch_primary_keys t)) c
  = (if plain_name t then
       match find_table (conn_current c) public t with
       | None => Raise (undefined_table t)
       | Some tb => Ok (mkResult (map (fun k => [VStr k]) (t_pkey tb))
                                 ["attname"])
       end
     else Raise (undefined_table t),
     sent c (pkey_stmt t)).
Proof.
  unfold conn_execute. rewrite read_fetch_primary_keys.
  unfold submit, run. destruct (plain_name t); [|reflexivity].
  destruct (find_table (conn_current c) public t); reflexivity.
Qed.

Lemma execute_select_all (t : string) (c : connection) :
  conn_execute (Composed [SQL "SELECT * FROM "; Identifier t]) [] c
  = (match find_table (conn_current c) public t with
     | None => Raise (undefined_table t)
     | Some tb => Ok (mkResult (t_rows tb) (column_names tb))
     end,
     sent c (select_stmt t)).
Proof.
  unfold conn_execute. rewrite read_select_all.
  unfold submit, run. destruct (find_table (conn_current c) public t);
    reflexivity.
Qed.

Lemma execute_list_tables (c : connection) :
  conn_execute (SQL list_tables_text) [] c
  = (Ok (mkResult (map (fun n => [VStr n]) (tables_in (conn_current c) public))
                  ["table_name"]),
     sent c (mkExecuted (SQL list_tables_text) [[]])).
Proof.
  unfold conn_execute. rewrite read_list_tables. reflexivity.
Qed.

Lemma execute_create (t : string) (cols : list (string * string))
  (c : connection) :
  conn_execute (create_query t cols) [] c
  = (fst (run (RCreate t (columns_sql cols)) (conn_current c)),
     with_current c (snd (run (RCreate t (columns_sql cols)) (conn_current c)))
                  (mkExecuted (create_query t cols) [[]])).
Proof.
  unfold conn_execute, create_query. rewrite read_create. unfold submit.
  destruct (run (RCreate t (columns_sql cols)) (conn_current c)); reflexivity.
Qed.

Lemma execute_probe (t : string) (keys : list string) (vals : list value)
  (c : connection) :
  conn_execute (probe_query t keys) vals c
  = (fst (run (RProbe t keys vals) (conn_current c)),
     sent c (mkExecuted (probe_query t keys) [vals])).
Proof.
  unfold conn_execute. rewrite read_probe. unfold submit.
  destruct (run (RProbe t keys vals) (conn_current c)) as [r d] eqn:E.
  assert (d = conn_current c) as ->; [|reflexivity].
  unfold run in E.
  repeat match type of E with
         | (if ?b then _ else _) = _ => destruct b
         | match ?o with _ => _ end = _ => destruct o
         end; inversion E; reflexivity.
Qed.

(* ------------------------------------------------------------------ *)
(** ** check_and_create_table *)

Lemma column_definitions_of_catalog (cols : list (string * string)) :
  map_outcome column_definition
              (map (fun col => [VStr (fst col); VStr (snd col)]) cols)
  = Ok (map (fun col => fst col ++ " " ++ snd col) cols).
Proof.
  induction cols as [|c cols IH]; [reflexivity|].
  cbn [map map_outcome]. rewrite IH. reflexivity.
Qed.

(** The table is there: one catalog query, then a log line. *)
Lemma check_and_create_table_present (t : string) (s : state) :
  table_exists (target_db s) t = true ->
  check_and_create_table t s
  = (Ok tt, mkState (source_conn s) (sent (target_conn s) (exists_stmt t))
                    (emit (logger s) INFO
                          (t ++ " already exists in target database."))).
Proof.
  intros Hex. unfold check_and_create_table, bind, target_execute.
  rewrite execute_check_table_exists.
  unfold target_db in Hex. rewrite Hex. reflexivity.
Qed.

(** The table is not there: the source catalog is read, CREATE TABLE is
    sent, and committed when it succeeded. *)
Lemma check_and_create_table_absent (t : string) (s : state) :
  table_exists (target_db s) t = false ->
  check_and_create_table t s
  = let cols := catalog_columns (source_db s) t in
    let sc := sent (source_conn s) (schema_stmt t) in
    let tc := sent (target_conn s) (exists_stmt t) in
    let x := mkExecuted (create_query t cols) [[]] in
    match run (RCreate t (columns_sql cols)) (target_db s) with
    | (Ok _, d) =>
        (Ok tt, mkState sc (conn_commit (with_current tc d x))
                        (emit (logger s) INFO
                              ("Copied schema for " ++ t
                               ++ " to target database.")))
    | (Raise e, d) => (Raise e, mkState sc (with_current tc d x) (logger s))
    end.
Proof.
  intros Hex. unfold check_and_create_table, bind, target_execute.
  rewrite execute_check_table_exists.
  unfold target_db in Hex. rewrite Hex.
  cbn [lift fetchone_0 fetchone rs_rows hd_error getitem nth_error truthy negb
       target_conn source_conn logger].
  unfold source_execute. cbn [source_conn target_conn logger].
  rewrite execute_get_table_schema.
  cbn [fetchall rs_rows lift]. rewrite column_definitions_of_catalog.
  rewrite format_create.
  change (Composed [SQL "CREATE TABLE "; Identifier t; SQL " (";
                    SQL (String.concat ", "
                           (map (fun col => fst col ++ " " ++ snd col)
                                (catalog_columns (conn_current (source_conn s)) t)));
                    SQL ")"])
    with (create_query t (catalog_columns (conn_current (source_conn s)) t)).
  rewrite execute_create.
  unfold source_db, target_db.
  cbn [sent with_current conn_current target_conn source_conn logger].
  destruct (run (RCreate t (columns_sql (catalog_columns (conn_current (source_conn s)) t)))
                (conn_current (target_conn s))) as [[rs|e] d]; reflexivity.
Qed.

(* ------------------------------------------------------------------ *)
(** ** Catalog lookups *)

Lemma same_name_true (s n s' n' : string) :
  same_name s n s' n' = true <-> s = s' /\ n = n'.
Proof.
  unfold same_name. rewrite andb_true_iff, !String.eqb_eq. reflexivity.
Qed.

Lemma find_table_set_table (d : database) (s n : string) (t : table)
  (s' n' : string) :
  find_table (set_table d s n t) s' n'
  = if same_name s n s' n' then Some t else find_table d s' n'.
Proof.
  unfold same_name.
  induction d as [|[[s0 n0] t0] d IH]; cbn [set_table find_table].
  - reflexivity.
  - destruct (String.eqb s0 s && String.eqb n0 n) eqn:E0;
      cbn [find_table].
    + apply andb_true_iff in E0 as [E1 E2].
      apply String.eqb_eq in E1, E2. subst s0 n0.
      destruct (String.eqb s s' && String.eqb n n'); reflexivity.
    + destruct (String.eqb s0 s' && String.eqb n0 n') eqn:E1.
      * apply andb_true_iff in E1 as [E1 E2].
        apply String.eqb_eq in E1, E2. subst s0 n0.
        rewrite (String.eqb_sym s s'), (String.eqb_sym n n'), E0.
        reflexivity.
      * exact IH.
Qed.

Lemma find_table_set_table_same (d : database) (s n : string) (t : table) :
  find_table (set_table d s n t) s n = Some t.
Proof.
  rewrite find_table_set_table. unfold same_name.
  rewrite !String.eqb_refl. reflexivity.
Qed.

Lemma find_table_set_table_other (d : database) (s n : string) (t : table)
  (s' n' : string) :
  (s', n') <> (s, n) ->
  find_table (set_table d s n t) s' n' = find_table d s' n'.
Proof.
  intros Hne. rewrite find_table_set_table.
  destruct (same_name s n s' n') eqn:E; [|reflexivity].
  apply same_name_true in E as [-> ->]. congruence.
Qed.

Lemma table_exists_of_find (d : database) (s n : string) (t : table) :
  find_table d s n = Some t -> table_exists d n = true.
Proof.
  unfold table_exists.
  induction d as [|[[s0 n0] t0] d IH]; cbn [find_table existsb fst snd].
  - discriminate.
  - destruct (String.eqb s0 s && String.eqb n0 n) eqn:E.
    + apply andb_true_iff in E as [_ E]. rewrite E. reflexivity.
    + intros H. rewrite (IH H). apply orb_true_r.
Qed.

Lemma find_of_table_absent (d : database) (s n : string) :
  table_exists d n = false -> find_table d s n = None.
Proof.
  intros H. destruct (find_table d s n) eqn:E; [|reflexivity].
  apply table_exists_of_find in E. congruence.
Qed.

(** *** What CREATE TABLE does *)

Lemma run_create_ok (t defs : string) (d d' : database) (rs : resultset) :
  run (RCreate t defs) d = (Ok rs, d') ->
  exists written cols,
    read_column_defs defs = Some written
    /\ map_option declared_column written = Some cols
    /\ String.eqb t EmptyString = false
    /\ find_table d public t = None
    /\ d' = set_table d public t (mkTable cols [] []).
Proof.
  unfold run.
  destruct (read_column_defs defs) as [written|]; [|discriminate].
  destruct (find_table d public t); [discriminate|].
  destruct (nodupb (map fst written)); [|discriminate]. cbn [negb].
  destruct (String.eqb t EmptyString); [discriminate|].
  destruct (map_option declared_column written) as [cols|] eqn:Hd;
    [|discriminate].
  destruct (nodupb (map fst cols)); [|discriminate].
  intros H. inversion H. exists written, cols. auto 10.
Qed.

Lemma run_create_raise (t defs : string) (d d' : database) (e : exn) :
  run (RCreate t defs) d = (Raise e, d') ->
  d' = d /\ is_integrity_error e = false.
Proof.
  unfold run. destruct (read_column_defs defs) as [written|].
  - destruct (find_table d public t).
    + intros H. inversion H. auto.
    + destruct (nodupb (map fst written)); cbn [negb];
        [|intros H; inversion H; auto].
      destruct (String.eqb t EmptyString); [intros H; inversion H; auto|].
      destruct (map_option declared_column written) as [cols|];
        [|intros H; inversion H; auto].
      destruct (nodupb (map fst cols)); intros H; inversion H. auto.
  - intros H. inversion H. auto.
Qed.

Lemma run_create_total (t defs : string) (d : database)
  (written cols : list (string * string)) :
  read_column_defs defs = Some written ->
  find_table d public t = None ->
  nodupb (map fst written) = true ->
  String.eqb t EmptyString = false ->
  map_option declared_column written = Some cols ->
  nodupb (map fst cols) = true ->
  run (RCreate t defs) d
  = (Ok no_result, set_table d public t (mkTable cols [] [])).
Proof.
  intros Hr Hf Hn Ht Hd Hn'. unfold run.
  rewrite Hr, Hf, Hn, Ht, Hd, Hn'. reflexivity.
Qed.

(** The columns the server declares are the written ones with their names
    folded; the types are taken as written. *)
Lemma declared_columns_written :
  forall (written cols : list (string * string)),
    map_option declared_column written = Some cols ->
    map fst cols = map fold_case (map fst written)
    /\ map snd cols = map snd written.
Proof.
  induction written as [|w written IH]; intros cols H; cbn [map_option] in H.
  - inversion H. auto.
  - destruct (declared_column w) as [c|] eqn:Hc; [|discriminate].
    destruct (map_option declared_column written) as [cs|]; [|discriminate].
    inversion H; subst. destruct (IH cs eq_refl) as [Hn Ht].
    unfold declared_column in Hc.
    destruct (_ && _); inversion Hc; subst. cbn [map fst snd].
    rewrite Hn, Ht. auto.
Qed.

(* ------------------------------------------------------------------ *)
(** ** Column lists that the server reads back as they were written *)

Lemma has_char_app (c : ascii) (a b : string) :
  has_char c (a ++ b) = has_char c a || has_char c b.
Proof.
  induction a as [|d a IH]; [reflexivity|].
  cbn [append has_char]. rewrite IH. apply orb_assoc.
Qed.

Lemma split_at_commas_plain (s : string) :
  has_char ","%char s = false -> split_at_commas s = [s].
Proof.
  induction s as [|c s IH]; [reflexivity|].
  cbn [has_char split_at_commas]. intros H.
  apply orb_false_iff in H as [Hc Hs]. rewrite Hc, (IH Hs). reflexivity.
Qed.

Lemma split_at_commas_app (a b : string) :
  has_char ","%char a = false ->
  split_at_commas (a ++ String ","%char b) = a :: split_at_commas b.
Proof.
  induction a as [|c a IH]; intros H.
  - reflexivity.
  - cbn [has_char] in H. apply orb_false_iff in H as [Hc Ha].
    cbn [append split_at_commas]. rewrite Hc, (IH Ha). reflexivity.
Qed.

Lemma append_assoc (a b c : string) : (a ++ b) ++ c = a ++ b ++ c.
Proof. induction a as [|x a IH]; cbn; [|rewrite IH]; reflexivity. Qed.

Lemma split_at_commas_concat :
  forall (ds : list string) (d p : string),
    has_char ","%char p = false ->
    Forall (fun x => has_char ","%char x = false) (d :: ds) ->
    split_at_commas (p ++ String.concat ", " (d :: ds))
    = (p ++ d) :: map (fun x => " " ++ x) ds.
Proof.
  induction ds as [|d2 ds IH]; intros d p Hp Hall;
    inversion Hall as [|? ? Hd Hrest]; subst.
  - cbn [String.concat map]. apply split_at_commas_plain.
    rewrite has_char_app, Hp, Hd. reflexivity.
  - change (String.concat ", " (d :: d2 :: ds))
      with (d ++ String ","%char (" " ++ String.concat ", " (d2 :: ds))).
    rewrite <- append_assoc, split_at_commas_app
      by (rewrite has_char_app, Hp, Hd; reflexivity).
    rewrite (IH d2 " " eq_refl Hrest). reflexivity.
Qed.

Lemma break_at_space_name (name ty : string) :
  has_char " "%char name = false ->
  break_at_space (name ++ String " "%char ty) = (name, Some ty).
Proof.
  induction name as [|c name IH]; intros H; [reflexivity|].
  cbn [has_char] in H. apply orb_false_iff in H as [Hc Hn].
  cbn [append break_at_space]. rewrite Hc, (IH Hn). reflexivity.
Qed.

Lemma lstrip_name (name rest : string) :
  name <> EmptyString ->
  has_char " "%char name = false ->
  lstrip (name ++ rest) = name ++ rest.
Proof.
  destruct name as [|c name]; [congruence|]. intros _ H.
  cbn [has_char] in H. apply orb_false_iff in H as [Hc _].
  cbn [append lstrip]. rewrite Hc. reflexivity.
Qed.

Lemma read_column_def_plain (col : string * string) (lead : bool) :
  plain_column col = true ->
  read_column_def ((if lead then " " else EmptyString)
                   ++ fst col ++ " " ++ snd col)
  = Some col.
Proof.
  destruct col as [name ty]. unfold plain_column. cbn [fst snd].
  rewrite !andb_true_iff, !negb_true_iff.
  intros ((((Hn & Hsp) & _) & Ht) & _).
  assert (Hname : name <> EmptyString) by (apply String.eqb_neq; exact Hn).
  unfold read_column_def.
  assert (Hl : lstrip ((if lead then " " else EmptyString)
                       ++ name ++ " " ++ ty) = name ++ " " ++ ty).
  { destruct lead; cbn [append lstrip Ascii.eqb Bool.eqb];
      apply lstrip_name; assumption. }
  rewrite Hl. change (name ++ " " ++ ty) with (name ++ String " "%char ty).
  rewrite (break_at_space_name name ty Hsp), Hn, Ht. reflexivity.
Qed.

Lemma plain_column_no_comma (col : string * string) :
  plain_column col = true ->
  has_char ","%char (fst col ++ " " ++ snd col) = false.
Proof.
  unfold plain_column. rewrite !andb_true_iff, !negb_true_iff.
  intros ((((_ & _) & Hc1) & _) & Hc2).
  rewrite has_char_app, Hc1. cbn. exact Hc2.
Qed.

(** The column list written by [check_and_create_table] is read back by
    the server as the list of the source catalog. *)
Lemma read_column_defs_columns_sql (cols : list (string * string)) :
  forallb plain_column cols = true ->
  read_column_defs (columns_sql cols) = Some cols.
Proof.
  destruct cols as [|c cols]; [reflexivity|].
  cbn [forallb]. intros H. apply andb_true_iff in H as [Hc Hrest].
  unfold read_column_defs, columns_sql.
  assert (Hne : String.eqb
                  (String.concat ", "
                     (map (fun col => fst col ++ " " ++ snd col) (c :: cols)))
                  EmptyString = false).
  { unfold plain_column in Hc. rewrite !andb_true_iff, !negb_true_iff in Hc.
    destruct Hc as ((((Hn & _) & _) & _) & _).
    destruct c as [name ty]. cbn [map fst snd] in *.
    destruct name as [|x name]; [discriminate|].
    destruct cols; reflexivity. }
  rewrite Hne. cbn [map].
  pose proof (split_at_commas_concat
                (map (fun col => fst col ++ " " ++ snd col) cols)
                (fst c ++ " " ++ snd c) EmptyString eq_refl) as Hs.
  change (EmptyString ++ ?x) with x in Hs. rewrite Hs.
  2:{ constructor; [apply plain_column_no_comma; exact Hc|].
      rewrite Forall_map, Forall_forall. intros col Hin.
      apply plain_column_no_comma. rewrite forallb_forall in Hrest. auto. }
  cbn [map_option].
  rewrite (read_column_def_plain c false Hc
           : read_column_def (fst c ++ " " ++ snd c) = Some c).
  assert (Htail : map_option read_column_def
                    (map (fun x => " " ++ x)
                         (map (fun col => fst col ++ " " ++ snd col) cols))
                  = Some cols).
  { clear - Hrest. induction cols as [|c cols IH]; [reflexivity|].
    cbn [forallb] in Hrest. apply andb_true_iff in Hrest as [Hc Hrest].
    cbn [map map_option].
    rewrite (read_column_def_plain c true Hc
             : read_column_def (" " ++ fst c ++ " " ++ snd c) = Some c),
      (IH Hrest).
    reflexivity. }
  rewrite Htail. reflexivity.
Qed.

(* ------------------------------------------------------------------ *)
(** ** Properties of check_and_create_table *)



(** C6, as stated, fails: the existence check reports [tags] absent, and
    [check_and_create_table] sends CREATE TABLE with the catalog's pairs
    as they are; the catalog reports the type of an array column as ARRAY,
    the server refuses the statement, and the table is not created: the
    call raises and the target has no table [tags] afterwards, working or
    committed. *)
Lemma absent_table_is_not_created_when_refused :
  table_exists (target_db state_with_tags) "tags" = false
  /\ (exists msg, fst (check_and_create_table "tags" state_with_tags)
                  = Raise (ProgrammingError msg))
  /\ as_string (create_query "tags"
                   (catalog_columns (source_db state_with_tags) "tags"))
     = "CREATE TABLE " ++ quote_ident "tags" ++ " (id integer, labels ARRAY)"
  /\ table_exists
       (target_db (snd (check_and_create_table "tags" state_with_tags)))
       "tags" = false
  /\ table_exists
       (conn_committed
          (target_conn (snd (check_and_create_table "tags" state_with_tags))))
       "tags" = false.
Proof.
  split; [reflexivity|].
  split; [eexists; vm_compute; reflexivity|].
  split; [reflexivity|]. split; vm_compute; reflexivity.
Qed.

(** C6, amended: [check_and_create_table] sends CREATE TABLE to the target
    exactly when the existence check answers false, and the statement it
    sends is
    [CREATE TABLE t (col1 type1, col2 type2, ...)] over the (name, type)
    pairs of the source catalog, as they are.  When the check answers true
    the function returns with the check as the only statement on the
    target, and the target's data, working and committed, is untouched.
    When the check answers false and the server carries the statement out,
    the function returns normally, table [t] of schema public is in the
    target with the declared columns, no key and no row, and this is
    committed; when the server refuses the statement the function raises
    the server's error and the target, working and committed, is as it
    was.  For a table name that is not empty and distinct columns that the
    server declares as they are written, the server does carry it out, and
    the committed table has the source's pairs themselves.  A table found
    in the target afterwards either was there before, unchanged, or is
    table [t] of schema public, absent before, whose columns the server
    declared from that list: the types as the source reports them, the
    names folded to lower case. *)
Theorem check_and_create_table_follows_source_catalog :
  forall (t : string) (s : state),
    let cols := catalog_columns (source_db s) t in
    let r := fst (check_and_create_table t s) in
    let s' := snd (check_and_create_table t s) in
    (table_exists (target_db s) t = true ->
       r = Ok tt
       /\ conn_trace (target_conn s')
          = (conn_trace (target_conn s) ++ [exists_stmt t])%list
       /\ target_db s' = target_db s
       /\ conn_committed (target_conn s') = conn_committed (target_conn s))
    /\ (table_exists (target_db s) t = false ->
       conn_trace (target_conn s')
       = (conn_trace (target_conn s)
          ++ [exists_stmt t; mkExecuted (create_query t cols) [[]]])%list
       /\ as_string (create_query t cols)
          = "CREATE TABLE " ++ quote_ident t ++ " (" ++ columns_sql cols ++ ")")
    /\ (table_exists (target_db s) t = false ->
       forall rs d,
         run (RCreate t (columns_sql cols)) (target_db s) = (Ok rs, d) ->
         r = Ok tt
         /\ exists declared,
              find_table (target_db s') public t
              = Some (mkTable declared [] [])
              /\ target_db s'
                 = set_table (target_db s) public t (mkTable declared [] [])
              /\ conn_committed (target_conn s') = target_db s'
              /\ table_exists (conn_committed (target_conn s')) t = true)
    /\ (table_exists (target_db s) t = false ->
       forall e d,
         run (RCreate t (columns_sql cols)) (target_db s) = (Raise e, d) ->
         r = Raise e
         /\ target_db s' = target_db s
         /\ conn_committed (target_conn s') = conn_committed (target_conn s))
    /\ (table_exists (target_db s) t = false ->
       t <> EmptyString ->
       forallb plain_column cols = true ->
       nodupb (map fst cols) = true ->
       map_option declared_column cols = Some cols ->
       r = Ok tt
       /\ find_table (conn_committed (target_conn s')) public t
          = Some (mkTable cols [] [])
       /\ target_db s' = conn_committed (target_conn s'))
    /\ (forall (schema n : string) (tb : table),
          find_table (target_db s') schema n = Some tb ->
          find_table (target_db s) schema n = Some tb
          \/ (table_exists (target_db s) t = false
              /\ schema = public /\ n = t
              /\ (exists written,
                    read_column_defs (columns_sql cols) = Some written
                    /\ map_option declared_column written
                       = Some (t_columns tb))
              /\ t_pkey tb = [] /\ t_rows tb = []
              /\ (forallb plain_column cols = true ->
                  map snd (t_columns tb) = map snd cols
                  /\ map fst (t_columns tb) = map fold_case (map fst cols)))).
Proof.
  intros t s cols r s'. subst r s'.
  destruct (table_exists (target_db s) t) eqn:Hex.
  - rewrite (check_and_create_table_present _ _ Hex). cbn [fst snd].
    split; [auto|]. repeat (split; [discriminate|]).
    intros schema n tb H. left. exact H.
  - rewrite (check_and_create_table_absent _ _ Hex). cbv zeta. fold cols.
    destruct (run (RCreate t (columns_sql cols)) (target_db s))
      as [[rs|e] d] eqn:Hrun; cbn [fst snd].
    + pose proof Hrun as Hok.
      apply run_create_ok in Hok
        as (written & declared & Hread & Hdecl & Hname & Hnone & ->).
      split; [discriminate|]. split.
      { intros _. split; [|reflexivity].
        unfold target_db; cbn. rewrite <- app_assoc. reflexivity. }
      split.
      { intros _ rs0 d0 H0. inversion H0; subst. split; [reflexivity|].
        exists declared. unfold target_db; cbn.
        split; [apply find_table_set_table_same|].
        split; [reflexivity|]. split; [reflexivity|].
        eapply table_exists_of_find. apply find_table_set_table_same. }
      split; [intros _ e0 d0 H0; discriminate H0|].
      split.
      { intros _ Hne Hplain Hnd Hdw.
        rewrite (read_column_defs_columns_sql _ Hplain) in Hread.
        inversion Hread; subst written. rewrite Hdw in Hdecl.
        inversion Hdecl; subst declared.
        unfold target_db; cbn. split; [reflexivity|].
        split; [apply find_table_set_table_same|reflexivity]. }
      intros schema n tb. unfold target_db at 1. cbn.
      rewrite find_table_set_table.
      destruct (same_name public t schema n) eqn:E; [|auto].
      apply same_name_true in E as [<- <-].
      intros H. inversion H. right. cbn [t_columns t_pkey t_rows].
      split; [reflexivity|]. split; [reflexivity|]. split; [reflexivity|].
      split; [exists written; auto|]. split; [reflexivity|].
      split; [reflexivity|].
      intros Hplain.
      rewrite (read_column_defs_columns_sql _ Hplain) in Hread.
      inversion Hread; subst written.
      destruct (declared_columns_written _ _ Hdecl) as [Hn Ht]. auto.
    + pose proof Hrun as Hrun'.
      apply run_create_raise in Hrun as [-> _].
      split; [discriminate|]. split.
      { intros _. split; [|reflexivity].
        unfold target_db; cbn. rewrite <- app_assoc. reflexivity. }
      split; [intros _ rs0 d0 H0; discriminate H0|].
      split.
      { intros _ e0 d0 H0. inversion H0; subst.
        unfold target_db; cbn. auto. }
      split.
      { intros _ Hne Hplain Hnd Hdw. exfalso.
        apply String.eqb_neq in Hne.
        rewrite (run_create_total t _ (target_db s) cols cols
                   (read_column_defs_columns_sql _ Hplain)
                   (find_of_table_absent _ public t Hex) Hnd Hne Hdw Hnd)
          in Hrun'.
        discriminate Hrun'. }
      intros schema n tb H. left. exact H.
Qed.

(* ------------------------------------------------------------------ *)
(** ** The probe loop of get_missing_rows *)

Lemma same_data_refl (c : connection) : same_data c c.
Proof. unfold same_data. auto. Qed.

Lemma same_data_trans (c1 c2 c3 : connection) :
  same_data c1 c2 -> same_data c2 c3 -> same_data c1 c3.
Proof.
  unfold same_data. intros (A1 & A2 & A3) (B1 & B2 & B3).
  repeat split; congruence.
Qed.

Lemma same_data_sent (c : connection) (x : executed) : same_data c (sent c x).
Proof. unfold same_data. auto. Qed.

#[local] Hint Resolve same_data_refl same_data_sent : core.

Lemma dict_set_grows (d : dict) (k : string) (v : value) :
  List.length (dict_set d k v) = List.length d
  \/ dict_set d k v = (d ++ [(k, v)])%list.
Proof.
  induction d as [|[k' v'] d IH]; cbn [dict_set].
  - right. reflexivity.
  - destruct (String.eqb k' k).
    + left. reflexivity.
    + destruct IH as [IH|IH].
      * left. cbn. rewrite IH. reflexivity.
      * right. rewrite IH. reflexivity.
Qed.

Lemma field_of_getitem (cols : list string) (r : row) (k : string) (i : nat)
  (v : value) :
  index_opt k cols = Some i -> getitem r i = Ok v -> field cols r k = v.
Proof.
  unfold field, getitem. intros -> H.
  destruct (nth_error r i) as [v'|] eqn:E; inversion H; subst.
  apply nth_error_nth. exact E.
Qed.

(** The dict comprehension has one entry per distinct key; when it has as
    many entries as there are keys, its values are the key of the row. *)
Lemma pk_values_of_entries (cols : list string) (r : row) :
  forall (keys : list string) (d0 d : dict),
    pk_values_of cols r keys d0 = Ok d ->
    List.length d <= List.length d0 + List.length keys
    /\ (List.length d = List.length d0 + List.length keys ->
        d = (d0 ++ map (fun k => (k, field cols r k)) keys)%list).
Proof.
  induction keys as [|k keys IH]; intros d0 d H; cbn [pk_values_of] in H.
  - inversion H; subst. cbn. rewrite app_nil_r. split; [lia|auto].
  - unfold list_index in H.
    destruct (index_opt k cols) as [i|] eqn:Ei; [|discriminate].
    destruct (getitem r i) as [v|] eqn:Ev; [|discriminate].
    pose proof (field_of_getitem cols r k i v Ei Ev) as Hv.
    apply IH in H as [Hle Heq]. cbn [List.length map].
    destruct (dict_set_grows d0 k v) as [Hg|Hg].
    + rewrite Hg in Hle, Heq. split; [lia|]. intros Hl. lia.
    + rewrite Hg in Hle, Heq. rewrite length_app in Hle, Heq.
      cbn [List.length] in Hle, Heq. split; [lia|]. intros Hl.
      rewrite Heq by lia. rewrite <- app_assoc. cbn. rewrite Hv. reflexivity.
Qed.

Lemma pk_values_of_key (cols : list string) (r : row) (keys : list string)
  (d : dict) :
  pk_values_of cols r keys [] = Ok d ->
  List.length (dict_values d) = List.length keys ->
  dict_values d = key_of cols keys r.
Proof.
  intros H Hl. unfold dict_values in *. rewrite length_map in Hl.
  apply pk_values_of_entries in H as [_ H]. rewrite (H Hl).
  cbn [app]. unfold key_of. rewrite map_map. reflexivity.
Qed.

Lemma no_row_of_probe (f : row -> bool) (rows : list row) :
  no_row (hd_error (map (fun _ => [VInt 1]) (filter f rows)))
  = negb (existsb f rows).
Proof.
  induction rows as [|r rows IH]; [reflexivity|].
  cbn [filter existsb]. destruct (f r); [reflexivity|exact IH].
Qed.

Lemma run_probe_ok (t : string) (keys : list string) (vals : list value)
  (d d' : database) (rs : resultset) :
  run (RProbe t keys vals) d = (Ok rs, d') ->
  List.length vals = List.length keys
  /\ (exists tb, find_table d public t = Some tb
                 /\ forallb (fun k => memb k (column_names tb)) keys = true)
  /\ no_row (fetchone rs) = negb (probe_hit d t keys vals).
Proof.
  unfold run, probe_hit.
  destruct (Nat.ltb (List.length vals) (List.length keys)) eqn:E1;
    [discriminate|].
  destruct (Nat.ltb (List.length keys) (List.length vals)) eqn:E2;
    [discriminate|].
  destruct (find_table d public t) as [tb|]; [|discriminate].
  destruct (forallb (fun k => memb k (column_names tb)) keys) eqn:E3;
    [|discriminate].
  intros H. inversion H; subst.
  apply Nat.ltb_ge in E1, E2. split; [lia|]. split; [eauto|].
  unfold fetchone. cbn [rs_rows]. apply no_row_of_probe.
Qed.

Lemma run_probe_raise (t : string) (keys : list string) (vals : list value)
  (d d' : database) (e : exn) :
  run (RProbe t keys vals) d = (Raise e, d') -> is_integrity_error e = false.
Proof.
  unfold run.
  repeat match goal with
         | |- (if ?b then _ else _) = _ -> _ => destruct b
         | |- match ?o with _ => _ end = _ -> _ => destruct o
         end; intros H; inversion H; reflexivity.
Qed.

Lemma run_probe_total (t : string) (keys : list string) (vals : list value)
  (d : database) (tb : table) :
  List.length vals = List.length keys ->
  find_table d public t = Some tb ->
  forallb (fun k => memb k (column_names tb)) keys = true ->
  exists rs, run (RProbe t keys vals) d = (Ok rs, d).
Proof.
  intros Hl Hf Hk. unfold run. rewrite Hl, Nat.ltb_irrefl, Hf, Hk. eauto.
Qed.

Lemma probe_row_unfold (t : string) (keys cols : list string)
  (acc : list row) (r : row) (s : state) :
  probe_row t keys cols (construct_where_clause keys) acc r s
  = match pk_values_of cols r keys [] with
    | Raise e => (Raise e, s)
    | Ok dct =>
        match fst (run (RProbe t keys (dict_values dct)) (target_db s)) with
        | Raise e => (Raise e, probed t keys (dict_values dct) s)
        | Ok rs => (Ok (if no_row (fetchone rs) then (acc ++ [r])%list else acc),
                    probed t keys (dict_values dct) s)
        end
    end.
Proof.
  unfold probe_row, bind, lift.
  destruct (pk_values_of cols r keys []) as [dct|e]; [|reflexivity].
  rewrite format_probe. fold (probe_query t keys).
  unfold target_execute. rewrite execute_probe. unfold target_db, probed.
  destruct (fst (run (RProbe t keys (dict_values dct))
                     (conn_current (target_conn s)))) as [rs|e];
    [|reflexivity].
  destruct (no_row (fetchone rs)); reflexivity.
Qed.

Lemma key_of_length (cols keys : list string) (r : row) :
  List.length (key_of cols keys r) = List.length keys.
Proof. unfold key_of. apply length_map. Qed.

Lemma probe_row_ok (t : string) (keys cols : list string) (acc : list row)
  (r : row) (s : state) (m : list row) (s' : state) :
  probe_row t keys cols (construct_where_clause keys) acc r s = (Ok m, s') ->
  probe_ready (target_db s) t keys cols r
  /\ m = (acc ++ if probe_hit (target_db s) t keys (key_of cols keys r)
                 then [] else [r])%list
  /\ s' = probed t keys (key_of cols keys r) s.
Proof.
  rewrite probe_row_unfold.
  destruct (pk_values_of cols r keys []) as [dct|e] eqn:Hd; [|discriminate].
  destruct (run (RProbe t keys (dict_values dct)) (target_db s))
    as [[rs|e] d'] eqn:Hrun; cbn [fst]; [|discriminate].
  apply run_probe_ok in Hrun as (Hl & (tb & Hf & Hk) & Hno).
  pose proof (pk_values_of_key cols r keys dct Hd Hl) as Hkey.
  intros H. inversion H; subst m s'. rewrite Hno, Hkey.
  split; [exists dct, tb; auto|]. split; [|reflexivity].
  destruct (probe_hit (target_db s) t keys (key_of cols keys r)); cbn [negb];
    [rewrite app_nil_r|]; reflexivity.
Qed.

Lemma probe_row_raise (t : string) (keys cols : list string) (acc : list row)
  (r : row) (s : state) (e : exn) (s' : state) :
  probe_row t keys cols (construct_where_clause keys) acc r s = (Raise e, s') ->
  source_conn s' = source_conn s /\ logger s' = logger s
  /\ same_data (target_conn s) (target_conn s').
Proof.
  rewrite probe_row_unfold.
  destruct (pk_values_of cols r keys []) as [dct|e0].
  - destruct (fst (run (RProbe t keys (dict_values dct)) (target_db s)));
      intros H; inversion H; subst; cbn; auto.
  - intros H; inversion H; subst; auto.
Qed.

Lemma probe_row_total (t : string) (keys cols : list string) (acc : list row)
  (r : row) (s : state) :
  probe_ready (target_db s) t keys cols r ->
  exists m, probe_row t keys cols (construct_where_clause keys) acc r s
            = (Ok m, probed t keys (key_of cols keys r) s).
Proof.
  intros (dct & tb & Hd & Hkey & Hf & Hk).
  rewrite probe_row_unfold, Hd, Hkey.
  destruct (run_probe_total t keys (key_of cols keys r) (target_db s) tb
              (key_of_length cols keys r) Hf Hk) as [rs Hrun].
  rewrite Hrun. cbn [fst]. eauto.
Qed.

(** The loop: every source row is probed once, in scan order, and the rows
    whose probe finds nothing are appended in that order. *)
Lemma probe_rows_ok (t : string) (keys cols : list string) :
  forall (rows acc : list row) (s : state) (m : list row) (s' : state),
    probe_rows t keys cols (construct_where_clause keys) rows acc s
    = (Ok m, s') ->
    Forall (probe_ready (target_db s) t keys cols) rows
    /\ m = (acc ++ filter (fun r => negb (probe_hit (target_db s) t keys
                                                    (key_of cols keys r)))
                          rows)%list
    /\ source_conn s' = source_conn s /\ logger s' = logger s
    /\ same_data (target_conn s) (target_conn s')
    /\ conn_trace (target_conn s')
       = (conn_trace (target_conn s)
          ++ map (fun r => mkExecuted (probe_query t keys)
                                      [key_of cols keys r]) rows)%list.
Proof.
  induction rows as [|r rows IH]; intros acc s m s' H;
    cbn [probe_rows] in H.
  - inversion H; subst. cbn. rewrite !app_nil_r. auto 10.
  - unfold bind in H.
    destruct (probe_row t keys cols (construct_where_clause keys) acc r s)
      as [[m1|e] s1] eqn:Hrow; [|discriminate].
    apply probe_row_ok in Hrow as (Hready & -> & ->).
    apply IH in H as (Hall & -> & Hs & Hl & Hd & Htr).
    change (target_db (probed t keys (key_of cols keys r) s))
      with (target_db s) in *.
    split; [constructor; assumption|].
    split.
    { cbn [filter].
      destruct (probe_hit (target_db s) t keys (key_of cols keys r));
        cbn [negb]; [rewrite app_nil_r|rewrite <- app_assoc]; reflexivity. }
    split; [exact Hs|]. split; [exact Hl|]. split.
    { eapply same_data_trans; [|exact Hd]. cbn. auto. }
    rewrite Htr. cbn. rewrite <- app_assoc. reflexivity.
Qed.

Lemma probe_rows_raise (t : string) (keys cols : list string) :
  forall (rows acc : list row) (s : state) (e : exn) (s' : state),
    probe_rows t keys cols (construct_where_clause keys) rows acc s
    = (Raise e, s') ->
    source_conn s' = source_conn s /\ logger s' = logger s
    /\ same_data (target_conn s) (target_conn s').
Proof.
  induction rows as [|r rows IH]; intros acc s e s' H;
    cbn [probe_rows] in H.
  - discriminate.
  - unfold bind in H.
    destruct (probe_row t keys cols (construct_where_clause keys) acc r s)
      as [[m1|e1] s1] eqn:Hrow.
    + apply probe_row_ok in Hrow as (_ & _ & ->).
      apply IH in H as (Hs & Hl & Hd).
      split; [exact Hs|]. split; [exact Hl|].
      eapply same_data_trans; [|exact Hd]. cbn. auto.
    + inversion H; subst. eapply probe_row_raise; eauto.
Qed.

Lemma probe_rows_total (t : string) (keys cols : list string) :
  forall (rows acc : list row) (s : state),
    Forall (probe_ready (target_db s) t keys cols) rows ->
    exists m s',
      probe_rows t keys cols (construct_where_clause keys) rows acc s
      = (Ok m, s').
Proof.
  induction rows as [|r rows IH]; intros acc s Hall; cbn [probe_rows].
  - unfold ret. eauto.
  - inversion Hall as [|? ? Hr Hrest]; subst.
    destruct (probe_row_total t keys cols acc r s Hr) as [m1 Hrow].
    unfold bind. rewrite Hrow. apply IH. exact Hrest.
Qed.

(* ------------------------------------------------------------------ *)
(** ** get_primary_keys and get_missing_rows *)

Lemma first_as_str_names (names : list string) :
  map_outcome first_as_str (map (fun k => [VStr k]) names) = Ok names.
Proof.
  induction names as [|k names IH]; [reflexivity|].
  cbn [map map_outcome]. rewrite IH. reflexivity.
Qed.

Lemma get_primary_keys_unfold (t : string) (s : state) :
  get_primary_keys t s
  = (if plain_name t then
       match find_table (source_db s) public t with
       | None => Raise (undefined_table t)
       | Some tb => Ok (t_pkey tb)
       end
     else Raise (undefined_table t), asked_pkey t s).
Proof.
  unfold get_primary_keys, bind, source_execute.
  rewrite execute_fetch_primary_keys. unfold source_db, asked_pkey.
  destruct (plain_name t); [|reflexivity].
  destruct (find_table (conn_current (source_conn s)) public t) as [tb|];
    [|reflexivity].
  unfold lift, fetchall. cbn [rs_rows]. rewrite first_as_str_names.
  reflexivity.
Qed.

Lemma get_missing_rows_no_source_table (t : string) (s : state) :
  find_table (source_db s) public t = None ->
  get_missing_rows t s = (Raise (undefined_table t), asked_pkey t s).
Proof.
  intros Hf. unfold get_missing_rows, bind.
  rewrite get_primary_keys_unfold, Hf. destruct (plain_name t); reflexivity.
Qed.

(** A name that the cast to [regclass] does not read as itself: the lookup
    of the primary key fails, and nothing else is asked. *)
Lemma get_missing_rows_other_name (t : string) (s : state) :
  plain_name t = false ->
  get_missing_rows t s = (Raise (undefined_table t), asked_pkey t s).
Proof.
  intros Hp. unfold get_missing_rows, bind.
  rewrite get_primary_keys_unfold, Hp. reflexivity.
Qed.

Lemma get_missing_rows_ok_plain (t : string) (s : state)
  (x : list row * list string) (s' : state) :
  get_missing_rows t s = (Ok x, s') -> plain_name t = true.
Proof.
  destruct (plain_name t) eqn:Hp; [reflexivity|].
  rewrite (get_missing_rows_other_name t s Hp). discriminate.
Qed.

Lemma plain_name_not_empty (t : string) :
  plain_name t = true -> String.eqb t EmptyString = false.
Proof. destruct t; [discriminate|reflexivity]. Qed.

Lemma get_missing_rows_no_key (t : string) (s : state) (tb : table) :
  plain_name t = true ->
  find_table (source_db s) public t = Some tb ->
  t_pkey tb = [] ->
  get_missing_rows t s
  = (Ok ([], []),
     mkState (sent (source_conn s) (pkey_stmt t)) (target_conn s)
             (emit (logger s) ERROR
                   ("No primary keys found for table " ++ t ++ "."))).
Proof.
  intros Hp Hf Hk. unfold get_missing_rows, bind.
  rewrite get_primary_keys_unfold, Hp, Hf, Hk. reflexivity.
Qed.

Lemma get_missing_rows_keyed (t : string) (s : state) (tb : table) :
  plain_name t = true ->
  find_table (source_db s) public t = Some tb ->
  t_pkey tb <> [] ->
  get_missing_rows t s
  = if String.eqb t EmptyString
    then (Raise (ValueError "Table name must be provided"), asked_pkey t s)
    else
      match probe_rows t (t_pkey tb) (column_names tb)
                       (construct_where_clause (t_pkey tb))
                       (t_rows tb) [] (scanned t s) with
      | (Ok m, s') => (Ok (m, column_names tb), s')
      | (Raise e, s') => (Raise e, s')
      end.
Proof.
  intros Hp Hf Hk. unfold get_missing_rows, bind.
  rewrite get_primary_keys_unfold, Hp, Hf.
  destruct (t_pkey tb) as [|k ks] eqn:Ek; [congruence|].
  unfold select_all_rows.
  destruct (String.eqb t EmptyString); [reflexivity|].
  cbn [lift fst snd]. rewrite format_select_all.
  unfold source_execute, asked_pkey. cbn [source_conn target_conn logger].
  rewrite execute_select_all. cbn [sent with_current conn_current].
  unfold source_db in Hf. rewrite Hf.
  cbn [fetchall rs_rows rs_description]. unfold scanned, sent, with_current.
  cbn [conn_current conn_committed conn_closed conn_trace].
  destruct (probe_rows t (k :: ks) (column_names tb)
              (construct_where_clause (k :: ks)) (t_rows tb) [] _)
    as [[m|e] s']; reflexivity.
Qed.

(** Whatever it returns, [get_missing_rows] leaves the data of both
    connections as it found it. *)
Lemma get_missing_rows_frame (t : string) (s : state)
  (r : outcome (list row * list string)) (s' : state) :
  get_missing_rows t s = (r, s') ->
  same_data (target_conn s) (target_conn s')
  /\ same_data (source_conn s) (source_conn s').
Proof.
  destruct (plain_name t) eqn:Hplain;
    [|rewrite (get_missing_rows_other_name t s Hplain);
      intros H; inversion H; subst; cbn; auto].
  destruct (find_table (source_db s) public t) as [tb|] eqn:Hf.
  - destruct (t_pkey tb) as [|k ks] eqn:Hk.
    + rewrite (get_missing_rows_no_key t s tb Hplain Hf Hk).
      intros H; inversion H; subst; cbn. auto.
    + rewrite (get_missing_rows_keyed t s tb Hplain Hf) by congruence.
      destruct (String.eqb t EmptyString).
      { intros H; inversion H; subst; cbn. auto. }
      rewrite Hk.
      destruct (probe_rows t (k :: ks) (column_names tb)
                  (construct_where_clause (k :: ks)) (t_rows tb) []
                  (scanned t s)) as [[m|e] s1] eqn:Hp.
      * apply probe_rows_ok in Hp as (_ & _ & Hs & _ & Hd & _).
        intros H; inversion H; subst. split; [exact Hd|].
        rewrite Hs. cbn. unfold same_data. auto.
      * apply probe_rows_raise in Hp as (Hs & _ & Hd).
        intros H; inversion H; subst. split; [exact Hd|].
        rewrite Hs. cbn. unfold same_data. auto.
  - rewrite (get_missing_rows_no_source_table t s Hf).
    intros H; inversion H; subst; cbn. auto.
Qed.

(** The rows reported missing, for a table with a primary key. *)
Lemma get_missing_rows_ok (t : string) (s : state) (tb : table)
  (m : list row) (cols : list string) (s' : state) :
  find_table (source_db s) public t = Some tb ->
  t_pkey tb <> [] ->
  get_missing_rows t s = (Ok (m, cols), s') ->
  cols = column_names tb
  /\ Forall (probe_ready (target_db s) t (t_pkey tb) cols) (t_rows tb)
  /\ m = filter (fun r => negb (probe_hit (target_db s) t (t_pkey tb)
                                          (key_of cols (t_pkey tb) r)))
                (t_rows tb)
  /\ source_conn s' = source_conn (scanned t s)
  /\ logger s' = logger s
  /\ conn_trace (target_conn s')
     = (conn_trace (target_conn s)
        ++ map (fun r => mkExecuted (probe_query t (t_pkey tb))
                                    [key_of cols (t_pkey tb) r])
               (t_rows tb))%list.
Proof.
  intros Hf Hk Hg.
  pose proof (get_missing_rows_ok_plain t s _ _ Hg) as Hplain. revert Hg.
  rewrite (get_missing_rows_keyed t s tb Hplain Hf Hk).
  destruct (String.eqb t EmptyString); [discriminate|].
  destruct (probe_rows t (t_pkey tb) (column_names tb)
              (construct_where_clause (t_pkey tb)) (t_rows tb) []
              (scanned t s)) as [[m1|e] s1] eqn:Hp; [|discriminate].
  apply probe_rows_ok in Hp as (Hall & -> & Hs & Hl & _ & Htr).
  intros H; inversion H; subst.
  change (target_db (scanned t s)) with (target_db s) in *.
  cbn [app]. auto 10.
Qed.

(* ------------------------------------------------------------------ *)
(** ** The text of composed statements *)

Lemma append_nil_r (s : string) : s ++ EmptyString = s.
Proof. induction s as [|c s IH]; cbn; [|rewrite IH]; reflexivity. Qed.

Lemma as_string_composed (parts : list composable) :
  as_string (Composed parts)
  = fold_right (fun p acc => as_string p ++ acc) EmptyString parts.
Proof.
  induction parts as [|p parts IH]; [reflexivity|].
  cbn [fold_right]. rewrite <- IH. reflexivity.
Qed.

Lemma as_string_join (sep : string) (items : list composable) :
  as_string (join sep items) = String.concat sep (map as_string items).
Proof.
  unfold join. rewrite as_string_composed.
  destruct items as [|x rest]; [reflexivity|].
  cbn [intersperse]. revert x.
  induction rest as [|y rest IH]; intros x.
  - cbn. apply append_nil_r.
  - cbn [flat_map app fold_right map String.concat] in *.
    rewrite IH. reflexivity.
Qed.


(* ------------------------------------------------------------------ *)
(** ** The diff *)




(* ------------------------------------------------------------------ *)
(** ** The bulk insert *)

Lemma execute_values_unfold (t : string) (cols : list string)
  (rows : list row) (c : connection) :
  rows <> [] ->
  conn_execute_values (insert_missing_rows t cols) rows c
  = match cols with
    | [] => (Raise syntax_error, sent c (insert_stmt t cols rows))
    | _ => (fst (run (RInsert t cols rows) (conn_current c)),
            with_current c (snd (run (RInsert t cols rows) (conn_current c)))
                         (insert_stmt t cols rows))
    end.
Proof.
  intros Hr. unfold conn_execute_values.
  destruct rows as [|r rows]; [congruence|].
  rewrite read_insert. destruct cols as [|c0 cols]; [reflexivity|].
  unfold submit.
  destruct (run (RInsert t (c0 :: cols) (r :: rows)) (conn_current c));
    reflexivity.
Qed.

Lemma run_insert_ok (t : string) (cols : list string) (rows : list row)
  (d d' : database) (rs : resultset) :
  run (RInsert t cols rows) d = (Ok rs, d') ->
  exists tb tb',
    find_table d public t = Some tb
    /\ forallb (fun c => memb c (column_names tb)) cols = true
    /\ insert_rows cols tb rows = Ok tb'
    /\ d' = set_table d public t tb'.
Proof.
  unfold run. destruct (find_table d public t) as [tb|]; [|discriminate].
  destruct (nodupb cols); [|discriminate]. cbn [negb].
  destruct (forallb (fun c => memb c (column_names tb)) cols) eqn:Hc;
    [|discriminate]. cbn [negb].
  destruct (forallb (fun r => Nat.eqb (List.length r) (List.length cols)) rows);
    [|discriminate]. cbn [negb].
  destruct (insert_rows cols tb rows) as [tb'|e] eqn:Hi; [|discriminate].
  intros H. inversion H. exists tb, tb'. auto.
Qed.

Lemma run_insert_raise (t : string) (cols : list string) (rows : list row)
  (d d' : database) (e : exn) :
  run (RInsert t cols rows) d = (Raise e, d') -> d' = d.
Proof.
  unfold run.
  repeat match goal with
         | |- (if ?b then _ else _) = _ -> _ => destruct b
         | |- match ?o with _ => _ end = _ -> _ => destruct o
         end; intros H; inversion H; reflexivity.
Qed.

Lemma insert_row_ok (cols : list string) (tb tb' : table) (r : row) :
  insert_row cols tb r = Ok tb' ->
  t_columns tb' = t_columns tb /\ t_pkey tb' = t_pkey tb
  /\ (t_rows tb' = t_rows tb /\ conflicts tb (laid_out cols tb r) = true
      \/ t_rows tb' = (t_rows tb ++ [laid_out cols tb r])%list).
Proof.
  unfold insert_row. fold (laid_out cols tb r).
  destruct (existsb _ (t_pkey tb)); [discriminate|].
  destruct (conflicts tb (laid_out cols tb r)) eqn:Hc;
    intros H; inversion H; subst; cbn; auto.
Qed.

(** A bulk insert keeps the table's definition and its rows, and only adds
    rows taken from the batch. *)
Lemma insert_rows_ok (cols : list string) :
  forall (rows : list row) (tb tb' : table),
    insert_rows cols tb rows = Ok tb' ->
    t_columns tb' = t_columns tb /\ t_pkey tb' = t_pkey tb
    /\ exists added,
         t_rows tb' = (t_rows tb ++ added)%list
         /\ Forall (fun r' => exists r, In r rows /\ r' = laid_out cols tb r)
                   added.
Proof.
  induction rows as [|r rows IH]; intros tb tb' H; cbn [insert_rows] in H.
  - inversion H; subst. split; [reflexivity|]. split; [reflexivity|].
    exists []. rewrite app_nil_r. auto.
  - destruct (insert_row cols tb r) as [tb1|e] eqn:H1; [|discriminate].
    apply insert_row_ok in H1 as (Hc1 & Hk1 & Hr1).
    apply IH in H as (Hc & Hk & added & Hr & Hall).
    split; [congruence|]. split; [congruence|].
    assert (Hlay : forall x, laid_out cols tb1 x = laid_out cols tb x).
    { intros x. unfold laid_out, column_names. rewrite Hc1. reflexivity. }
    assert (Hall' : Forall (fun r' => exists r0, In r0 (r :: rows)
                                                 /\ r' = laid_out cols tb r0)
                           added).
    { eapply Forall_impl; [|exact Hall]. cbn beta.
      intros r' (r0 & Hin & ->). exists r0. split; [right; exact Hin|].
      apply Hlay. }
    destruct Hr1 as [[Hr1 _]|Hr1]; rewrite Hr1 in Hr.
    + exists added. auto.
    + exists (laid_out cols tb r :: added). rewrite <- app_assoc in Hr.
      split; [exact Hr|]. constructor; [|exact Hall'].
      exists r. split; [left; reflexivity|reflexivity].
Qed.

(* ------------------------------------------------------------------ *)
(** ** The steps of sync_table *)

Lemma sync_table_body_split (t : string) :
  sync_table_body t = bind (check_and_create_table t) (fun _ => sync_rows t).
Proof. reflexivity. Qed.

Lemma sync_table_body_cases (t : string) (s : state) (r : outcome unit)
  (s' : state) :
  sync_table_body t s = (r, s') ->
  (exists e, check_and_create_table t s = (Raise e, s') /\ r = Raise e)
  \/ (exists s1, check_and_create_table t s = (Ok tt, s1)
                 /\ sync_rows t s1 = (r, s')).
Proof.
  rewrite sync_table_body_split. unfold bind at 1.
  destruct (check_and_create_table t s) as [[[]|e] s1].
  - intros H. right. eauto.
  - intros H. inversion H; subst. left. eauto.
Qed.

Lemma sync_rows_cases (t : string) (s1 : state) (r : outcome unit)
  (s' : state) :
  sync_rows t s1 = (r, s') ->
  exists r1 s2,
    get_missing_rows t s1 = (r1, s2)
    /\ match r1 with
       | Raise e => r = Raise e /\ s' = s2
       | Ok ([], _) =>
           r = Ok tt
           /\ s' = mkState (source_conn s2) (target_conn s2)
                           (emit (logger s2) INFO
                                 ("No missing rows to sync for " ++ t))
       | Ok (m, cols) =>
           match conn_execute_values (insert_missing_rows t cols) m
                                     (target_conn s2) with
           | (Raise e, c3) =>
               r = Raise e /\ s' = mkState (source_conn s2) c3 (logger s2)
           | (Ok _, c3) =>
               r = Ok tt
               /\ s' = mkState (source_conn s2) (conn_commit c3)
                               (emit (logger s2) INFO (synced_message t m))
           end
       end.
Proof.
  unfold sync_rows, bind at 1.
  destruct (get_missing_rows t s1) as [[[m cols]|e] s2] eqn:Hg.
  - intros H. exists (Ok (m, cols)), s2. split; [reflexivity|].
    cbn [fst snd] in H. destruct m as [|r0 m].
    + unfold log in H. inversion H. auto.
    + unfold bind, target_execute_values, target_commit, log in H.
      destruct (conn_execute_values (insert_missing_rows t cols) (r0 :: m)
                                    (target_conn s2)) as [[rs|e] c3];
        inversion H; auto.
  - intros H. inversion H; subst. exists (Raise e), s'. auto.
Qed.

(** [check_and_create_table] in terms of the data it leaves. *)
Lemma check_and_create_table_summary (t : string) (s : state)
  (r0 : outcome unit) (s1 : state) :
  check_and_create_table t s = (r0, s1) ->
  same_data (source_conn s) (source_conn s1)
  /\ conn_closed (target_conn s1) = conn_closed (target_conn s)
  /\ (r0 = Ok tt -> table_exists (target_db s1) t = true)
  /\ (forall e, r0 = Raise e -> is_integrity_error e = false)
  /\ (target_db s1 = target_db s
      /\ conn_committed (target_conn s1) = conn_committed (target_conn s)
      \/ r0 = Ok tt
         /\ table_exists (target_db s) t = false
         /\ conn_committed (target_conn s1) = target_db s1
         /\ exists cols,
              (exists written,
                 read_column_defs
                   (columns_sql (catalog_columns (source_db s) t))
                 = Some written
                 /\ map_option declared_column written = Some cols)
              /\ target_db s1
                 = set_table (target_db s) public t (mkTable cols [] [])).
Proof.
  destruct (table_exists (target_db s) t) eqn:Hex.
  - rewrite (check_and_create_table_present _ _ Hex).
    intros H; inversion H; subst. unfold target_db in *. cbn.
    repeat split; auto. discriminate.
  - rewrite (check_and_create_table_absent _ _ Hex). cbv zeta.
    destruct (run (RCreate t (columns_sql (catalog_columns (source_db s) t)))
                  (target_db s)) as [[rs|e] d] eqn:Hrun.
    + apply run_create_ok in Hrun
        as (written & cols & Hread & Hdecl & _ & Hnone & ->).
      intros H; inversion H; subst. unfold target_db in *. cbn.
      split; [auto|]. split; [reflexivity|]. split.
      { intros _. eapply table_exists_of_find.
        apply find_table_set_table_same. }
      split; [discriminate|]. right. repeat split; auto.
      exists cols. split; [exists written; auto|reflexivity].
    + apply run_create_raise in Hrun as [-> He].
      intros H; inversion H; subst. unfold target_db in *. cbn.
      split; [auto|]. split; [reflexivity|]. split; [discriminate|].
      split; [|left; auto]. intros e0 H0. inversion H0; subst. exact He.
Qed.

(** *** Where an integrity error can come from *)

Lemma pk_values_of_raise (cols : list string) (r : row) :
  forall (keys : list string) (d0 : dict) (e : exn),
    pk_values_of cols r keys d0 = Raise e -> is_integrity_error e = false.
Proof.
  induction keys as [|k keys IH]; intros d0 e H; cbn [pk_values_of] in H.
  - discriminate.
  - unfold list_index, getitem in H.
    destruct (index_opt k cols) as [i|]; [|inversion H; reflexivity].
    destruct (nth_error r i) as [v|]; [|inversion H; reflexivity].
    eapply IH; eauto.
Qed.

Lemma probe_rows_raise_kind (t : string) (keys cols : list string) :
  forall (rows acc : list row) (s : state) (e : exn) (s' : state),
    probe_rows t keys cols (construct_where_clause keys) rows acc s
    = (Raise e, s') ->
    is_integrity_error e = false.
Proof.
  induction rows as [|r rows IH]; intros acc s e s' H;
    cbn [probe_rows] in H; [discriminate|].
  unfold bind in H.
  destruct (probe_row t keys cols (construct_where_clause keys) acc r s)
    as [[m1|e1] s1] eqn:Hrow; [eapply IH; eauto|].
  inversion H; subst. rewrite probe_row_unfold in Hrow.
  destruct (pk_values_of cols r keys []) as [dct|e0] eqn:Hd.
  - destruct (run (RProbe t keys (dict_values dct)) (target_db s))
      as [[rs|e0] d'] eqn:Hrun; cbn [fst] in Hrow; [discriminate|].
    inversion Hrow; subst. eapply run_probe_raise; eauto.
  - inversion Hrow; subst. eapply pk_values_of_raise; eauto.
Qed.

Lemma get_missing_rows_raise_kind (t : string) (s : state) (e : exn)
  (s' : state) :
  get_missing_rows t s = (Raise e, s') -> is_integrity_error e = false.
Proof.
  destruct (plain_name t) eqn:Hplain;
    [|rewrite (get_missing_rows_other_name t s Hplain);
      intros H; inversion H; reflexivity].
  destruct (find_table (source_db s) public t) as [tb|] eqn:Hf.
  - destruct (t_pkey tb) as [|k ks] eqn:Hk.
    + rewrite (get_missing_rows_no_key t s tb Hplain Hf Hk). discriminate.
    + rewrite (get_missing_rows_keyed t s tb Hplain Hf) by congruence.
      destruct (String.eqb t EmptyString).
      { intros H; inversion H; reflexivity. }
      destruct (probe_rows t (t_pkey tb) (column_names tb)
                  (construct_where_clause (t_pkey tb)) (t_rows tb) []
                  (scanned t s)) as [[m|e1] s1] eqn:Hp; [discriminate|].
      intros H; inversion H; subst. eapply probe_rows_raise_kind; eauto.
  - rewrite (get_missing_rows_no_source_table t s Hf).
    intros H; inversion H; reflexivity.
Qed.

(** *** The data left by the diff-and-insert step *)

Lemma sync_rows_summary (t : string) (s1 : state) (r : outcome unit)
  (s' : state) :
  sync_rows t s1 = (r, s') ->
  same_data (source_conn s1) (source_conn s')
  /\ conn_closed (target_conn s') = conn_closed (target_conn s1)
  /\ (target_db s' = target_db s1
      /\ conn_committed (target_conn s') = conn_committed (target_conn s1)
      \/ r = Ok tt
         /\ conn_committed (target_conn s') = target_db s'
         /\ exists m cols s2 tb tb',
              get_missing_rows t s1 = (Ok (m, cols), s2)
              /\ m <> []
              /\ find_table (target_db s1) public t = Some tb
              /\ forallb (fun c => memb c (column_names tb)) cols = true
              /\ insert_rows cols tb m = Ok tb'
              /\ target_db s' = set_table (target_db s1) public t tb').
Proof.
  intros H. apply sync_rows_cases in H as (r1 & s2 & Hg & H).
  destruct (get_missing_rows_frame t s1 r1 s2 Hg)
    as ((Ht1 & Ht2 & Ht3) & Hsrc).
  destruct r1 as [[m cols]|e].
  - destruct m as [|r0 m].
    + destruct H as [-> ->]. unfold target_db. cbn. auto.
    + rewrite execute_values_unfold in H by discriminate.
      destruct cols as [|c0 cols].
      { destruct H as [-> ->]. unfold target_db. cbn. auto. }
      destruct (run (RInsert t (c0 :: cols) (r0 :: m))
                    (conn_current (target_conn s2))) as [[rs|e] d] eqn:Hrun;
        cbn [fst snd] in H; destruct H as [-> ->].
      * apply run_insert_ok in Hrun as (tb & tb' & Hf & Hc & Hi & ->).
        unfold target_db. cbn. split; [exact Hsrc|]. split; [exact Ht3|].
        right. split; [reflexivity|]. split; [reflexivity|].
        exists (r0 :: m), (c0 :: cols), s2, tb, tb'.
        rewrite <- Ht1. repeat split; auto. discriminate.
      * apply run_insert_raise in Hrun as ->.
        unfold target_db. cbn. auto.
  - destruct H as [-> ->]. unfold target_db. auto.
Qed.

Lemma sync_rows_integrity (t : string) (s1 : state) (e : exn) (s' : state) :
  sync_rows t s1 = (Raise e, s') ->
  is_integrity_error e = true ->
  exists m cols s2,
    get_missing_rows t s1 = (Ok (m, cols), s2)
    /\ m <> []
    /\ conn_execute_values (insert_missing_rows t cols) m (target_conn s2)
       = (Raise e, target_conn s').
Proof.
  intros H He. apply sync_rows_cases in H as (r1 & s2 & Hg & H).
  destruct r1 as [[m cols]|e1].
  - destruct m as [|r0 m]; [destruct H; discriminate|].
    destruct (conn_execute_values (insert_missing_rows t cols) (r0 :: m)
                                  (target_conn s2)) as [[rs|e2] c3] eqn:Hx;
      destruct H as [H ->]; [discriminate|].
    inversion H; subst. exists (r0 :: m), cols, s2.
    split; [exact Hg|]. split; [discriminate|exact Hx].
  - destruct H as [H ->]. inversion H; subst.
    apply get_missing_rows_raise_kind in Hg. congruence.
Qed.

(* ------------------------------------------------------------------ *)
(** ** sync_table as a whole *)

Lemma sync_table_unfold (t : string) (s : state) :
  sync_table t s
  = match sync_table_body t s with
    | (Ok a, s') => (Ok a, s')
    | (Raise e, s') =>
        if is_integrity_error e
        then (Ok tt, handled WARNING (integrity_message t) s')
        else (Raise e, handled ERROR (unexpected_message t e) s')
    end.
Proof.
  unfold sync_table, try_except.
  destruct (sync_table_body t s) as [[a|e] s']; [reflexivity|].
  destruct (is_integrity_error e); reflexivity.
Qed.

Lemma sync_table_body_data (t : string) (s : state) (r : outcome unit)
  (s' : state) :
  clean s ->
  sync_table_body t s = (r, s') ->
  clean s'
  /\ same_data (source_conn s) (source_conn s')
  /\ conn_closed (target_conn s') = conn_closed (target_conn s)
  /\ exists d1,
       ensured (target_db s) d1 t
       /\ (target_db s' = d1 \/ r = Ok tt /\ inserted t s d1 (target_db s')).
Proof.
  unfold clean. intros Hclean H.
  apply sync_table_body_cases in H as [(e & Hc & ->)|(s1 & Hc & Hr)].
  - apply check_and_create_table_summary in Hc
      as (Hsrc & Hcl & _ & _ & [[Hd Hcm]|(Hok & _)]); [|discriminate].
    unfold target_db in *. split; [congruence|]. split; [exact Hsrc|].
    split; [exact Hcl|]. exists (conn_current (target_conn s)).
    split; [left; reflexivity|left; exact Hd].
  - pose proof (check_and_create_table_summary t s (Ok tt) s1 Hc)
      as (Hsrc & Hcl & _ & _ & Hdata).
    pose proof (sync_rows_summary t s1 r s' Hr) as (Hsrc' & Hcl' & Hrows).
    assert (Hclean1 : conn_current (target_conn s1)
                      = conn_committed (target_conn s1)).
    { destruct Hdata as [[Hd Hcm]|(_ & _ & Hcm & _)];
        unfold target_db in *; congruence. }
    assert (Hens : ensured (target_db s) (target_db s1) t).
    { destruct Hdata as [[Hd _]|(_ & Hex & _ & cols & _ & Hd)].
      - left. exact Hd.
      - right. split; [exact Hex|]. exists cols. exact Hd. }
    split.
    { destruct Hrows as [[Hd Hcm]|(_ & Hcm & _)];
        unfold target_db in *; congruence. }
    split; [eapply same_data_trans; eauto|]. split; [congruence|].
    exists (target_db s1). split; [exact Hens|].
    destruct Hrows as [[Hd _]|(-> & _ & m & cols & s2 & tb & tb' & Hg & Hm
                               & Hf & Hcols & Hi & Hd)].
    + left. exact Hd.
    + right. split; [reflexivity|].
      exists m, cols, s1, s2, tb, tb'. repeat split; auto.
Qed.

Lemma sync_table_data (t : string) (s : state) (r : outcome unit)
  (s' : state) :
  clean s ->
  sync_table t s = (r, s') ->
  clean s'
  /\ same_data (source_conn s) (source_conn s')
  /\ conn_closed (target_conn s') = conn_closed (target_conn s)
  /\ exists d1,
       ensured (target_db s) d1 t
       /\ (target_db s' = d1 \/ r = Ok tt /\ inserted t s d1 (target_db s')).
Proof.
  intros Hclean. rewrite sync_table_unfold.
  destruct (sync_table_body t s) as [[[]|e] sb] eqn:Hb.
  - intros H; inversion H; subst. eapply sync_table_body_data; eauto.
  - pose proof (sync_table_body_data t s (Raise e) sb Hclean Hb)
      as (Hcb & Hsrc & Hcl & d1 & Hens & Hd).
    assert (Hd1 : target_db sb = d1).
    { destruct Hd as [Hd|[Hd _]]; [exact Hd|discriminate]. }
    unfold clean, target_db in *.
    destruct (is_integrity_error e); intros H; inversion H; subst; cbn;
      (split; [reflexivity|]); (split; [exact Hsrc|]);
      (split; [exact Hcl|]);
      exists (conn_current (target_conn sb)); (split; [exact Hens|]);
      left; symmetry; exact Hcb.
Qed.

(* ------------------------------------------------------------------ *)
(** ** Tables without a primary key *)





(* ------------------------------------------------------------------ *)
(** ** The handlers of sync_table and the run over all tables *)

Lemma sync_all_tables_unfold (s : state) :
  sync_all_tables s
  = concluded (for_each (tables_in (source_db s) public) sync_table (listed s)).
Proof.
  unfold sync_all_tables, try_except, bind at 1, source_execute.
  rewrite execute_list_tables. fold (listed s).
  unfold bind at 1, lift, fetchall. cbn [rs_rows].
  rewrite first_as_str_names. unfold bind, source_db, concluded, log, raise.
  destruct (for_each (tables_in (conn_current (source_conn s)) public)
                     sync_table (listed s)) as [[[]|e] s']; reflexivity.
Qed.

Lemma for_each_app {A : Type} (f : A -> M state unit) :
  forall (xs ys : list A) (s : state),
    for_each (xs ++ ys) f s
    = match for_each xs f s with
      | (Ok _, s1) => for_each ys f s1
      | (Raise e, s1) => (Raise e, s1)
      end.
Proof.
  induction xs as [|x xs IH]; intros ys s; [reflexivity|].
  cbn [app for_each]. unfold bind.
  destruct (f x s) as [[[]|e] s1]; [apply IH|reflexivity].
Qed.

Lemma sync_table_body_integrity (t : string) (s : state) (e : exn)
  (sb : state) :
  sync_table_body t s = (Raise e, sb) ->
  is_integrity_error e = true ->
  exists m cols s1 s2,
    check_and_create_table t s = (Ok tt, s1)
    /\ get_missing_rows t s1 = (Ok (m, cols), s2)
    /\ m <> []
    /\ conn_execute_values (insert_missing_rows t cols) m (target_conn s2)
       = (Raise e, target_conn sb).
Proof.
  intros H He.
  apply sync_table_body_cases in H as [(e0 & Hc & H)|(s1 & Hc & Hr)].
  - inversion H; subst e0.
    apply check_and_create_table_summary in Hc as (_ & _ & _ & Hk & _).
    rewrite (Hk e eq_refl) in He. discriminate.
  - destruct (sync_rows_integrity t s1 e sb Hr He)
      as (m & cols & s2 & Hg & Hm & Hx).
    exists m, cols, s1, s2. auto.
Qed.

(** C4: when the body of [sync_table] fails with an integrity error, the
    error came from the bulk insert; [sync_table] rolls the target back,
    logs a warning and returns normally, so the loop over the tables goes
    on with the next table.  When the body fails with any other exception,
    [sync_table] rolls the target back, logs the error and raises it again;
    the loop stops there and [sync_all_tables] logs and raises it too.  In
    both cases the rollback leaves the target at its last commit, where
    every table other than [t] is as it was before the call. *)
Theorem sync_table_failure_handling :
  forall (t : string) (s : state) (e : exn) (sb : state),
    sync_table_body t s = (Raise e, sb) ->
    (is_integrity_error e = true ->
       (exists m cols s1 s2,
          check_and_create_table t s = (Ok tt, s1)
          /\ get_missing_rows t s1 = (Ok (m, cols), s2)
          /\ m <> []
          /\ conn_execute_values (insert_missing_rows t cols) m
                                 (target_conn s2)
             = (Raise e, target_conn sb))
       /\ sync_table t s = (Ok tt, handled WARNING (integrity_message t) sb)
       /\ (forall rest,
             for_each (t :: rest) sync_table s
             = for_each rest sync_table
                        (handled WARNING (integrity_message t) sb))
       /\ (forall s0 before rest,
             tables_in (source_db s0) public = (before ++ t :: rest)%list ->
             for_each before sync_table (listed s0) = (Ok tt, s) ->
             sync_all_tables s0
             = concluded (for_each rest sync_table
                            (handled WARNING (integrity_message t) sb))))
    /\ (is_integrity_error e = false ->
       sync_table t s = (Raise e, handled ERROR (unexpected_message t e) sb)
       /\ (forall rest,
             for_each (t :: rest) sync_table s
             = (Raise e, handled ERROR (unexpected_message t e) sb))
       /\ (forall s0 before rest,
             tables_in (source_db s0) public = (before ++ t :: rest)%list ->
             for_each before sync_table (listed s0) = (Ok tt, s) ->
             sync_all_tables s0
             = (Raise e,
                mkState (source_conn sb) (conn_rollback (target_conn sb))
                        (emit (emit (logger sb) ERROR (unexpected_message t e))
                              ERROR ("Failed to sync all tables: "
                                     ++ exn_message e)))))
    /\ (forall lv msg,
          target_db (handled lv msg sb) = conn_committed (target_conn sb)
          /\ conn_committed (target_conn (handled lv msg sb))
             = conn_committed (target_conn sb))
    /\ (clean s ->
        forall schema n, (schema, n) <> (public, t) ->
          find_table (conn_committed (target_conn sb)) schema n
          = find_table (conn_committed (target_conn s)) schema n).
Proof.
  intros t s e sb Hb.
  pose proof (sync_table_unfold t s) as Hu. rewrite Hb in Hu.
  split; [|split; [|split]].
  - intros He. rewrite He in Hu.
    split; [exact (sync_table_body_integrity t s e sb Hb He)|].
    split; [exact Hu|]. split.
    + intros rest. cbn [for_each]. unfold bind. rewrite Hu. reflexivity.
    + intros s0 before rest Htabs Hbefore.
      rewrite sync_all_tables_unfold, Htabs, for_each_app, Hbefore.
      cbn [for_each]. unfold bind at 1. rewrite Hu. reflexivity.
  - intros He. rewrite He in Hu. split; [exact Hu|]. split.
    + intros rest. cbn [for_each]. unfold bind. rewrite Hu. reflexivity.
    + intros s0 before rest Htabs Hbefore.
      rewrite sync_all_tables_unfold, Htabs, for_each_app, Hbefore.
      cbn [for_each]. unfold bind at 1. rewrite Hu. reflexivity.
  - intros lv msg. split; reflexivity.
  - intros Hclean schema n Hne.
    destruct (sync_table_body_data t s (Raise e) sb Hclean Hb)
      as (Hcb & _ & _ & d1 & Hens & [Hd|[Hd _]]); [|discriminate].
    unfold clean, target_db in *. rewrite <- Hcb, Hd, <- Hclean.
    destruct Hens as [->|(_ & cols & ->)]; [reflexivity|].
    apply find_table_set_table_other. exact Hne.
Qed.

Lemma sync_table_failure_handling_witness :
  sync_table "items" state_with_items
  = (Ok tt, handled WARNING (integrity_message "items")
                    (snd (sync_table_body "items" state_with_items))).
Proof.
  exact (proj1 (proj2 (proj1
    (sync_table_failure_handling
       "items" state_with_items not_null_violation
       (snd (sync_table_body "items" state_with_items)) eq_refl)
    eq_refl))).
Defined.

(* ------------------------------------------------------------------ *)
(** ** A created table and a failed sync *)

(** C10: when [check_and_create_table] creates the table, the creation is
    committed at once: the committed data of the target holds the new,
    empty table before the diff starts.  Whatever [sync_table] then does,
    the table is in the committed data at the end; when the rest of the
    body fails, in either handler, the target is left exactly at that
    commit, with the created table still empty. *)
Theorem created_table_survives_failed_sync :
  forall (t : string) (s s1 : state),
    table_exists (target_db s) t = false ->
    check_and_create_table t s = (Ok tt, s1) ->
    (exists cols,
       find_table (conn_committed (target_conn s1)) public t
       = Some (mkTable cols [] [])
       /\ conn_committed (target_conn s1)
          = set_table (target_db s) public t (mkTable cols [] []))
    /\ target_db s1 = conn_committed (target_conn s1)
    /\ (forall r s', sync_table t s = (r, s') ->
          exists tb,
            find_table (conn_committed (target_conn s')) public t = Some tb)
    /\ (forall e sb, sync_table_body t s = (Raise e, sb) ->
          conn_committed (target_conn (snd (sync_table t s)))
          = conn_committed (target_conn s1)
          /\ target_db (snd (sync_table t s))
             = conn_committed (target_conn s1)).
Proof.
  intros t s s1 Hex Hc.
  destruct (check_and_create_table_summary t s (Ok tt) s1 Hc)
    as (_ & _ & Hex1 & _ & [[Hd _]|(_ & _ & Hcm & cols & _ & Hd)]).
  { rewrite Hd in Hex1. rewrite (Hex1 eq_refl) in Hex. discriminate. }
  assert (Hbody : sync_table_body t s = sync_rows t s1).
  { rewrite sync_table_body_split. unfold bind. rewrite Hc. reflexivity. }
  assert (Hfind1 : find_table (conn_committed (target_conn s1)) public t
                   = Some (mkTable cols [] [])).
  { rewrite Hcm, Hd. apply find_table_set_table_same. }
  split; [exists cols; split; [exact Hfind1|congruence]|].
  split; [symmetry; exact Hcm|]. split.
  - intros r s'. rewrite sync_table_unfold, Hbody.
    destruct (sync_rows t s1) as [[[]|e] sb] eqn:Hr;
      pose proof (sync_rows_summary t s1 _ sb Hr) as (_ & _ & Hrows).
    + intros H; inversion H; subst.
      destruct Hrows as [[_ Hcm']|(_ & Hcm' & m & cs & s2 & tb & tb' & _ & _
                                   & _ & _ & _ & Hd')].
      * rewrite Hcm'. eauto.
      * rewrite Hcm', Hd'. exists tb'. apply find_table_set_table_same.
    + destruct Hrows as [[_ Hcm']|[Hok _]]; [|discriminate].
      destruct (is_integrity_error e); intros H; inversion H; subst; cbn;
        rewrite Hcm'; eauto.
  - intros e sb Hb. rewrite sync_table_unfold, Hb.
    rewrite Hbody in Hb.
    destruct (sync_rows_summary t s1 _ sb Hb)
      as (_ & _ & [[_ Hcm']|[Hok _]]); [|discriminate].
    destruct (is_integrity_error e); cbn; auto.
Qed.

Lemma created_table_survives_failed_sync_witness :
  fst (sync_table "users" state_with_archived_source)
  = Raise (undefined_table "users")
  /\ exists tb,
       find_table (conn_committed
                     (target_conn
                        (snd (sync_table "users" state_with_archived_source))))
                  public "users" = Some tb.
Proof.
  split; [reflexivity|].
  exact (proj1 (proj2 (proj2
    (created_table_survives_failed_sync
       "users" state_with_archived_source
       (snd (check_and_create_table "users" state_with_archived_source))
       eq_refl eq_refl)))
    _ _ eq_refl).
Defined.

(* ------------------------------------------------------------------ *)
(** ** Connections at the end of the run *)

Lemma sync_table_keeps_open_state (t : string) (s : state)
  (r : outcome unit) (s' : state) :
  sync_table t s = (r, s') ->
  conn_closed (target_conn s') = conn_closed (target_conn s)
  /\ conn_closed (source_conn s') = conn_closed (source_conn s).
Proof.
  rewrite sync_table_unfold.
  destruct (sync_table_body t s) as [rb sb] eqn:Hb.
  assert (Hsb : conn_closed (target_conn sb) = conn_closed (target_conn s)
                /\ conn_closed (source_conn sb) = conn_closed (source_conn s)).
  { apply sync_table_body_cases in Hb as [(e & Hc & _)|(s1 & Hc & Hr)].
    - apply check_and_create_table_summary in Hc as ((_ & _ & Hs) & Ht & _).
      auto.
    - apply check_and_create_table_summary in Hc as ((_ & _ & Hs) & Ht & _).
      apply sync_rows_summary in Hr as ((_ & _ & Hs') & Ht' & _).
      split; congruence. }
  destruct rb as [[]|e]; [intros H; inversion H; subst; exact Hsb|].
  destruct (is_integrity_error e); intros H; inversion H; subst; exact Hsb.
Qed.

Lemma for_each_sync_table_keeps_open_state :
  forall (tables : list string) (s : state) (r : outcome unit) (s' : state),
    for_each tables sync_table s = (r, s') ->
    conn_closed (target_conn s') = conn_closed (target_conn s)
    /\ conn_closed (source_conn s') = conn_closed (source_conn s).
Proof.
  induction tables as [|t tables IH]; intros s r s' H; cbn [for_each] in H.
  - inversion H; subst. auto.
  - unfold bind in H. destruct (sync_table t s) as [[[]|e] s1] eqn:Ht;
      apply sync_table_keeps_open_state in Ht as [Ht1 Ht2].
    + apply IH in H as [H1 H2]. split; congruence.
    + inversion H; subst. auto.
Qed.

Lemma sync_all_tables_keeps_open_state (s : state) :
  conn_closed (target_conn (snd (sync_all_tables s)))
  = conn_closed (target_conn s)
  /\ conn_closed (source_conn (snd (sync_all_tables s)))
     = conn_closed (source_conn s).
Proof.
  rewrite sync_all_tables_unfold.
  destruct (for_each (tables_in (source_db s) public) sync_table (listed s))
    as [[[]|e] s'] eqn:H;
    apply for_each_sync_table_keeps_open_state in H as [H1 H2]; cbn; auto.
Qed.

(** C8, as stated, fails: on a run that syncs one table and returns
    normally, the program has closed neither connection when [main] is
    left. *)
Lemma main_does_not_release_connections :
  fst (main prod_server dev_server) = Ok tt
  /\ ~ closed_by_the_program (snd (main prod_server dev_server)).
Proof.
  split; [vm_compute; reflexivity|].
  intros [Ht _].
  assert (H : exists c, p_target (snd (main prod_server dev_server)) = Some c
                        /\ conn_closed c = false).
  { vm_compute. eexists. split; reflexivity. }
  destruct H as (c & Hc & Hopen). apply Ht in Hc. congruence.
Qed.

(** C8, amended: [main] never closes a connection.  On every exit path,
    normal or by an exception, the program has not called [close()] on any
    connection that was opened, so no connection is released by the
    program.  Closing is what [close_connections] does, for both
    connections, when a caller invokes it; [main] does not. *)
Theorem main_never_closes_connections :
  forall (prod_db_config dev_db_config : server),
    (forall c, p_target (snd (main prod_db_config dev_db_config)) = Some c ->
               conn_closed c = false)
    /\ (forall c, p_source (snd (main prod_db_config dev_db_config)) = Some c ->
                  conn_closed c = false)
    /\ (fst (main prod_db_config dev_db_config) = Ok tt ->
        ~ closed_by_the_program (snd (main prod_db_config dev_db_config)))
    /\ (forall s, fst (close_connections s) = Ok tt
                  /\ conn_closed (source_conn (snd (close_connections s))) = true
                  /\ conn_closed (target_conn (snd (close_connections s))) = true).
Proof.
  intros prod dev.
  assert (H : (forall c, p_target (snd (main prod dev)) = Some c ->
                         conn_closed c = false)
              /\ (forall c, p_source (snd (main prod dev)) = Some c ->
                            conn_closed c = false)
              /\ (fst (main prod dev) = Ok tt ->
                  exists c, p_target (snd (main prod dev)) = Some c)).
  { unfold main, connect.
    destruct (srv_up dev); [|cbn; repeat split; intros; discriminate].
    destruct (srv_up prod).
    - match goal with
      | |- context [sync_all_tables ?s0] =>
          pose proof (sync_all_tables_keeps_open_state s0) as [H1 H2];
          destruct (sync_all_tables s0) as [r s']
      end.
      cbn in *. split; [|split].
      + intros c Hc; inversion Hc; subst; assumption.
      + intros c Hc; inversion Hc; subst; assumption.
      + intros _. eexists. reflexivity.
    - cbn. split; [|split].
      + intros c Hc; inversion Hc; subst; reflexivity.
      + intros c Hc; discriminate.
      + intros H; discriminate. }
  destruct H as (Ht & Hs & Hsome).
  split; [exact Ht|]. split; [exact Hs|]. split.
  - intros Hok [Hclosed _]. destruct (Hsome Hok) as (c & Hc).
    pose proof (Ht c Hc). pose proof (Hclosed c Hc). congruence.
  - intros s. cbn. auto.
Qed.

(* ------------------------------------------------------------------ *)
(** ** Keys of rows *)

Lemma value_eqb_eq (a b : value) : value_eqb a b = true -> a = b.
Proof.
  destruct a, b; cbn; try discriminate; intros H; try reflexivity.
  - apply Bool.eqb_prop in H. congruence.
  - apply Z.eqb_eq in H. congruence.
  - apply String.eqb_eq in H. congruence.
Qed.

Lemma value_eqb_refl (a : value) : value_eqb a a = true.
Proof.
  destruct a; cbn; auto using Bool.eqb_reflx, Z.eqb_refl, String.eqb_refl.
Qed.

Lemma sql_eq_eq (a b : value) : sql_eq a b = true -> a = b.
Proof.
  destruct a, b; cbn; try discriminate; intros H; apply value_eqb_eq;
    exact H.
Qed.


Lemma index_opt_of_memb (k : string) (xs : list string) :
  memb k xs = true ->
  exists i, index_opt k xs = Some i /\ nth_error xs i = Some k.
Proof.
  unfold memb. induction xs as [|x xs IH]; cbn [existsb index_opt].
  - discriminate.
  - rewrite (String.eqb_sym k x). destruct (String.eqb x k) eqn:E.
    + apply String.eqb_eq in E. subst. intros _. exists 0. auto.
    + cbn [orb]. intros H. destruct (IH H) as (i & Hi & Hn).
      exists (S i). rewrite Hi. auto.
Qed.

(** Laying a row out along the target's columns keeps the value of every
    column the target has. *)
Lemma field_laid_out (cols : list string) (tb : table) (r : row) (k : string) :
  memb k (column_names tb) = true ->
  field (column_names tb) (laid_out cols tb r) k = field cols r k.
Proof.
  intros H. destruct (index_opt_of_memb k (column_names tb) H) as (i & Hi & Hn).
  unfold field at 1. rewrite Hi. unfold laid_out.
  apply nth_error_nth. rewrite nth_error_map, Hn. reflexivity.
Qed.

Lemma key_of_laid_out (cols : list string) (tb : table) (r : row)
  (keys : list string) :
  forallb (fun k => memb k (column_names tb)) keys = true ->
  key_of (column_names tb) keys (laid_out cols tb r) = key_of cols keys r.
Proof.
  intros H. unfold key_of. apply map_ext_in. intros k Hk.
  apply field_laid_out. rewrite forallb_forall in H. auto.
Qed.

(** A row satisfies the WHERE clause for [vals] exactly when its key
    compares equal to [vals], value by value. *)
Lemma matches_by_key (cols : list string) (r : row) :
  forall (keys : list string) (vals : list value),
    matches cols keys vals r
    = forallb (fun p => sql_eq (fst p) (snd p))
              (combine (key_of cols keys r) vals).
Proof.
  unfold matches, key_of.
  induction keys as [|k keys IH]; intros vals; [reflexivity|].
  destruct vals as [|v vals]; [reflexivity|].
  cbn [map combine forallb fst snd]. rewrite IH. reflexivity.
Qed.

Lemma compared_equal :
  forall (xs ys : list value),
    List.length xs = List.length ys ->
    forallb (fun p => sql_eq (fst p) (snd p)) (combine xs ys) = true ->
    xs = ys.
Proof.
  induction xs as [|x xs IH]; intros [|y ys] Hl H; try discriminate;
    [reflexivity|].
  cbn [combine forallb fst snd] in H. apply andb_true_iff in H as [H1 H2].
  apply sql_eq_eq in H1. subst. f_equal. apply IH; [|exact H2].
  cbn in Hl. lia.
Qed.


Lemma matches_key (cols keys : list string) (vals : list value) (r : row) :
  List.length vals = List.length keys ->
  matches cols keys vals r = true ->
  key_of cols keys r = vals.
Proof.
  intros Hl H. rewrite matches_by_key in H.
  apply compared_equal; [rewrite key_of_length; auto|exact H].
Qed.




(* ------------------------------------------------------------------ *)
(** ** Rows that are already in the target *)

Lemma ensured_present (d d1 : database) (t : string) (tb : table) :
  find_table d public t = Some tb -> ensured d d1 t -> d1 = d.
Proof.
  intros Hf [->|(Hex & _)]; [reflexivity|].
  apply table_exists_of_find in Hf. congruence.
Qed.

(** C5: let the target table hold a row whose values at the source's
    primary-key columns are [k].  The bulk insert is an
    [INSERT ... ON CONFLICT DO NOTHING], under which a row whose key is
    already in the table is dropped without an error and the table is left
    as it was.  [sync_table] does not even report a source row with key [k]
    as missing, so no such row reaches the bulk insert.  Whatever the
    outcome, the table keeps its columns and all the rows it had, in order;
    the rows added after them have another key, so the rows of the target
    with key [k] are exactly those it had. *)
Theorem existing_target_row_is_kept :
  forall (t : string) (s : state) (stb ttb : table) (k : list value)
         (r : outcome unit) (s' : state),
    clean s ->
    find_table (source_db s) public t = Some stb ->
    find_table (target_db s) public t = Some ttb ->
    List.length k = List.length (t_pkey stb) ->
    existsb (matches (column_names ttb) (t_pkey stb) k) (t_rows ttb) = true ->
    sync_table t s = (r, s') ->
    as_string (insert_missing_rows t (column_names stb))
    = "INSERT INTO " ++ quote_ident t ++ " ("
      ++ String.concat ", " (map quote_ident (column_names stb))
      ++ ") VALUES %s ON CONFLICT DO NOTHING"
    /\ (forall cols tb r0,
          existsb (fun c => is_null (field (column_names tb)
                                           (laid_out cols tb r0) c))
                  (t_pkey tb) = false ->
          conflicts tb (laid_out cols tb r0) = true ->
          insert_row cols tb r0 = Ok tb)
    /\ (forall s1 m cols s2,
          check_and_create_table t s = (Ok tt, s1) ->
          get_missing_rows t s1 = (Ok (m, cols), s2) ->
          forall r0, In r0 m -> key_of cols (t_pkey stb) r0 <> k)
    /\ exists ttb' added,
         find_table (target_db s') public t = Some ttb'
         /\ conn_committed (target_conn s') = target_db s'
         /\ t_columns ttb' = t_columns ttb
         /\ t_rows ttb' = (t_rows ttb ++ added)%list
         /\ Forall (fun r' => matches (column_names ttb) (t_pkey stb) k r'
                              = false) added
         /\ filter (matches (column_names ttb) (t_pkey stb) k) (t_rows ttb')
            = filter (matches (column_names ttb) (t_pkey stb) k) (t_rows ttb).
Proof.
  intros t s stb ttb k r s' Hclean Hfs Hft Hlen Hrow Hsync.
  assert (Hmissing :
    forall s1 m cols s2,
      check_and_create_table t s = (Ok tt, s1) ->
      get_missing_rows t s1 = (Ok (m, cols), s2) ->
      (m <> [] -> cols = column_names stb
                  /\ forallb (fun c => memb c (column_names ttb))
                             (t_pkey stb) = true)
      /\ forall r0, In r0 m -> key_of cols (t_pkey stb) r0 <> k).
  { intros s1 m cols s2 Hc Hg.
    destruct (check_and_create_table_summary t s (Ok tt) s1 Hc)
      as ((Hsrc & _) & _ & _ & _ & Hdata).
    assert (Hfs1 : find_table (source_db s1) public t = Some stb).
    { unfold source_db in *. rewrite Hsrc. exact Hfs. }
    assert (Hd1 : target_db s1 = target_db s).
    { destruct Hdata as [[Hd _]|(_ & Hex & _)]; [exact Hd|].
      apply table_exists_of_find in Hft. congruence. }
    destruct (t_pkey stb) as [|k0 ks] eqn:Hk.
    { rewrite (get_missing_rows_no_key t s1 stb
                 (get_missing_rows_ok_plain t s1 _ _ Hg) Hfs1 Hk) in Hg.
      inversion Hg; subst. split; [congruence|intros ? []]. }
    rewrite <- Hk in *.
    assert (Hne : t_pkey stb <> []) by (rewrite Hk; discriminate).
    destruct (get_missing_rows_ok t s1 stb m cols s2 Hfs1 Hne Hg)
      as (-> & Hall & Hm & _).
    rewrite Hd1 in Hall, Hm.
    split.
    - intros Hmne. split; [reflexivity|].
      destruct (t_rows stb) as [|r0 rows]; [cbn in Hm; congruence|].
      inversion Hall as [|? ? (dct & tb & _ & _ & Hf & Hkc) _]; subst.
      rewrite Hft in Hf. inversion Hf; subst. exact Hkc.
    - intros r0 Hin Hkey. rewrite Hm in Hin.
      apply filter_In in Hin as [_ Hhit]. apply negb_true_iff in Hhit.
      unfold probe_hit in Hhit. rewrite Hft, Hkey, Hrow in Hhit.
      discriminate. }
  split.
  { unfold insert_missing_rows.
    rewrite format_insert, as_string_composed. cbn [fold_right].
    rewrite as_string_join, map_map. reflexivity. }
  split.
  { intros cols tb r0 Hnull Hconf. unfold insert_row.
    fold (laid_out cols tb r0). rewrite Hnull, Hconf. reflexivity. }
  split; [intros s1 m cols s2 Hc Hg; eapply Hmissing; eauto|].
  destruct (sync_table_data t s r s' Hclean Hsync)
    as (Hclean' & _ & _ & d1 & Hens & Hd).
  apply (ensured_present _ _ _ _ Hft) in Hens. subst d1.
  unfold clean in Hclean'.
  destruct Hd as [Hd|(_ & m & cols & s1 & s2 & tb & tb' & Hc & _ & Hg & Hmne
                      & Hf & Hcols & Hi & Hd)].
  - exists ttb, []. rewrite Hd, app_nil_r. repeat split; auto.
    unfold target_db in *. congruence.
  - rewrite Hft in Hf. inversion Hf; subst tb. clear Hf.
    destruct (Hmissing s1 m cols s2 Hc Hg) as (Hkeys & Hother).
    destruct (Hkeys Hmne) as [-> Hkcols].
    destruct (insert_rows_ok _ _ _ _ Hi) as (Hc' & _ & added & Hrows & Hadded).
    assert (Hfalse : Forall (fun r' => matches (column_names ttb) (t_pkey stb)
                                               k r' = false) added).
    { eapply Forall_impl; [|exact Hadded]. cbn beta.
      intros r' (r0 & Hin & ->).
      destruct (matches (column_names ttb) (t_pkey stb) k
                        (laid_out (column_names stb) ttb r0)) eqn:E;
        [|reflexivity].
      apply matches_key in E; [|exact Hlen].
      rewrite key_of_laid_out in E by exact Hkcols.
      elim (Hother r0 Hin E). }
    exists tb', added. rewrite Hd, find_table_set_table_same.
    split; [reflexivity|]. split; [unfold target_db in *; congruence|].
    split; [exact Hc'|]. split; [exact Hrows|]. split; [exact Hfalse|].
    rewrite Hrows, filter_app.
    assert (Hnil : filter (matches (column_names ttb) (t_pkey stb) k) added
                   = []).
    { clear - Hfalse. induction Hfalse as [|x xs Hx _ IH]; [reflexivity|].
      cbn [filter]. rewrite Hx. exact IH. }
    rewrite Hnil, app_nil_r. reflexivity.
Qed.

Lemma existing_target_row_is_kept_witness :
  exists ttb' added,
    find_table (target_db (snd (sync_table "users" state_with_old_user)))
               public "users" = Some ttb'
    /\ conn_committed (target_conn (snd (sync_table "users" state_with_old_user)))
       = target_db (snd (sync_table "users" state_with_old_user))
    /\ t_columns ttb' = [("id", "integer"); ("name", "text")]
    /\ t_rows ttb' = ([[VInt 1; VStr "old"]] ++ added)%list
    /\ Forall (fun r' => matches ["id"; "name"] ["id"] [VInt 1] r' = false)
              added
    /\ filter (matches ["id"; "name"] ["id"] [VInt 1]) (t_rows ttb')
       = [[VInt 1; VStr "old"]].
Proof.
  exact (proj2 (proj2 (proj2
    (existing_target_row_is_kept
       "users" state_with_old_user users
       (mkTable [("id", "integer"); ("name", "text")] ["id"]
                [[VInt 1; VStr "old"]])
       [VInt 1]
       (fst (sync_table "users" state_with_old_user))
       (snd (sync_table "users" state_with_old_user))
       eq_refl eq_refl eq_refl eq_refl eq_refl eq_refl)))).
Defined.

(* ------------------------------------------------------------------ *)
(** ** A sync that went through *)





(* ------------------------------------------------------------------ *)
(** ** Inclusion of the source rows *)


(** A second way for a source row to stay out of the target: the target
    keys [pairs] on another column than the source does, the second row
    conflicts there and is dropped by ON CONFLICT DO NOTHING, and the sync
    is logged as a success. *)
Example conflicting_row_is_dropped_silently :
  fst (sync_table_body "pairs" state_with_pairs) = Ok tt
  /\ find_table (target_db (snd (sync_table_body "pairs" state_with_pairs)))
                public "pairs"
     = Some (mkTable [("a", "integer"); ("b", "integer")] ["b"]
                     [[VInt 1; VInt 5]])
  /\ logger (snd (sync_table_body "pairs" state_with_pairs))
     = [(INFO, "pairs already exists in target database.");
        (INFO, "Synced table pairs successfully with 2 rows.")].
Proof. vm_compute. auto. Qed.




(* ------------------------------------------------------------------ *)
(** ** Running the sync again *)







(* ------------------------------------------------------------------ *)
(** ** What a run does to the two databases *)

Lemma grows_refl (d : database) : grows d d.
Proof.
  intros schema n tb H. exists tb, []. rewrite app_nil_r. auto.
Qed.

Lemma grows_trans (d1 d2 d3 : database) :
  grows d1 d2 -> grows d2 d3 -> grows d1 d3.
Proof.
  intros H12 H23 schema n tb H.
  destruct (H12 schema n tb H) as (tb2 & a2 & Hf2 & Hc2 & Hk2 & Hr2).
  destruct (H23 schema n tb2 Hf2) as (tb3 & a3 & Hf3 & Hc3 & Hk3 & Hr3).
  exists tb3, (a2 ++ a3)%list. rewrite Hr3, Hr2, <- app_assoc.
  repeat split; congruence.
Qed.

Lemma grows_set_table (d : database) (t : string) (tb' : table) :
  (forall tb, find_table d public t = Some tb ->
              t_columns tb' = t_columns tb /\ t_pkey tb' = t_pkey tb
              /\ exists added, t_rows tb' = (t_rows tb ++ added)%list) ->
  grows d (set_table d public t tb').
Proof.
  intros Hsame schema n tb H. rewrite find_table_set_table.
  destruct (same_name public t schema n) eqn:E.
  - apply same_name_true in E as [<- <-].
    destruct (Hsame tb H) as (Hc & Hk & added & Hr).
    exists tb', added. auto.
  - exists tb, []. rewrite app_nil_r. auto.
Qed.

Lemma same_elsewhere_set_table (d : database) (t : string) (tb' : table) :
  same_elsewhere t d (set_table d public t tb').
Proof.
  intros schema n Hne. apply find_table_set_table_other. exact Hne.
Qed.

Lemma ensured_grows (d d1 : database) (t : string) :
  ensured d d1 t -> grows d d1 /\ same_elsewhere t d d1.
Proof.
  intros [->|(Hex & cols & ->)].
  - split; [apply grows_refl|intros schema n _; reflexivity].
  - split; [|apply same_elsewhere_set_table].
    apply grows_set_table. intros tb Hf.
    rewrite (find_of_table_absent d public t Hex) in Hf. discriminate.
Qed.

Lemma inserted_grows (t : string) (s : state) (d1 d' : database) :
  inserted t s d1 d' -> grows d1 d' /\ same_elsewhere t d1 d'.
Proof.
  intros (m & cols & s1 & s2 & tb & tb' & _ & _ & _ & _ & Hf & _ & Hi & ->).
  split; [|apply same_elsewhere_set_table].
  apply grows_set_table. intros tb0 Hf0. rewrite Hf in Hf0.
  inversion Hf0; subst tb0.
  destruct (insert_rows_ok cols m tb tb' Hi) as (Hc & Hk & added & Hr & _).
  eauto.
Qed.

(** One table: started with nothing pending, [sync_table] ends with nothing
    pending, leaves the source's data alone, only adds to the target, and
    only in table [t]. *)
Lemma sync_table_effect (t : string) (s : state) (r : outcome unit)
  (s' : state) :
  clean s ->
  sync_table t s = (r, s') ->
  clean s'
  /\ same_data (source_conn s) (source_conn s')
  /\ grows (target_db s) (target_db s')
  /\ same_elsewhere t (target_db s) (target_db s').
Proof.
  intros Hclean H.
  destruct (sync_table_data t s r s' Hclean H)
    as (Hc & Hsrc & _ & d1 & Hens & Hd).
  destruct (ensured_grows _ _ _ Hens) as (Hg1 & He1).
  split; [exact Hc|]. split; [exact Hsrc|].
  destruct Hd as [->|[_ Hins]]; [auto|].
  destruct (inserted_grows _ _ _ _ Hins) as (Hg2 & He2).
  split; [eapply grows_trans; eauto|].
  intros schema n Hne. rewrite (He2 schema n Hne). apply He1. exact Hne.
Qed.

Lemma for_each_sync_table_effect :
  forall (tables : list string) (s : state) (r : outcome unit) (s' : state),
    clean s ->
    for_each tables sync_table s = (r, s') ->
    clean s'
    /\ same_data (source_conn s) (source_conn s')
    /\ grows (target_db s) (target_db s')
    /\ (forall schema n, ~ (schema = public /\ In n tables) ->
          find_table (target_db s') schema n
          = find_table (target_db s) schema n).
Proof.
  induction tables as [|t tables IH]; intros s r s' Hclean H;
    cbn [for_each] in H.
  - inversion H; subst. split; [exact Hclean|]. split; [auto|].
    split; [apply grows_refl|reflexivity].
  - unfold bind in H. destruct (sync_table t s) as [[[]|e] s1] eqn:Ht;
      destruct (sync_table_effect t s _ s1 Hclean Ht)
        as (Hc1 & Hs1 & Hg1 & He1).
    + destruct (IH s1 r s' Hc1 H) as (Hc & Hs & Hg & He).
      split; [exact Hc|]. split; [eapply same_data_trans; eauto|].
      split; [eapply grows_trans; eauto|].
      intros schema n Hn. rewrite He.
      * apply He1. intros Heq. inversion Heq; subst.
        apply Hn. split; [reflexivity|left; reflexivity].
      * intros [Hp Hin]. apply Hn. split; [exact Hp|right; exact Hin].
    + inversion H; subst. split; [exact Hc1|]. split; [exact Hs1|].
      split; [exact Hg1|]. intros schema n Hn. apply He1.
      intros Heq. inversion Heq; subst.
      apply Hn. split; [reflexivity|left; reflexivity].
Qed.

Lemma sync_all_tables_effect (s : state) :
  clean s ->
  clean (snd (sync_all_tables s))
  /\ same_data (source_conn s) (source_conn (snd (sync_all_tables s)))
  /\ grows (target_db s) (target_db (snd (sync_all_tables s)))
  /\ (forall schema n,
        ~ (schema = public /\ In n (tables_in (source_db s) public)) ->
        find_table (target_db (snd (sync_all_tables s))) schema n
        = find_table (target_db s) schema n).
Proof.
  intros Hclean. rewrite sync_all_tables_unfold.
  destruct (for_each (tables_in (source_db s) public) sync_table (listed s))
    as [r s'] eqn:H.
  destruct (for_each_sync_table_effect _ (listed s) r s' Hclean H)
    as (Hc & Hs & Hg & He).
  assert (Hsrc : same_data (source_conn s) (source_conn s')).
  { eapply same_data_trans; [|exact Hs]. cbn. auto. }
  destruct r as [[]|e]; cbn; auto.
Qed.

(** X1: a run of [sync_all_tables] that starts with nothing pending on the
    target never takes anything away from it, however the run ends: every
    table the target had is still there with the same columns and key, and
    has all its rows, unchanged and in order, possibly followed by new
    ones. *)
Theorem sync_all_tables_only_adds_to_target :
  forall (s : state),
    clean s ->
    grows (target_db s) (target_db (snd (sync_all_tables s)))
    /\ grows (conn_committed (target_conn s))
             (conn_committed (target_conn (snd (sync_all_tables s)))).
Proof.
  intros s Hclean.
  destruct (sync_all_tables_effect s Hclean) as (Hc & _ & Hg & _).
  split; [exact Hg|]. unfold clean, target_db in *.
  rewrite <- Hc, <- Hclean. exact Hg.
Qed.

Lemma sync_all_tables_only_adds_to_target_witness :
  grows (target_db state_with_old_user)
        (target_db (snd (sync_all_tables state_with_old_user))).
Proof.
  exact (proj1 (sync_all_tables_only_adds_to_target
                  state_with_old_user eq_refl)).
Defined.

(** X2: a run of [sync_all_tables] that starts with nothing pending on the
    target changes nothing of the target outside the tables of schema
    public that are named like a table of the source's schema public: any
    other table, and any schema other than public, is after the run what it
    was before, however the run ends. *)
Theorem sync_all_tables_touches_listed_tables_only :
  forall (s : state) (schema n : string),
    clean s ->
    ~ (schema = public /\ In n (tables_in (source_db s) public)) ->
    find_table (target_db (snd (sync_all_tables s))) schema n
    = find_table (target_db s) schema n.
Proof.
  intros s schema n Hclean Hn.
  destruct (sync_all_tables_effect s Hclean) as (_ & _ & _ & He).
  apply He. exact Hn.
Qed.

Lemma users_is_not_in_archive :
  ~ ("archive" = public
     /\ In "users" (tables_in (source_db state_with_archived_users) public)).
Proof. intros [H _]. discriminate H. Qed.

Lemma sync_all_tables_touches_listed_tables_only_witness :
  find_table (target_db (snd (sync_all_tables state_with_archived_users)))
             "archive" "users"
  = Some archived_users.
Proof.
  exact (sync_all_tables_touches_listed_tables_only
           state_with_archived_users "archive" "users" eq_refl
           users_is_not_in_archive).
Defined.

(** X4: a run of [sync_all_tables] that starts with nothing pending on the
    target ends with nothing pending on it, on the normal path and on every
    raising path; [close_connections] after the run therefore discards no
    work, and leaves both connections closed. *)
Theorem sync_all_tables_leaves_nothing_pending :
  forall (s : state),
    clean s ->
    clean (snd (sync_all_tables s))
    /\ conn_committed
         (target_conn (snd (close_connections (snd (sync_all_tables s)))))
       = target_db (snd (sync_all_tables s))
    /\ conn_closed
         (target_conn (snd (close_connections (snd (sync_all_tables s)))))
       = true
    /\ conn_closed
         (source_conn (snd (close_connections (snd (sync_all_tables s)))))
       = true.
Proof.
  intros s Hclean.
  destruct (sync_all_tables_effect s Hclean) as (Hc & _).
  split; [exact Hc|]. unfold clean, target_db in *. cbn.
  split; [symmetry; exact Hc|auto].
Qed.

Lemma sync_all_tables_leaves_nothing_pending_witness :
  clean (snd (sync_all_tables state_with_items)).
Proof.
  exact (proj1 (sync_all_tables_leaves_nothing_pending
                  state_with_items eq_refl)).
Defined.

Lemma sync_table_keeps_source (t : string) (s : state) (r : outcome unit)
  (s' : state) :
  sync_table t s = (r, s') -> same_data (source_conn s) (source_conn s').
Proof.
  rewrite sync_table_unfold.
  destruct (sync_table_body t s) as [rb sb] eqn:Hb.
  assert (Hsb : same_data (source_conn s) (source_conn sb)).
  { apply sync_table_body_cases in Hb as [(e & Hc & _)|(s1 & Hc & Hr)].
    - apply check_and_create_table_summary in Hc as (Hs & _). exact Hs.
    - apply check_and_create_table_summary in Hc as (Hs & _).
      apply sync_rows_summary in Hr as (Hs' & _).
      eapply same_data_trans; eauto. }
  destruct rb as [[]|e]; [intros H; inversion H; subst; exact Hsb|].
  destruct (is_integrity_error e); intros H; inversion H; subst; exact Hsb.
Qed.

Lemma for_each_sync_table_keeps_source :
  forall (tables : list string) (s : state) (r : outcome unit) (s' : state),
    for_each tables sync_table s = (r, s') ->
    same_data (source_conn s) (source_conn s').
Proof.
  induction tables as [|t tables IH]; intros s r s' H; cbn [for_each] in H.
  - inversion H; subst. auto.
  - unfold bind in H. destruct (sync_table t s) as [[[]|e] s1] eqn:Ht;
      apply sync_table_keeps_source in Ht.
    + eapply same_data_trans; [exact Ht|]. eapply IH; eauto.
    + inversion H; subst. exact Ht.
Qed.

(** X3: the source is only read.  Whatever state [sync_all_tables] starts
    in and however it ends, the source connection holds the same working
    data and the same committed data after the run as before, and is as
    open as it was; the same holds of a single [sync_table] and of
    [get_missing_rows], which leaves the target's data alone as well. *)
Theorem source_is_only_read :
  forall (s : state) (t : string),
    same_data (source_conn s) (source_conn (snd (sync_all_tables s)))
    /\ same_data (source_conn s) (source_conn (snd (sync_table t s)))
    /\ same_data (source_conn s) (source_conn (snd (get_missing_rows t s)))
    /\ same_data (target_conn s) (target_conn (snd (get_missing_rows t s))).
Proof.
  intros s t. split; [|split].
  - rewrite sync_all_tables_unfold.
    destruct (for_each (tables_in (source_db s) public) sync_table (listed s))
      as [r s'] eqn:H.
    apply for_each_sync_table_keeps_source in H.
    assert (Hsrc : same_data (source_conn s) (source_conn s')).
    { eapply same_data_trans; [|exact H]. cbn. auto. }
    destruct r as [[]|e]; cbn; exact Hsrc.
  - destruct (sync_table t s) as [r s'] eqn:H.
    apply sync_table_keeps_source in H. exact H.
  - destruct (get_missing_rows t s) as [r s'] eqn:H.
    apply get_missing_rows_frame in H as [Ht Hs]. auto.
Qed.

(* ------------------------------------------------------------------ *)
(** ** Copying a table the target does not have *)

Lemma memb_In (k : string) (xs : list string) : memb k xs = true <-> In k xs.
Proof.
  unfold memb. rewrite existsb_exists. split.
  - intros (x & Hin & E). apply String.eqb_eq in E. subst. exact Hin.
  - intros Hin. exists k. split; [exact Hin|apply String.eqb_refl].
Qed.

Lemma nodupb_cons (x : string) (xs : list string) :
  nodupb (x :: xs) = true <-> ~ In x xs /\ nodupb xs = true.
Proof.
  cbn [nodupb]. rewrite andb_true_iff, negb_true_iff. fold (memb x xs).
  split; intros [H1 H2]; split; auto.
  - intros Hin. apply memb_In in Hin. congruence.
  - destruct (memb x xs) eqn:E; [|reflexivity].
    apply memb_In in E. contradiction.
Qed.

Lemma dict_set_fresh (d : dict) (k : string) (v : value) :
  ~ In k (map fst d) -> dict_set d k v = (d ++ [(k, v)])%list.
Proof.
  induction d as [|[k' v'] d IH]; intros Hn; cbn [dict_set app];
    [reflexivity|].
  cbn [map fst In] in Hn. destruct (String.eqb k' k) eqn:E.
  - apply String.eqb_eq in E. tauto.
  - rewrite IH by tauto. reflexivity.
Qed.

(** With distinct key columns, all of them columns of the scan, and a row
    as long as the column list, the dict comprehension yields the key. *)
Lemma pk_values_of_total (cols : list string) (r : row) :
  List.length r = List.length cols ->
  forall (keys : list string) (d0 : dict),
    nodupb keys = true ->
    forallb (fun k => memb k cols) keys = true ->
    (forall k, In k keys -> ~ In k (map fst d0)) ->
    pk_values_of cols r keys d0
    = Ok (d0 ++ map (fun k => (k, field cols r k)) keys)%list.
Proof.
  intros Hlen. induction keys as [|k keys IH]; intros d0 Hnd Hm Hfresh.
  - cbn. rewrite app_nil_r. reflexivity.
  - apply nodupb_cons in Hnd as [Hk Hnd].
    cbn [forallb] in Hm. apply andb_true_iff in Hm as [Hkm Hm].
    destruct (index_opt_of_memb k cols Hkm) as (i & Hi & Hn).
    assert (Hlt : i < List.length r).
    { rewrite Hlen. apply nth_error_Some. congruence. }
    destruct (nth_error r i) as [v|] eqn:Hv;
      [|apply nth_error_None in Hv; lia].
    assert (Hf : field cols r k = v).
    { unfold field. rewrite Hi. apply nth_error_nth. exact Hv. }
    cbn [pk_values_of]. unfold list_index, getitem. rewrite Hi, Hv.
    rewrite dict_set_fresh by (apply Hfresh; left; reflexivity).
    rewrite IH; [|exact Hnd|exact Hm|].
    + rewrite <- app_assoc. cbn [map app]. rewrite Hf. reflexivity.
    + intros k' Hin. rewrite map_app, in_app_iff. cbn.
      intros [H|[H|[]]].
      * apply (Hfresh k' (or_intror Hin) H).
      * subst. contradiction.
Qed.

Lemma index_opt_app_fresh (c : string) (pre rest : list string) :
  ~ In c pre -> index_opt c (pre ++ c :: rest)%list = Some (List.length pre).
Proof.
  induction pre as [|p pre IH]; intros Hn; cbn [app index_opt List.length].
  - rewrite String.eqb_refl. reflexivity.
  - cbn [In] in Hn. destruct (String.eqb p c) eqn:E.
    + apply String.eqb_eq in E. tauto.
    + rewrite IH by tauto. reflexivity.
Qed.

Lemma fields_of_row :
  forall (cols pre : list string) (r rpre : row),
    nodupb (pre ++ cols)%list = true ->
    List.length rpre = List.length pre ->
    List.length r = List.length cols ->
    map (field (pre ++ cols)%list (rpre ++ r)%list) cols = r.
Proof.
  induction cols as [|c cols IH]; intros pre r rpre Hnd Hp Hl.
  - destruct r; [reflexivity|discriminate].
  - destruct r as [|v r]; [discriminate|]. cbn [map]. f_equal.
    + unfold field. rewrite index_opt_app_fresh.
      * rewrite <- Hp, nth_middle. reflexivity.
      * clear - Hnd. induction pre as [|p pre IH]; [intros []|].
        cbn [app] in Hnd. apply nodupb_cons in Hnd as [Hp Hnd].
        intros [->|Hin]; [|exact (IH Hnd Hin)].
        apply Hp. apply in_or_app. right. left. reflexivity.
    + change (pre ++ c :: cols)%list with (pre ++ [c] ++ cols)%list.
      change (rpre ++ v :: r)%list with (rpre ++ [v] ++ r)%list.
      rewrite !app_assoc. apply IH.
      * rewrite <- app_assoc. exact Hnd.
      * rewrite !length_app. cbn. lia.
      * cbn in Hl. lia.
Qed.

(** A row of the right length, laid out along the very columns it came
    with, is the row itself. *)
Lemma laid_out_same_columns (tb : table) (r : row) :
  nodupb (column_names tb) = true ->
  List.length r = List.length (column_names tb) ->
  laid_out (column_names tb) tb r = r.
Proof.
  intros Hnd Hl. unfold laid_out.
  exact (fields_of_row (column_names tb) [] r [] Hnd eq_refl Hl).
Qed.

Lemma insert_rows_without_key (cols : list string) :
  forall (rows : list row) (tb : table),
    t_pkey tb = [] ->
    insert_rows cols tb rows
    = Ok (mkTable (t_columns tb) []
                  (t_rows tb ++ map (laid_out cols tb) rows)).
Proof.
  induction rows as [|r rows IH]; intros tb Hk; cbn [insert_rows map].
  - rewrite app_nil_r. destruct tb; cbn in *; subst. reflexivity.
  - unfold insert_row, conflicts. rewrite Hk. cbn [existsb].
    rewrite IH by reflexivity. cbn [t_columns t_rows].
    rewrite <- app_assoc. reflexivity.
Qed.

Lemma filter_all_true {A : Type} (f : A -> bool) (l : list A) :
  (forall x, In x l -> f x = true) -> filter f l = l.
Proof.
  induction l as [|x l IH]; intros H; [reflexivity|].
  cbn [filter]. rewrite (H x (or_introl eq_refl)). f_equal.
  apply IH. intros y Hy. apply H. right. exact Hy.
Qed.

Lemma memb_all_self (xs : list string) :
  forallb (fun c => memb c xs) xs = true.
Proof.
  apply forallb_forall. intros x Hin. apply memb_In. exact Hin.
Qed.

Lemma run_insert_total (t : string) (cols : list string) (rows : list row)
  (d : database) (tb tb' : table) :
  find_table d public t = Some tb ->
  nodupb cols = true ->
  forallb (fun c => memb c (column_names tb)) cols = true ->
  forallb (fun r => Nat.eqb (List.length r) (List.length cols)) rows = true ->
  insert_rows cols tb rows = Ok tb' ->
  run (RInsert t cols rows) d = (Ok no_result, set_table d public t tb').
Proof.
  intros Hf Hn Hc Hl Hi. unfold run. rewrite Hf, Hn, Hc, Hl, Hi. reflexivity.
Qed.

(** Columns that are copied as they are, are declared as written. *)
Lemma copied_columns_declared :
  forall (cols : list (string * string)),
    forallb copied_column cols = true ->
    map_option declared_column cols = Some cols.
Proof.
  induction cols as [|c cols IH]; [reflexivity|].
  cbn [forallb map_option]. intros H.
  apply andb_true_iff in H as [Hc Hrest]. rewrite (IH Hrest).
  unfold copied_column in Hc. apply andb_true_iff in Hc as [Hc _].
  destruct (declared_column c) as [c'|] eqn:Hd; [|discriminate].
  apply String.eqb_eq in Hc. unfold declared_column in Hd.
  destruct (_ && _); inversion Hd; subst c'. cbn [fst] in Hc.
  rewrite Hc. destruct c; reflexivity.
Qed.

Lemma sync_table_fresh_copy :
  forall (t : string) (s : state) (stb : table),
    find_table (source_db s) public t = Some stb ->
    tables_named (source_db s) t = [stb] ->
    well_formed stb = true ->
    forallb copied_column (t_columns stb) = true ->
    t_pkey stb <> [] ->
    plain_name t = true ->
    table_exists (target_db s) t = false ->
    fst (sync_table t s) = Ok tt
    /\ find_table (conn_committed (target_conn (snd (sync_table t s))))
                  public t
       = Some (mkTable (t_columns stb) [] (t_rows stb))
    /\ clean (snd (sync_table t s)).
Proof.
  intros t s stb Hfs Hnamed Hwf Hcopied Hkey Hpn Hex.
  pose proof (plain_name_not_empty t Hpn) as Hname.
  pose proof (copied_columns_declared _ Hcopied) as Hdecl.
  unfold well_formed in Hwf. rewrite !andb_true_iff in Hwf.
  destruct Hwf as ((((Hnd & Hplain) & Hlens) & Hkd) & Hkm).
  assert (Hcat : catalog_columns (source_db s) t = t_columns stb).
  { unfold catalog_columns. rewrite Hnamed. cbn. apply app_nil_r. }
  (* the schema step *)
  pose proof (check_and_create_table_absent t s Hex) as Hc. cbv zeta in Hc.
  rewrite Hcat in Hc.
  rewrite (run_create_total t _ (target_db s) (t_columns stb) (t_columns stb)
             (read_column_defs_columns_sql _ Hplain)
             (find_of_table_absent _ public t Hex) Hnd Hname Hdecl Hnd)
    in Hc.
  set (empty := mkTable (t_columns stb) [] []) in *.
  set (d1 := set_table (target_db s) public t empty) in *.
  match type of Hc with _ = (_, ?x) => set (s1 := x) in * end.
  assert (Hfs1 : find_table (source_db s1) public t = Some stb) by exact Hfs.
  assert (Hd1 : target_db s1 = d1) by reflexivity.
  assert (Hcm1 : conn_committed (target_conn s1) = d1) by reflexivity.
  assert (Hft1 : find_table d1 public t = Some empty).
  { apply find_table_set_table_same. }
  (* the diff *)
  pose proof (get_missing_rows_keyed t s1 stb Hpn Hfs1 Hkey) as Hg.
  rewrite Hname in Hg.
  assert (Hready : Forall (probe_ready (target_db (scanned t s1)) t
                                       (t_pkey stb) (column_names stb))
                          (t_rows stb)).
  { apply Forall_forall. intros r Hin.
    rewrite forallb_forall in Hlens. specialize (Hlens r Hin).
    apply Nat.eqb_eq in Hlens.
    exists (map (fun k => (k, field (column_names stb) r k)) (t_pkey stb)),
           empty.
    split.
    { apply (pk_values_of_total (column_names stb) r Hlens (t_pkey stb) []
               Hkd Hkm). intros k _ []. }
    split; [unfold dict_values, key_of; rewrite map_map; reflexivity|].
    split; [exact Hft1|exact Hkm]. }
  destruct (probe_rows_total t (t_pkey stb) (column_names stb)
              (t_rows stb) [] (scanned t s1) Hready) as (m & s2 & Hp).
  rewrite Hp in Hg.
  destruct (probe_rows_ok t (t_pkey stb) (column_names stb) _ _ _ _ _ Hp)
    as (_ & Hm & Hsrc2 & Hlog2 & (Hcur2 & Hcom2 & _) & _).
  assert (Hall : m = t_rows stb).
  { rewrite Hm. cbn [app]. apply filter_all_true. intros r _.
    unfold probe_hit. change (target_db (scanned t s1)) with d1.
    rewrite Hft1. reflexivity. }
  clear Hm. subst m.
  change (conn_current (target_conn (scanned t s1))) with d1 in Hcur2.
  change (conn_committed (target_conn (scanned t s1))) with d1 in Hcom2.
  (* the insert *)
  assert (Hbody : sync_table_body t s = sync_rows t s1).
  { rewrite sync_table_body_split. unfold bind. rewrite Hc. reflexivity. }
  rewrite sync_table_unfold, Hbody.
  destruct (sync_rows t s1) as [r s'] eqn:Hr.
  apply sync_rows_cases in Hr as (r1 & s2' & Hg' & H).
  rewrite Hg in Hg'. inversion Hg'; subst r1 s2'. clear Hg'.
  destruct (t_rows stb) as [|r0 rows] eqn:Hrows.
  - destruct H as [-> ->]. cbn. unfold clean. cbn.
    rewrite Hcom2, Hcur2. auto.
  - assert (Hne : column_names stb <> []).
    { intros E. rewrite E in Hkm. destruct (t_pkey stb); [congruence|].
      cbn in Hkm. discriminate Hkm. }
    assert (Hrne : r0 :: rows <> []) by discriminate.
    rewrite (execute_values_unfold t (column_names stb) (r0 :: rows)
               (target_conn s2) Hrne) in H.
    destruct (column_names stb) as [|c0 cs] eqn:Hcn; [congruence|].
    rewrite <- Hcn in *.
    assert (Hins : insert_rows (column_names stb) empty (r0 :: rows)
                   = Ok (mkTable (t_columns stb) [] (r0 :: rows))).
    { rewrite insert_rows_without_key by reflexivity.
      cbn [t_columns t_rows app]. f_equal. f_equal.
      rewrite <- (map_id (r0 :: rows)) at 2. apply map_ext_in.
      intros x Hin. rewrite forallb_forall in Hlens.
      specialize (Hlens x Hin). apply Nat.eqb_eq in Hlens.
      change (laid_out (column_names stb) empty x)
        with (laid_out (column_names stb) stb x).
      apply laid_out_same_columns; assumption. }
    rewrite Hcur2 in H.
    rewrite (run_insert_total t (column_names stb) (r0 :: rows) d1 empty _
               Hft1 Hnd (memb_all_self _) Hlens Hins) in H.
    cbn [fst snd] in H. destruct H as [-> ->]. cbn. unfold clean. cbn.
    rewrite find_table_set_table_same. auto.
Qed.

(** X5: let the target have no table named [t] in any schema, and let the
    source have [t] in schema public only, well formed, with a primary
    key, under a name that the primary-key lookup reads as it is written
    and with columns that are copied as they are (lower-case names that
    are no key words, types whose values are integers, booleans or
    strings).  Then [sync_table] returns normally and has committed, in
    the target, table [t] with the source's columns, no key, and exactly
    the source's rows in scan order; nothing is left pending. *)
Theorem sync_table_copies_into_absent_table :
  forall (t : string) (s : state) (stb : table),
    find_table (source_db s) public t = Some stb ->
    tables_named (source_db s) t = [stb] ->
    well_formed stb = true ->
    forallb copied_column (t_columns stb) = true ->
    t_pkey stb <> [] ->
    plain_name t = true ->
    table_exists (target_db s) t = false ->
    fst (sync_table t s) = Ok tt
    /\ find_table (conn_committed (target_conn (snd (sync_table t s))))
                  public t
       = Some (mkTable (t_columns stb) [] (t_rows stb))
    /\ clean (snd (sync_table t s)).
Proof. exact sync_table_fresh_copy. Qed.

Lemma users_has_a_key : t_pkey users <> [].
Proof. discriminate. Qed.

Lemma sync_table_copies_into_absent_table_witness :
  find_table (conn_committed
                (target_conn (snd (sync_table "users" state_with_new_users))))
             public "users"
  = Some (mkTable (t_columns users) [] (t_rows users)).
Proof.
  exact (proj1 (proj2
    (sync_table_copies_into_absent_table
       "users" state_with_new_users users eq_refl eq_refl eq_refl eq_refl
       users_has_a_key eq_refl eq_refl))).
Defined.

(* ------------------------------------------------------------------ *)
(** ** Table names the source does not have, or has twice *)

Lemma tables_named_absent (d : database) (t : string) :
  table_exists d t = false -> tables_named d t = [].
Proof.
  unfold table_exists, tables_named.
  induction d as [|e d IH]; [reflexivity|].
  cbn [existsb filter]. intros H. apply orb_false_iff in H as [He Hd].
  rewrite He. apply IH. exact Hd.
Qed.

(** X6: [sync_table] called with a name, one that the primary-key lookup
    reads as it is written, that no table of the source has in any schema,
    while the target has no table of that name either: the schema step
    reads an empty column list from the source catalog, creates the table
    in the target with no column at all and commits it; only then does the
    lookup of the primary key fail on the source.  [sync_table] logs the
    server's message after its own words and raises the error, and the
    empty table stays in the target. *)
Theorem sync_table_of_unknown_table_leaves_empty_table :
  forall (t : string) (s : state),
    plain_name t = true ->
    table_exists (source_db s) t = false ->
    table_exists (target_db s) t = false ->
    (exists msg,
       fst (sync_table t s) = Raise (ProgrammingError msg)
       /\ logger (snd (sync_table t s))
          = emit (emit (logger s) INFO
                       ("Copied schema for " ++ t ++ " to target database."))
                 ERROR ("Unexpected error syncing " ++ t ++ ": " ++ msg))
    /\ find_table (conn_committed (target_conn (snd (sync_table t s))))
                  public t
       = Some (mkTable [] [] [])
    /\ conn_trace (target_conn (snd (sync_table t s)))
       = (conn_trace (target_conn s)
          ++ [exists_stmt t; mkExecuted (create_query t []) [[]]])%list.
Proof.
  intros t s Hpn Hsrc Htgt.
  pose proof (check_and_create_table_absent t s Htgt) as Hc. cbv zeta in Hc.
  assert (Hcat : catalog_columns (source_db s) t = []).
  { unfold catalog_columns. rewrite (tables_named_absent _ _ Hsrc).
    reflexivity. }
  rewrite Hcat in Hc.
  rewrite (run_create_total t (columns_sql []) (target_db s) [] [] eq_refl
             (find_of_table_absent _ public t Htgt) eq_refl
             (plain_name_not_empty t Hpn) eq_refl eq_refl) in Hc.
  match type of Hc with _ = (_, ?x) => set (s1 := x) in * end.
  assert (Hfs1 : find_table (source_db s1) public t = None).
  { exact (find_of_table_absent _ public t Hsrc). }
  assert (Hbody : sync_table_body t s
                  = (Raise (undefined_table t), asked_pkey t s1)).
  { rewrite sync_table_body_split. unfold bind at 1. rewrite Hc.
    unfold sync_rows, bind.
    rewrite (get_missing_rows_no_source_table t s1 Hfs1). reflexivity. }
  rewrite sync_table_unfold, Hbody. cbn.
  split; [eexists; split; reflexivity|].
  split; [apply find_table_set_table_same|].
  rewrite <- app_assoc; reflexivity.
Qed.

Lemma sync_table_of_unknown_table_leaves_empty_table_witness :
  find_table (conn_committed
                (target_conn (snd (sync_table "ghost" empty_state))))
             public "ghost"
  = Some (mkTable [] [] []).
Proof.
  exact (proj1 (proj2
    (sync_table_of_unknown_table_leaves_empty_table
       "ghost" empty_state eq_refl eq_refl eq_refl))).
Defined.



(* ------------------------------------------------------------------ *)
(** ** Loading the connection parameters *)

Lemma read_line_entry (line : string) (acc : Config.env * list log_record) :
  Config.read_line line acc
  = (match Config.entry_of line with
     | Some (k, v) => Config.env_set (fst acc) k v
     | None => fst acc
     end,
     if Config.malformed line
     then emit (snd acc) WARNING
               ("Skipping malformed line: " ++ Config.str_strip line)
     else snd acc).
Proof.
  unfold Config.read_line, Config.entry_of, Config.malformed.
  destruct acc as [d lg]. cbn [fst snd].
  destruct (String.eqb (Config.str_strip line) EmptyString); cbn;
    [reflexivity|].
  destruct (Config.startswith_hash (Config.str_strip line)); cbn;
    [reflexivity|].
  destruct (Config.contains_eq (Config.str_strip line)); cbn;
    [|reflexivity].
  destruct (Config.split_eq (Config.str_strip line)); reflexivity.
Qed.

Lemma read_lines_app (pre post : list string)
  (acc : Config.env * list log_record) :
  Config.read_lines (pre ++ post) acc
  = Config.read_lines post (Config.read_lines pre acc).
Proof.
  revert acc. induction pre as [|l pre IH]; intros acc; [reflexivity|].
  cbn [app Config.read_lines]. apply IH.
Qed.

Lemma env_get_set (d : Config.env) (k v k' default : string) :
  Config.env_get (Config.env_set d k v) k' default
  = if String.eqb k k' then v else Config.env_get d k' default.
Proof.
  induction d as [|[k0 v0] d IH]; cbn [Config.env_set Config.env_get].
  - reflexivity.
  - destruct (String.eqb k0 k) eqn:E0; cbn [Config.env_get].
    + apply String.eqb_eq in E0. subst k0.
      destruct (String.eqb k k'); reflexivity.
    + destruct (String.eqb k0 k') eqn:E1; [|exact IH].
      apply String.eqb_eq in E1. subst k0. rewrite String.eqb_sym, E0.
      reflexivity.
Qed.

Lemma env_get_unassigned (k default : string) :
  forall (lines : list string) (acc : Config.env * list log_record),
    forallb (fun l => negb (Config.assigns k l)) lines = true ->
    Config.env_get (fst (Config.read_lines lines acc)) k default
    = Config.env_get (fst acc) k default.
Proof.
  induction lines as [|l lines IH]; intros acc H; [reflexivity|].
  cbn [forallb] in H. apply andb_true_iff in H as [Hl H].
  cbn [Config.read_lines]. rewrite (IH _ H), read_line_entry. cbn [fst].
  unfold Config.assigns in Hl.
  destruct (Config.entry_of l) as [[k' v]|]; [|reflexivity].
  rewrite env_get_set. apply negb_true_iff in Hl. rewrite Hl. reflexivity.
Qed.

Lemma env_get_last (k default v : string) (pre post : list string)
  (l : string) (acc : Config.env * list log_record) :
  Config.entry_of l = Some (k, v) ->
  forallb (fun l => negb (Config.assigns k l)) post = true ->
  Config.env_get (fst (Config.read_lines (pre ++ l :: post) acc)) k default
  = v.
Proof.
  intros He Hpost. rewrite read_lines_app. cbn [Config.read_lines].
  rewrite (env_get_unassigned k default post _ Hpost), read_line_entry.
  cbn [fst]. rewrite He, env_get_set, String.eqb_refl. reflexivity.
Qed.

(** X8: what [_load_connection_params] returns for a file that could be
    read.  For each of the six keys (DB_USER, DB_PASSWORD, DB_HOST,
    DB_PORT, DB_SSL_MODE, DB_NAME) the field is the value of the last line
    of the file that assigns to exactly that key, and the key's default
    when no line does. *)
Theorem load_connection_params_takes_last_assignment :
  forall (path : string) (lines : list string) (lg : list log_record)
         (key : string) (field : Config.connection_params -> string)
         (default : string),
    In (key, field, default) Config.settings ->
    exists params,
      fst (Config._load_connection_params
             path (Config.Opened (Config.mkReading lines None)) lg)
      = inl params
      /\ (forallb (fun l => negb (Config.assigns key l)) lines = true ->
          field params = default)
      /\ (forall pre l post v,
            lines = (pre ++ l :: post)%list ->
            Config.entry_of l = Some (key, v) ->
            forallb (fun l => negb (Config.assigns key l)) post = true ->
            field params = v).
Proof.
  intros path lines lg key field default Hin.
  unfold Config._load_connection_params. cbn [Config.rd_lines Config.rd_error].
  destruct (Config.read_lines lines ([], lg)) as [d lg1] eqn:Hr.
  eexists. split; [reflexivity|].
  assert (Hd : d = fst (Config.read_lines lines ([], lg)))
    by (rewrite Hr; reflexivity).
  cbn [Config.settings In] in Hin.
  repeat destruct Hin as [Hin|Hin];
    try (inversion Hin; subst key field default; cbn; split;
         [ intros Hnone; rewrite Hd;
           rewrite (env_get_unassigned _ _ lines _ Hnone); reflexivity
         | intros pre l post v -> He Hpost; rewrite Hd;
           apply env_get_last; assumption ]).
  destruct Hin.
Qed.

Lemma load_connection_params_takes_last_assignment_witness :
  exists params,
    fst (Config._load_connection_params
           ".env"
           (Config.Opened
              (Config.mkReading ["DB_HOST=a"; "# note"; "DB_HOST=b=c "] None))
           [])
    = inl params
    /\ Config.db_host_var params = "b=c".
Proof.
  destruct (load_connection_params_takes_last_assignment
              ".env" ["DB_HOST=a"; "# note"; "DB_HOST=b=c "] []
              "DB_HOST" Config.db_host_var Config.DEFAULT_HOST
              (or_intror (or_intror (or_introl eq_refl))))
    as (params & Hp & _ & Hlast).
  exists params. split; [exact Hp|].
  exact (Hlast ["DB_HOST=a"; "# note"] "DB_HOST=b=c " [] "b=c"
               eq_refl eq_refl eq_refl).
Defined.

Lemma read_lines_log :
  forall (lines : list string) (acc : Config.env * list log_record),
    snd (Config.read_lines lines acc) = (snd acc ++ warnings_for lines)%list.
Proof.
  unfold warnings_for.
  induction lines as [|l lines IH]; intros acc; cbn [Config.read_lines].
  - cbn. rewrite app_nil_r. reflexivity.
  - rewrite IH, read_line_entry. cbn [snd filter].
    destruct (Config.malformed l); [|reflexivity].
    unfold emit. rewrite <- app_assoc. reflexivity.
Qed.

Lemma read_lines_fst_ext :
  forall (lines : list string) (a b : Config.env * list log_record),
    fst a = fst b ->
    fst (Config.read_lines lines a) = fst (Config.read_lines lines b).
Proof.
  induction lines as [|x xs IH]; intros a b Hab; [exact Hab|].
  cbn [Config.read_lines]. apply IH. rewrite !read_line_entry. cbn [fst].
  rewrite Hab. reflexivity.
Qed.

Lemma read_lines_entries :
  forall (lines : list string) (acc : Config.env * list log_record),
    fst (Config.read_lines lines acc)
    = fst (Config.read_lines (filter makes_entry lines) acc).
Proof.
  induction lines as [|l lines IH]; intros acc; [reflexivity|].
  cbn [Config.read_lines filter]. unfold makes_entry at 1.
  destruct (Config.entry_of l) as [[k v]|] eqn:He; cbn [Config.read_lines].
  - apply IH.
  - rewrite IH. apply read_lines_fst_ext.
    rewrite read_line_entry, He. reflexivity.
Qed.

(** X9: which lines of the file count.  Blank lines, comment lines and
    lines without an equals sign set nothing: the parameters loaded from a
    file are those loaded from its assignment lines alone.  The loader
    logs one warning for each line that has text, is no comment and has no
    equals sign, in the order of the file, and then one record that tells
    how the reading ended: a debug record, or the error when reading
    failed part way, in which case the warnings are logged all the same
    and an exception leaves instead of parameters. *)
Theorem load_connection_params_skips_other_lines :
  forall (path : string) (r : Config.reading) (lg : list log_record),
    snd (Config._load_connection_params path (Config.Opened r) lg)
    = (lg ++ warnings_for (Config.rd_lines r)
       ++ [ending_record path (Config.rd_error r)])%list
    /\ fst (Config._load_connection_params path (Config.Opened r) lg)
       = fst (Config._load_connection_params
                path
                (Config.Opened
                   (Config.mkReading (filter makes_entry (Config.rd_lines r))
                                     (Config.rd_error r)))
                lg)
    /\ (forall msg, Config.rd_error r = Some msg ->
          fst (Config._load_connection_params path (Config.Opened r) lg)
          = inr (Config.ReadError msg)).
Proof.
  intros path r lg. unfold Config._load_connection_params.
  cbn [Config.rd_lines Config.rd_error].
  pose proof (read_lines_log (Config.rd_lines r) ([], lg)) as Hlog.
  pose proof (read_lines_entries (Config.rd_lines r) ([], lg)) as Hent.
  destruct (Config.read_lines (Config.rd_lines r) ([], lg)) as [d lg1].
  destruct (Config.read_lines (filter makes_entry (Config.rd_lines r))
                              ([], lg)) as [d' lg1'].
  cbn [fst snd] in Hlog, Hent. subst d' lg1.
  destruct (Config.rd_error r) as [msg|]; cbn [fst snd];
    unfold emit, ending_record; rewrite <- app_assoc.
  - split; [reflexivity|]. split; [reflexivity|].
    intros m H. inversion H. reflexivity.
  - split; [reflexivity|]. split; [reflexivity|]. discriminate.
Qed.

(* ------------------------------------------------------------------ *)
(** ** An assignment line, written and read back *)

Lemma str_lstrip_spaces (ws s : string) :
  all_space ws = true ->
  match s with
  | EmptyString => True
  | String c _ => Config.isspace c = false
  end ->
  Config.str_lstrip (ws ++ s) = s.
Proof.
  intros Hws Hs. induction ws as [|c ws IH]; cbn [append Config.str_lstrip].
  - destruct s as [|c s]; [reflexivity|]. cbn [Config.str_lstrip].
    rewrite Hs. reflexivity.
  - cbn [all_space] in Hws. apply andb_true_iff in Hws as [Hc Hws].
    rewrite Hc. exact (IH Hws).
Qed.

Lemma str_rstrip_spaces (ws : string) :
  all_space ws = true -> Config.str_rstrip ws = EmptyString.
Proof.
  induction ws as [|c ws IH]; intros H; [reflexivity|].
  cbn [all_space] in H. apply andb_true_iff in H as [Hc Hws].
  cbn [Config.str_rstrip]. rewrite (IH Hws), Hc. reflexivity.
Qed.

Lemma str_rstrip_clean (s : string) :
  no_trailing_space s = true -> Config.str_rstrip s = s.
Proof.
  induction s as [|c s IH]; intros H; [reflexivity|].
  cbn [Config.str_rstrip]. destruct s as [|c' s].
  - cbn in *. apply negb_true_iff in H. rewrite H. reflexivity.
  - rewrite (IH H). reflexivity.
Qed.

Lemma str_rstrip_app (s ws : string) :
  all_space ws = true ->
  Config.str_rstrip (s ++ ws) = Config.str_rstrip s.
Proof.
  intros Hws. induction s as [|c s IH]; cbn [append].
  - apply str_rstrip_spaces. exact Hws.
  - cbn [Config.str_rstrip]. rewrite IH. reflexivity.
Qed.

Lemma no_trailing_space_app (a b : string) :
  b <> EmptyString ->
  no_trailing_space (a ++ b) = no_trailing_space b.
Proof.
  intros Hb. induction a as [|c a IH]; [reflexivity|].
  cbn [append no_trailing_space].
  destruct (a ++ b) as [|c' r] eqn:E; [|exact IH].
  destruct a; cbn in E; [congruence|discriminate].
Qed.

Lemma split_eq_assignment (k v : string) :
  Config.contains_eq k = false ->
  Config.split_eq (k ++ String "="%char v) = (k, v)
  /\ Config.contains_eq (k ++ String "="%char v) = true.
Proof.
  induction k as [|c k IH]; intros H.
  - split; reflexivity.
  - cbn [Config.contains_eq] in H. apply orb_false_iff in H as [Hc Hk].
    destruct (IH Hk) as [IH1 IH2].
    cbn [append Config.split_eq Config.contains_eq].
    rewrite Hc, IH1, IH2. split; reflexivity.
Qed.

(** X10: an assignment line is read back as it was written.  Take a key
    with no equals sign in it that does not start with white space or a
    hash sign, and a value that does not end in white space; write them as
    [key=value], with any white space before and after.  The loader reads
    that line as exactly this key and this value: the value keeps its own
    equals signs, hash signs and leading and inner spaces, and the key
    keeps its spaces too, so the line assigns to a key [K] only when the
    text before the first equals sign is [K] to the letter. *)
Theorem assignment_line_is_read_back :
  forall (before after k v : string),
    all_space before = true ->
    all_space after = true ->
    readable_key k = true ->
    no_trailing_space v = true ->
    Config.entry_of (before ++ k ++ "=" ++ v ++ after) = Some (k, v)
    /\ (forall K, Config.assigns K (before ++ k ++ "=" ++ v ++ after) = true
                  <-> k = K).
Proof.
  intros before after k v Hb Ha Hk Hv.
  unfold readable_key in Hk. apply andb_true_iff in Hk as [Hk1 Hk2].
  apply negb_true_iff in Hk1.
  destruct (split_eq_assignment k v Hk1) as [Hsplit Hcont].
  set (body := k ++ String "="%char v) in *.
  assert (Hline : before ++ k ++ "=" ++ v ++ after
                  = before ++ body ++ after).
  { unfold body. f_equal. rewrite append_assoc. reflexivity. }
  assert (Hhead : match body ++ after with
                  | EmptyString => True
                  | String c _ => Config.isspace c = false
                  end).
  { unfold body. destruct k as [|c k]; cbn; [reflexivity|].
    apply andb_true_iff in Hk2 as [Hs _]. apply negb_true_iff in Hs.
    exact Hs. }
  assert (Hstrip : Config.str_strip (before ++ body ++ after) = body).
  { unfold Config.str_strip. rewrite (str_lstrip_spaces _ _ Hb Hhead).
    rewrite (str_rstrip_app _ _ Ha). apply str_rstrip_clean.
    unfold body. rewrite no_trailing_space_app by discriminate.
    destruct v as [|c v]; [reflexivity|exact Hv]. }
  assert (Hentry : Config.entry_of (before ++ k ++ "=" ++ v ++ after)
                   = Some (k, v)).
  { rewrite Hline. unfold Config.entry_of. rewrite Hstrip, Hcont, Hsplit.
    assert (Hne : String.eqb body EmptyString = false).
    { unfold body. destruct k; reflexivity. }
    assert (Hhash : Config.startswith_hash body = false).
    { unfold body. destruct k as [|c k]; cbn; [reflexivity|].
      apply andb_true_iff in Hk2 as [_ Hh]. apply negb_true_iff in Hh.
      exact Hh. }
    rewrite Hne, Hhash. reflexivity. }
  split; [exact Hentry|].
  intros K. unfold Config.assigns. rewrite Hentry. apply String.eqb_eq.
Qed.

Lemma assignment_line_is_read_back_witness :
  Config.entry_of ("  " ++ "DB_USER " ++ "=" ++ " al=ice" ++ " ")
  = Some ("DB_USER ", " al=ice")
  /\ Config.assigns "DB_USER" ("  " ++ "DB_USER " ++ "=" ++ " al=ice" ++ " ")
     = false.
Proof.
  destruct (assignment_line_is_read_back
              "  " " " "DB_USER " " al=ice" eq_refl eq_refl eq_refl eq_refl)
    as [He Hk].
  split; [exact He|].
  destruct (Config.assigns "DB_USER"
              ("  " ++ "DB_USER " ++ "=" ++ " al=ice" ++ " ")) eqn:E;
    [|reflexivity].
  apply Hk in E. discriminate E.
Defined.

(* ------------------------------------------------------------------ *)
(** ** The log has no influence on the run *)

Lemma log_blind_ret {A : Type} (a : A) : log_blind (ret a).
Proof. intros l s. reflexivity. Qed.

Lemma log_blind_raise {A : Type} (e : exn) : log_blind (@raise state A e).
Proof. intros l s. reflexivity. Qed.

Lemma log_blind_lift {A : Type} (o : outcome A) : log_blind (lift o).
Proof. intros l s. reflexivity. Qed.

Lemma log_blind_bind {A B : Type} (m : M state A) (k : A -> M state B) :
  log_blind m -> (forall a, log_blind (k a)) -> log_blind (bind m k).
Proof.
  intros Hm Hk l s. unfold bind. rewrite Hm.
  destruct (m s) as [[a|e] s1]; cbn [fst snd]; [|reflexivity].
  rewrite Hk. destruct (k a s1); reflexivity.
Qed.

Lemma log_blind_try {A : Type} (m : M state A) (h : exn -> M state A) :
  log_blind m -> (forall e, log_blind (h e)) -> log_blind (try_except m h).
Proof.
  intros Hm Hh l s. unfold try_except. rewrite Hm.
  destruct (m s) as [[a|e] s1]; cbn [fst snd]; [reflexivity|].
  rewrite Hh. destruct (h e s1); reflexivity.
Qed.

Lemma log_blind_for_each {A : Type} (xs : list A) (f : A -> M state unit) :
  (forall x, log_blind (f x)) -> log_blind (for_each xs f).
Proof.
  intros Hf. induction xs as [|x xs IH]; cbn [for_each].
  - apply log_blind_ret.
  - apply log_blind_bind; [apply Hf|intros _; exact IH].
Qed.

Lemma log_blind_log (lv : level) (msg : string) : log_blind (log lv msg).
Proof.
  intros l s. unfold log, relog, emit. cbn. rewrite app_assoc. reflexivity.
Qed.

Lemma log_blind_source_execute (q : composable) (args : list value) :
  log_blind (source_execute q args).
Proof.
  intros l s. unfold source_execute, relog. cbn.
  destruct (conn_execute q args (source_conn s)); reflexivity.
Qed.

Lemma log_blind_target_execute (q : composable) (args : list value) :
  log_blind (target_execute q args).
Proof.
  intros l s. unfold target_execute, relog. cbn.
  destruct (conn_execute q args (target_conn s)); reflexivity.
Qed.

Lemma log_blind_target_execute_values (q : composable) (rows : list row) :
  log_blind (target_execute_values q rows).
Proof.
  intros l s. unfold target_execute_values, relog. cbn.
  destruct (conn_execute_values q rows (target_conn s)); reflexivity.
Qed.

Lemma log_blind_target_commit : log_blind target_commit.
Proof. intros l s. reflexivity. Qed.

Lemma log_blind_target_rollback : log_blind target_rollback.
Proof. intros l s. reflexivity. Qed.

Create HintDb blind.
#[local] Hint Resolve log_blind_ret log_blind_raise log_blind_lift
  log_blind_log log_blind_source_execute log_blind_target_execute
  log_blind_target_execute_values log_blind_target_commit
  log_blind_target_rollback : blind.

(** Goes through a computation written with [bind], branch by branch. *)
Ltac blind :=
  repeat first
    [ solve [auto with blind]
    | apply log_blind_bind; [|intros ?]
    | apply log_blind_try; [|intros ?]
    | match goal with
      | |- log_blind (if ?b then _ else _) => destruct b
      | |- log_blind (match ?x with _ => _ end) => destruct x
      | |- log_blind (let (_, _) := ?x in _) => destruct x
      end ].

Lemma log_blind_check_and_create_table (t : string) :
  log_blind (check_and_create_table t).
Proof. unfold check_and_create_table. blind. Qed.

Lemma log_blind_get_primary_keys (t : string) :
  log_blind (get_primary_keys t).
Proof. unfold get_primary_keys. blind. Qed.

Lemma log_blind_probe_rows (t : string) (keys cols : list string)
  (w : composable) :
  forall (rows acc : list row), log_blind (probe_rows t keys cols w rows acc).
Proof.
  induction rows as [|r rows IH]; intros acc; cbn [probe_rows].
  - apply log_blind_ret.
  - apply log_blind_bind; [unfold probe_row; blind|intros m; apply IH].
Qed.

#[local] Hint Resolve log_blind_check_and_create_table
  log_blind_get_primary_keys log_blind_probe_rows : blind.

Lemma log_blind_get_missing_rows (t : string) :
  log_blind (get_missing_rows t).
Proof. unfold get_missing_rows. blind. Qed.

#[local] Hint Resolve log_blind_get_missing_rows : blind.

Lemma log_blind_sync_table (t : string) : log_blind (sync_table t).
Proof. unfold sync_table, sync_table_body. blind. Qed.

Lemma log_blind_sync_all_tables : log_blind sync_all_tables.
Proof.
  unfold sync_all_tables. apply log_blind_try; [|intros e; blind].
  apply log_blind_bind; [blind|intros rs].
  apply log_blind_bind; [blind|intros tables].
  apply log_blind_bind; [|intros _; blind].
  apply log_blind_for_each. intros t. apply log_blind_sync_table.
Qed.

(* ------------------------------------------------------------------ *)
(** ** The script from its configuration files *)

(** X11: a configuration that cannot be loaded stops the script before any
    connection is attempted: when [main] is left by an exception of the
    loader, neither the target nor the source connection was opened. *)
Theorem configuration_failure_precedes_connections :
  forall (fs : string -> Config.opened)
         (net : Config.connection_params -> option database)
         (e : Config.config_exn),
    fst (Entry.main fs net) = Entry.ConfigRaised e ->
    p_target (snd (Entry.main fs net)) = None
    /\ p_source (snd (Entry.main fs net)) = None.
Proof.
  intros fs net e. unfold Entry.main.
  destruct (Config.DatabaseConfig Entry.prod_env_path _ _) as [[prod|e1] lg1];
    [|cbn; auto].
  destruct (Config.DatabaseConfig Entry.dev_env_path _ lg1) as [[dev|e2] lg2];
    [|cbn; auto].
  cbv zeta.
  destruct (connect (Entry.server_at net dev) _) as [[tconn|e3] lg4];
    [|cbn; discriminate].
  destruct (connect (Entry.server_at net prod) _) as [[sconn|e4] lg6];
    [|cbn; discriminate].
  destruct (sync_all_tables _) as [[[]|e5] s]; cbn; discriminate.
Qed.

Lemma configuration_failure_precedes_connections_witness :
  fst (Entry.main no_files both_answer)
  = Entry.ConfigRaised
      (Config.FileNotFoundError
         "Environment file .environments/.env.production not found.")
  /\ p_target (snd (Entry.main no_files both_answer)) = None
  /\ p_source (snd (Entry.main no_files both_answer)) = None.
Proof.
  split; [reflexivity|].
  exact (configuration_failure_precedes_connections
           no_files both_answer _ eq_refl).
Defined.

(** X12: with both environment files loaded, the script does what
    [PostgresDatabaseSync] does on the two servers that the loaded
    parameters reach: it is left the same way, with the same connections
    in the same state, and its log is the loader's records followed by the
    records of that run. *)
Theorem script_runs_sync_on_configured_servers :
  forall (fs : string -> Config.opened)
         (net : Config.connection_params -> option database)
         (prod dev : Config.database_config) (lg1 lg2 : list log_record),
    Config.DatabaseConfig Entry.prod_env_path (fs Entry.prod_env_path)
                          (emit [] INFO "Syncing databases")
    = (inl prod, lg1) ->
    Config.DatabaseConfig Entry.dev_env_path (fs Entry.dev_env_path) lg1
    = (inl dev, lg2) ->
    fst (Entry.main fs net)
    = Entry.exit_of
        (fst (main (Entry.server_at net prod) (Entry.server_at net dev)))
    /\ p_target (snd (Entry.main fs net))
       = p_target
           (snd (main (Entry.server_at net prod) (Entry.server_at net dev)))
    /\ p_source (snd (Entry.main fs net))
       = p_source
           (snd (main (Entry.server_at net prod) (Entry.server_at net dev)))
    /\ p_log (snd (Entry.main fs net))
       = (lg2
          ++ tl (p_log (snd (main (Entry.server_at net prod)
                                  (Entry.server_at net dev)))))%list.
Proof.
  intros fs net prod dev lg1 lg2 Hprod Hdev.
  unfold Entry.main, main. rewrite Hprod, Hdev. cbv zeta. unfold connect.
  destruct (srv_up (Entry.server_at net dev)).
  2:{ cbn. unfold emit. rewrite <- !app_assoc. auto. }
  destruct (srv_up (Entry.server_at net prod)).
  2:{ cbn. unfold emit. rewrite <- !app_assoc. auto. }
  set (sconn := mkConn (srv_data (Entry.server_at net prod))
                       (srv_data (Entry.server_at net prod)) false []).
  set (tconn := mkConn (srv_data (Entry.server_at net dev))
                       (srv_data (Entry.server_at net dev)) false []).
  match goal with
  | |- context [sync_all_tables (mkState sconn tconn ?L)] =>
      match L with
      | context [lg2] => set (entry_log := L)
      end
  end.
  match goal with
  | |- context [sync_all_tables (mkState sconn tconn ?L)] =>
      lazymatch L with
      | entry_log => fail
      | _ => set (main_log := L)
      end
  end.
  set (rest := tl main_log).
  assert (Hmain : mkState sconn tconn main_log
                  = relog [(INFO, "Syncing databases")]
                          (mkState sconn tconn rest)) by reflexivity.
  assert (Hentry : mkState sconn tconn entry_log
                   = relog lg2 (mkState sconn tconn rest)).
  { unfold relog, entry_log, rest, main_log, emit. cbn.
    rewrite <- !app_assoc. reflexivity. }
  rewrite Hmain, Hentry, !log_blind_sync_all_tables.
  destruct (sync_all_tables (mkState sconn tconn rest)) as [r s]. cbn.
  auto.
Qed.

Lemma script_runs_sync_on_configured_servers_witness :
  fst (Entry.main both_files both_answer) = Entry.Returned
  /\ exists c, p_target (snd (Entry.main both_files both_answer)) = Some c
               /\ conn_committed c
                  = [(("public", "users"),
                      mkTable (t_columns users) [] (t_rows users))].
Proof.
  destruct (script_runs_sync_on_configured_servers
              both_files both_answer
              (Config.mkConfig Entry.prod_env_path
                 (Config.mkParams Config.DEFAULT_USER Config.DEFAULT_PASSWORD
                    Config.DEFAULT_HOST Config.DEFAULT_PORT Config.DB_SSL_MODE
                    "prod_db"))
              (Config.mkConfig Entry.dev_env_path
                 (Config.mkParams Config.DEFAULT_USER Config.DEFAULT_PASSWORD
                    Config.DEFAULT_HOST Config.DEFAULT_PORT Config.DB_SSL_MODE
                    "dev_db"))
              _ _ eq_refl eq_refl)
    as (Hexit & Htarget & _).
  split.
  - rewrite Hexit. vm_compute. reflexivity.
  - rewrite Htarget. vm_compute. eexists. split; reflexivity.
Defined.

(* ------------------------------------------------------------------ *)
(** ** Copying a whole database into a target that has none of it *)

Lemma find_of_table_exists (d : database) (n : string) :
  table_exists d n = true ->
  exists schema tb, find_table d schema n = Some tb.
Proof.
  unfold table_exists.
  induction d as [|[[s0 n0] t0] d IH]; cbn [existsb fst snd find_table].
  - discriminate.
  - destruct (String.eqb n0 n) eqn:E.
    + intros _. exists s0, t0. rewrite String.eqb_refl. reflexivity.
    + cbn [orb]. intros H. destruct (IH H) as (schema & tb & Hf).
      exists schema, tb. rewrite andb_false_r. exact Hf.
Qed.

Lemma table_absent_elsewhere (t n : string) (d d' : database) :
  same_elsewhere t d d' ->
  n <> t ->
  table_exists d n = false ->
  table_exists d' n = false.
Proof.
  intros Hsame Hne Hex.
  destruct (table_exists d' n) eqn:E; [|reflexivity].
  destruct (find_of_table_exists d' n E) as (schema & tb & Hf).
  rewrite Hsame in Hf by congruence.
  apply table_exists_of_find in Hf. congruence.
Qed.

Lemma in_tables_in (d : database) (schema n : string) (tb : table) :
  find_table d schema n = Some tb -> In n (tables_in d schema).
Proof.
  unfold tables_in.
  induction d as [|[[s0 n0] t0] d IH]; cbn [find_table filter fst snd].
  - discriminate.
  - destruct (String.eqb s0 schema) eqn:Es; cbn [andb].
    + destruct (String.eqb n0 n) eqn:En.
      * intros _. apply String.eqb_eq in En. subst. left. reflexivity.
      * intros H. right. exact (IH H).
    + exact IH.
Qed.

Lemma for_each_sync_table_fresh_copy :
  forall (tables : list string) (s : state),
    clean s ->
    NoDup tables ->
    (forall n, In n tables ->
               copyable (source_db s) n
               /\ table_exists (target_db s) n = false) ->
    fst (for_each tables sync_table s) = Ok tt
    /\ forall n tb,
         In n tables ->
         find_table (source_db s) public n = Some tb ->
         find_table (target_db (snd (for_each tables sync_table s))) public n
         = Some (mkTable (t_columns tb) [] (t_rows tb)).
Proof.
  induction tables as [|t tables IH]; intros s Hclean Hnd Hall.
  - split; [reflexivity|intros n tb []].
  - inversion Hnd as [|? ? Hnotin Hnd']; subst.
    destruct (Hall t (or_introl eq_refl))
      as ((stb & Hf & Hnamed & Hwf & Hcopied & Hkey & Hname) & Hex).
    destruct (sync_table_fresh_copy t s stb Hf Hnamed Hwf Hcopied Hkey Hname
                                    Hex)
      as (Hok & Hcopy & Hclean1).
    cbn [for_each]. unfold bind.
    destruct (sync_table t s) as [r s1] eqn:Ht. cbn [fst snd] in *. subst r.
    destruct (sync_table_effect t s (Ok tt) s1 Hclean Ht)
      as (_ & (Hsrc & _) & _ & Hsame).
    assert (Hsdb : source_db s1 = source_db s) by exact Hsrc.
    assert (Hall1 : forall n, In n tables ->
                              copyable (source_db s1) n
                              /\ table_exists (target_db s1) n = false).
    { intros n Hin. destruct (Hall n (or_intror Hin)) as [Hc He].
      rewrite Hsdb. split; [exact Hc|].
      apply (table_absent_elsewhere t n _ _ Hsame); [|exact He].
      intros ->. contradiction. }
    destruct (IH s1 Hclean1 Hnd' Hall1) as (Hok' & Hrest).
    split; [exact Hok'|].
    intros n tb [<-|Hin] Hfn.
    + destruct (for_each tables sync_table s1) as [r' s'] eqn:Hloop.
      destruct (for_each_sync_table_effect tables s1 r' s' Hclean1 Hloop)
        as (_ & _ & _ & Hframe).
      cbn [snd]. rewrite Hframe by (intros [_ Hin]; contradiction).
      rewrite Hf in Hfn. inversion Hfn; subst tb.
      unfold clean in Hclean1. unfold target_db. rewrite Hclean1.
      exact Hcopy.
    + apply Hrest; [exact Hin|]. rewrite Hsdb. exact Hfn.
Qed.

(** X13: a whole database copied.  Start with nothing pending on the
    target; let every table of the source's schema public be copyable
    (named in no other schema, under a name that the primary-key lookup
    reads as it is written, well formed, with columns that are copied as
    they are and with a primary key) and let the target have no table of
    any of these names.  Then
    [sync_all_tables] returns normally, and for every table of the
    source's schema public the target has, committed, a table of that name
    with the same columns, no key, and exactly the same rows in the same
    order. *)
Theorem sync_all_tables_copies_into_empty_target :
  forall (s : state),
    clean s ->
    NoDup (tables_in (source_db s) public) ->
    (forall n, In n (tables_in (source_db s) public) ->
               copyable (source_db s) n
               /\ table_exists (target_db s) n = false) ->
    fst (sync_all_tables s) = Ok tt
    /\ forall n tb,
         find_table (source_db s) public n = Some tb ->
         find_table (conn_committed (target_conn (snd (sync_all_tables s))))
                    public n
         = Some (mkTable (t_columns tb) [] (t_rows tb)).
Proof.
  intros s Hclean Hnd Hall.
  destruct (for_each_sync_table_fresh_copy
              (tables_in (source_db s) public) (listed s) Hclean Hnd Hall)
    as (Hok & Hcopy).
  destruct (sync_all_tables_effect s Hclean) as (Hc & _).
  unfold clean in Hc. rewrite <- Hc. revert Hc. 
  rewrite sync_all_tables_unfold.
  destruct (for_each (tables_in (source_db s) public) sync_table (listed s))
    as [r s'] eqn:Hloop.
  cbn [fst snd] in Hok, Hcopy. subst r. cbn. intros _.
  split; [reflexivity|].
  intros n tb Hf. apply Hcopy; [|exact Hf].
  eapply in_tables_in. exact Hf.
Qed.

Lemma users_is_copyable :
  forall n, In n (tables_in (source_db state_with_new_users) public) ->
    copyable (source_db state_with_new_users) n
    /\ table_exists (target_db state_with_new_users) n = false.
Proof.
  intros n [<-|[]]. split; [|reflexivity].
  exists users. repeat split; try reflexivity. discriminate.
Qed.

Lemma one_table_listed :
  NoDup (tables_in (source_db state_with_new_users) public).
Proof. repeat constructor. intros []. Qed.

Lemma sync_all_tables_copies_into_empty_target_witness :
  fst (sync_all_tables state_with_new_users) = Ok tt
  /\ find_table
       (conn_committed
          (target_conn (snd (sync_all_tables state_with_new_users))))
       public "users"
     = Some (mkTable (t_columns users) [] (t_rows users)).
Proof.
  destruct (sync_all_tables_copies_into_empty_target
              state_with_new_users eq_refl one_table_listed users_is_copyable)
    as [Hok Hcopy].
  split; [exact Hok|]. exact (Hcopy "users" users eq_refl).
Defined.

(* ------------------------------------------------------------------ *)
(** ** A target table that has drifted from the source *)

(** X14: the target already has table [t], but without one of the columns
    of the source table's primary key; the name is one that the
    primary-key lookup reads as it is written.  The schema step sees the
    table and leaves it alone; the probe for the first source row then
    names a column the target table does not have, and the server refuses
    it.  [sync_table] sends exactly that one probe, logs the server's
    message after its own words, rolls back and raises the error; the
    target's data is what was committed before. *)
Theorem sync_table_fails_when_target_lacks_key_column :
  forall (t : string) (s : state) (stb ttb : table) (r : row)
         (rest : list row),
    plain_name t = true ->
    find_table (source_db s) public t = Some stb ->
    well_formed stb = true ->
    t_pkey stb <> [] ->
    t_rows stb = r :: rest ->
    find_table (target_db s) public t = Some ttb ->
    forallb (fun k => memb k (column_names ttb)) (t_pkey stb) = false ->
    (exists msg,
       fst (sync_table t s) = Raise (ProgrammingError msg)
       /\ logger (snd (sync_table t s))
          = emit (emit (logger s) INFO
                       (t ++ " already exists in target database."))
                 ERROR ("Unexpected error syncing " ++ t ++ ": " ++ msg))
    /\ conn_committed (target_conn (snd (sync_table t s)))
       = conn_committed (target_conn s)
    /\ target_db (snd (sync_table t s)) = conn_committed (target_conn s)
    /\ conn_trace (target_conn (snd (sync_table t s)))
       = (conn_trace (target_conn s)
          ++ [exists_stmt t;
              mkExecuted (probe_query t (t_pkey stb))
                         [key_of (column_names stb) (t_pkey stb) r]])%list.
Proof.
  intros t s stb ttb r rest Hpn Hfs Hwf Hkey Hrows Hft Hlack.
  unfold well_formed in Hwf.
  apply andb_true_iff in Hwf as [Hwf Hkm].
  apply andb_true_iff in Hwf as [Hwf Hkd].
  apply andb_true_iff in Hwf as [_ Hlens].
  rewrite Hrows in Hlens. cbn [forallb] in Hlens.
  apply andb_true_iff in Hlens as [Hlen _]. apply Nat.eqb_eq in Hlen.
  pose proof (check_and_create_table_present t s
                (table_exists_of_find _ _ _ _ Hft)) as Hc.
  match type of Hc with _ = (_, ?x) => set (s1 := x) in * end.
  assert (Hfs1 : find_table (source_db s1) public t = Some stb) by exact Hfs.
  pose proof (get_missing_rows_keyed t s1 stb Hpn Hfs1 Hkey) as Hg.
  rewrite (plain_name_not_empty t Hpn) in Hg.
  set (dct := map (fun k => (k, field (column_names stb) r k)) (t_pkey stb)).
  assert (Hd : pk_values_of (column_names stb) r (t_pkey stb) [] = Ok dct).
  { apply (pk_values_of_total (column_names stb) r Hlen (t_pkey stb) []
             Hkd Hkm). intros k _ []. }
  assert (Hv : dict_values dct = key_of (column_names stb) (t_pkey stb) r).
  { unfold dict_values, key_of, dct. rewrite map_map. reflexivity. }
  assert (Hrun : fst (run (RProbe t (t_pkey stb) (dict_values dct))
                          (target_db (scanned t s1)))
                 = Raise undefined_column).
  { unfold run. rewrite Hv. unfold key_of. rewrite length_map.
    rewrite Nat.ltb_irrefl.
    change (target_db (scanned t s1)) with (target_db s).
    rewrite Hft, Hlack. reflexivity. }
  assert (Hp : probe_rows t (t_pkey stb) (column_names stb)
                          (construct_where_clause (t_pkey stb))
                          (t_rows stb) [] (scanned t s1)
               = (Raise undefined_column,
                  probed t (t_pkey stb) (dict_values dct) (scanned t s1))).
  { rewrite Hrows. cbn [probe_rows]. unfold bind.
    rewrite probe_row_unfold, Hd, Hrun. reflexivity. }
  rewrite Hp in Hg.
  assert (Hbody : sync_table_body t s
                  = (Raise undefined_column,
                     probed t (t_pkey stb) (dict_values dct) (scanned t s1))).
  { rewrite sync_table_body_split. unfold bind at 1. rewrite Hc.
    unfold sync_rows, bind. rewrite Hg. reflexivity. }
  rewrite sync_table_unfold, Hbody. rewrite Hv. cbn.
  split; [eexists; split; reflexivity|].
  split; [reflexivity|]. split; [reflexivity|].
  rewrite <- app_assoc; reflexivity.
Qed.

Lemma sync_table_fails_when_target_lacks_key_column_witness :
  (exists msg, fst (sync_table "users" state_with_drifted_users)
               = Raise (ProgrammingError msg))
  /\ target_db (snd (sync_table "users" state_with_drifted_users))
     = conn_committed (target_conn state_with_drifted_users).
Proof.
  assert (Hkey : t_pkey users <> []) by discriminate.
  destruct (sync_table_fails_when_target_lacks_key_column
              "users" state_with_drifted_users users
              (mkTable [("name", "text")] [] [[VStr "a"]])
              [VInt 1; VStr "a"] [[VInt 2; VStr "b"]]
              eq_refl eq_refl eq_refl Hkey eq_refl eq_refl eq_refl)
    as ((msg & H1 & _) & _ & H2 & _).
  split; [exists msg; exact H1|exact H2].
Defined.

(* ------------------------------------------------------------------ *)
(** ** What the log says about the rows that were added *)

Lemma insert_rows_length (cols : list string) :
  forall (rows : list row) (tb tb' : table),
    insert_rows cols tb rows = Ok tb' ->
    List.length (t_rows tb') <= List.length (t_rows tb) + List.length rows.
Proof.
  induction rows as [|r rows IH]; intros tb tb' H; cbn [insert_rows] in H.
  - inversion H; subst. lia.
  - destruct (insert_row cols tb r) as [tb1|e] eqn:Hr; [|discriminate].
    apply IH in H. cbn [List.length].
    unfold insert_row in Hr.
    destruct (existsb _ (t_pkey tb)); [discriminate|].
    destruct (conflicts tb _); inversion Hr; subst; cbn [t_rows] in *.
    + lia.
    + rewrite length_app in H. cbn [List.length] in H. lia.
Qed.

Lemma row_count_ensured (d d1 : database) (t : string) :
  ensured d d1 t -> row_count d1 t = row_count d t.
Proof.
  intros [->|(Hex & cols & ->)]; [reflexivity|].
  unfold row_count.
  rewrite find_table_set_table_same, (find_of_table_absent _ public t Hex).
  reflexivity.
Qed.

(** X15: rows are added only by a run that logs them.  Start with nothing
    pending on the target.  After [sync_table t], either table [t] of the
    target has as many rows as before, or the call returned normally, the
    last record of its log is the INFO record that reports [t] as synced
    with the number of rows in the list that [get_missing_rows] returned
    in this very call, right after the schema step, and the table has
    gained at most that many rows. *)
Theorem added_rows_are_logged :
  forall (t : string) (s : state),
    clean s ->
    row_count (target_db (snd (sync_table t s))) t
    = row_count (target_db s) t
    \/ exists (s1 : state) (m : list row) (cols : list string) (s2 : state),
         check_and_create_table t s = (Ok tt, s1)
         /\ get_missing_rows t s1 = (Ok (m, cols), s2)
         /\ fst (sync_table t s) = Ok tt
         /\ logger (snd (sync_table t s))
            = emit (logger s2) INFO (synced_message t m)
         /\ row_count (target_db (snd (sync_table t s))) t
            <= row_count (target_db s) t + List.length m.
Proof.
  intros t s Hclean. rewrite sync_table_unfold.
  destruct (sync_table_body t s) as [rb sb] eqn:Hb.
  destruct (sync_table_body_data t s rb sb Hclean Hb)
    as (Hcb & _ & _ & d1 & Hens & Hd).
  apply row_count_ensured in Hens. unfold clean in Hcb.
  unfold target_db in *.
  destruct Hd as [Hd|(-> & m & cols & s1 & s2 & tb & tb' & Hc & Hd1 & Hg
                      & Hm & Hf & _ & Hi & Hd)].
  - left. destruct rb as [[]|e].
    + cbn [snd]. rewrite Hd. exact Hens.
    + destruct (is_integrity_error e); cbn; rewrite <- Hcb, Hd; exact Hens.
  - right. cbn [fst snd]. exists s1, m, cols, s2.
    split; [exact Hc|]. split; [exact Hg|].
    rewrite sync_table_body_split in Hb. unfold bind at 1 in Hb.
    rewrite Hc in Hb.
    apply sync_rows_cases in Hb as (r1 & s2' & Hg' & Hcase).
    rewrite Hg in Hg'. inversion Hg'; subst r1 s2'. clear Hg'.
    destruct m as [|r0 m]; [contradiction|].
    destruct (conn_execute_values (insert_missing_rows t cols) (r0 :: m)
                                  (target_conn s2)) as [[rs|e] c3];
      destruct Hcase as [Hr Hs]; [|discriminate].
    split; [reflexivity|].
    split; [rewrite Hs; reflexivity|].
    rewrite Hd, <- Hens. unfold row_count at 1.
    rewrite find_table_set_table_same. unfold row_count.
    rewrite Hf.
    exact (insert_rows_length cols _ _ _ Hi).
Qed.

Lemma added_rows_are_logged_witness :
  row_count (target_db (snd (sync_table "users" state_with_new_users)))
            "users"
  = row_count (target_db state_with_new_users) "users"
  \/ exists (s1 : state) (m : list row) (cols : list string) (s2 : state),
       check_and_create_table "users" state_with_new_users = (Ok tt, s1)
       /\ get_missing_rows "users" s1 = (Ok (m, cols), s2)
       /\ fst (sync_table "users" state_with_new_users) = Ok tt
       /\ logger (snd (sync_table "users" state_with_new_users))
          = emit (logger s2) INFO (synced_message "users" m)
       /\ row_count (target_db (snd (sync_table "users"
                                                state_with_new_users)))
                    "users"
          <= row_count (target_db state_with_new_users) "users"
             + List.length m.
Proof.
  exact (added_rows_are_logged "users" state_with_new_users eq_refl).
Defined.
